(** * zkwasm-mini-service: the deposit state machine, the historical scanner,
      the polling loop, the command encoder and the proof-instance extractors

    A shallow embedding of [deposit.ts] (class [Deposit]) and of
    [utils/extract_merkle_root.ts].  Asynchronous code is sequential once
    every [await] is read as a call: the services run one logical worker, so
    a computation is a function from the world (document store, reentrancy
    flag, history of interactions) to an outcome and a new world.  Remote
    parties (the L1 provider, the L2 application RPC, the document store's
    availability, the clock) are an arbitrary deterministic environment whose
    answers may depend on the whole history. *)

From Stdlib Require Import ZArith Lia Ascii String.
From stdpp Require Import base option list strings pretty gmap.

Local Open Scope string_scope.
Local Open Scope list_scope.
Local Open Scope Z_scope.

(** ** Numbers *)

(** [BigInt.asUintN(bits, v)]. *)
Definition asUintN (bits v : Z) : Z := v mod 2 ^ bits.

(** A block number inside a template literal: its decimal numeral. *)
Definition numberToString (n : Z) : string := pretty n.

(** [BigInt(10 ** 18)]: 10^18 is exactly representable as a double. *)
Definition WEI_PER_ETHER : Z := 10 ^ 18.

(** [amount / BigInt(10 ** 18)]: BigInt division truncates toward zero. *)
Definition amountInEtherOf (amountWei : Z) : Z := Z.quot amountWei WEI_PER_ETHER.

(** ** The tracked document (the mongoose schema [txSchema]) *)

Record TxDoc : Type := mkTxDoc {
  txHash        : string;
  state         : string;
  timestamp     : Z;
  l1token       : string;
  address       : string;
  nonce         : option Z;
  pid_1         : Z;
  pid_2         : Z;
  amount        : Z;
  retryCount    : Z;
  lastRetryTime : option Z
}.

Definition set_state (s : string) (d : TxDoc) : TxDoc :=
  mkTxDoc (txHash d) s (timestamp d) (l1token d) (address d) (nonce d)
          (pid_1 d) (pid_2 d) (amount d) (retryCount d) (lastRetryTime d).

Definition set_nonce (n : Z) (d : TxDoc) : TxDoc :=
  mkTxDoc (txHash d) (state d) (timestamp d) (l1token d) (address d) (Some n)
          (pid_1 d) (pid_2 d) (amount d) (retryCount d) (lastRetryTime d).

(** [tx.retryCount += 1; tx.lastRetryTime = new Date()]. *)
Definition bump_retry (t : Z) (d : TxDoc) : TxDoc :=
  mkTxDoc (txHash d) (state d) (timestamp d) (l1token d) (address d) (nonce d)
          (pid_1 d) (pid_2 d) (amount d) (retryCount d + 1) (Some t).

(** ** Events decoded from L1 logs *)

Record TopUpArgs : Type := mkTopUpArgs {
  arg_l1token : string;
  arg_address : string;
  arg_pid_1   : Z;
  arg_pid_2   : Z;
  arg_amount  : Z
}.

(** An [EventLog]; [decoded] is what [proxyContract.interface.parseLog]
    yields for its topics and data ([None] for [null]). *)
Record EventLog : Type := mkEventLog {
  transactionHash : string;
  blockNumber     : Z;
  decoded         : option TopUpArgs
}.

(** ** History of interactions *)

Inductive Event : Type :=
| EvAllTokens
| EvFindOne (h : string)
| EvInsert (doc : TxDoc)
| EvSave (doc : TxDoc)
| EvUpdateOne (h : string) (s : string)
| EvGetNonce
| EvCheckDeposit (n p1 p2 tokenIndex amt : Z)
| EvDeposit (n p1 p2 tokenIndex amt : Z) (persisted : option TxDoc)
| EvGetBlockNumber
| EvGetLogs (fromBlock toBlock : Z)
| EvConsoleError (msg : string).

(** The answer of a remote call: the promise resolves or rejects. *)
Inductive Resp (A : Type) : Type :=
| Resolved (a : A)
| Rejected (err : string).
Arguments Resolved {A} a.
Arguments Rejected {A} err.

(** The environment.  Every field receives the history up to and including
    the call it answers.  [storeFault] says whether the store operation just
    issued rejects; [getNonce] may resolve to [null]; [checkDeposit] resolves
    to the [data] field of its result; [deposit] resolves to the truthiness of
    its result. *)
Record Env : Type := mkEnv {
  allTokens      : list Event -> Resp (list string);
  storeFault     : list Event -> option string;
  getNonce       : list Event -> Resp (option Z);
  checkDeposit   : list Event -> Resp (option string);
  deposit        : list Event -> Resp bool;
  getBlockNumber : list Event -> Resp Z;
  getLogs        : list Event -> Resp (list EventLog);
  now            : list Event -> Z
}.

(** ** The world and the monad of the service *)

Record World : Type := mkWorld {
  store               : gmap string TxDoc;
  isProcessingDeposit : bool;
  trace               : list Event
}.

(** A call returns, throws, or ends the process ([process.exit(code)]). *)
Inductive Outcome (A : Type) : Type :=
| Ret (a : A)
| Throw (err : string)
| Exit (code : Z).
Arguments Ret {A} a.
Arguments Throw {A} err.
Arguments Exit {A} code.

Definition M (A : Type) : Type := World -> Outcome A * World.

Definition ret {A} (a : A) : M A := fun w => (Ret a, w).

Definition bind {A B} (m : M A) (k : A -> M B) : M B :=
  fun w =>
    match m w with
    | (Ret a, w') => k a w'
    | (Throw e, w') => (Throw e, w')
    | (Exit c, w') => (Exit c, w')
    end.

Notation "x <- m ;; k" := (bind m (fun x => k))
  (at level 100, m at next level, right associativity).
Notation "m ;;; k" := (bind m (fun _ => k))
  (at level 100, right associativity).

Definition throw {A} (err : string) : M A := fun w => (Throw err, w).

Definition processExit {A} (code : Z) : M A := fun w => (Exit code, w).

(** Reading [tx.nonce] goes through the schema getter
    [BigInt.asUintN(64, value)], which has no guard for an unset value: on a
    document without nonce the read throws a [TypeError]
    ([BigInt.asUintN(64, undefined)]); on a stored value it gives that value
    modulo 2^64, never [null].  Where the source reads [tx.nonce] right after
    assigning it, [asUintN 64] of the assigned value is written. *)
Definition get_nonce (d : TxDoc) : M (option Z) :=
  match nonce d with
  | Some n => ret (Some (asUintN 64 n))
  | None => throw "TypeError: Cannot convert undefined to a BigInt"
  end.

(** [try { body } catch (error) { handler }]: [process.exit] is not caught. *)
Definition tryCatch {A} (body : M A) (handler : string -> M A) : M A :=
  fun w =>
    match body w with
    | (Throw e, w') => handler e w'
    | r => r
    end.

(** [try { body } finally { fin }]: the finaliser runs after a return or a
    throw, and not when the process has exited. *)
Definition tryFinally {A} (body : M A) (fin : M unit) : M A :=
  fun w =>
    match body w with
    | (Exit c, w') => (Exit c, w')
    | (o, w') =>
        match fin w' with
        | (Ret _, w'') => (o, w'')
        | (Throw e, w'') => (Throw e, w'')
        | (Exit c, w'') => (Exit c, w'')
        end
    end.

Definition log_event (ev : Event) (w : World) : World :=
  mkWorld (store w) (isProcessingDeposit w) (trace w ++ [ev]).

Definition emit (ev : Event) : M unit := fun w => (Ret tt, log_event ev w).

Definition consoleError (msg : string) : M unit := emit (EvConsoleError msg).

Definition setProcessing (b : bool) : M unit :=
  fun w => (Ret tt, mkWorld (store w) b (trace w)).

Definition getProcessing : M bool := fun w => (Ret (isProcessingDeposit w), w).

Definition with_store (s : gmap string TxDoc) (w : World) : World :=
  mkWorld s (isProcessingDeposit w) (trace w).

Section Deposit.

Variable env : Env.

(** *** Remote calls *)

Definition remote {A} (ev : Event) (answer : list Event -> Resp A) : M A :=
  fun w =>
    let w' := log_event ev w in
    match answer (trace w') with
    | Resolved a => (Ret a, w')
    | Rejected e => (Throw e, w')
    end.

(** [new Date()] / [Date.now]. *)
Definition clock : M Z := fun w => (Ret (now env (trace w)), w).

(** *** The document store *)

(** [TxHash.findOne({ txHash })]. *)
Definition TxHash_findOne (h : string) : M (option TxDoc) :=
  fun w =>
    let w' := log_event (EvFindOne h) w in
    match storeFault env (trace w') with
    | Some e => (Throw e, w')
    | None => (Ret (store w !! h), w')
    end.

(** [tx.save()] of a document made by [new TxHash(...)]: an insert, refused
    when the unique key [txHash] is taken. *)
Definition saveNew (doc : TxDoc) : M unit :=
  fun w =>
    let w' := log_event (EvInsert doc) w in
    match storeFault env (trace w') with
    | Some e => (Throw e, w')
    | None =>
        match store w !! txHash doc with
        | Some _ => (Throw "E11000 duplicate key error", w')
        | None => (Ret tt, with_store (<[txHash doc := doc]> (store w)) w')
        end
    end.

(** [tx.save()] of a tracked document, the one found (or inserted) under the
    key [h]: the modified paths are written to the stored document.  The
    in-memory document and the stored one agree before every such save, so
    the stored one becomes [doc]. *)
Definition save (h : string) (doc : TxDoc) : M unit :=
  fun w =>
    let w' := log_event (EvSave doc) w in
    match storeFault env (trace w') with
    | Some e => (Throw e, w')
    | None =>
        match store w !! h with
        | Some _ => (Ret tt, with_store (<[h := doc]> (store w)) w')
        | None => (Throw "DocumentNotFoundError", w')
        end
    end.

(** [TxHash.updateOne({ txHash, state: { $ne: 'completed' } }, { state })]. *)
Definition TxHash_updateOne_notCompleted (h s : string) : M unit :=
  fun w =>
    let w' := log_event (EvUpdateOne h s) w in
    match storeFault env (trace w') with
    | Some e => (Throw e, w')
    | None =>
        match store w !! h with
        | Some d =>
            if String.eqb (state d) "completed" then (Ret tt, w')
            else (Ret tt, with_store (<[h := set_state s d]> (store w)) w')
        | None => (Ret tt, w')
        end
    end.

Definition findTxByHash (h : string) : M (option TxDoc) := TxHash_findOne h.

Definition updateTxState (h s : string) : M unit :=
  tryCatch
    (TxHash_updateOne_notCompleted h s)
    (fun error =>
       consoleError ("Failed to update tx state for txHash " ++ h ++ ": " ++ error)).

(** *** performDeposit *)

(** [this.admin.deposit(...)]; the event records, next to the arguments, the
    document persisted for [h] at the instant the submission is issued. *)
Definition admin_deposit (h : string) (n p1 p2 tokenIndex amt : Z) : M bool :=
  fun w => remote (EvDeposit n p1 p2 tokenIndex amt (store w !! h)) (deposit env) w.

Definition is_completed (o : option TxDoc) : bool :=
  match o with
  | Some d => String.eqb (state d) "completed"
  | None => false
  end.

Definition performDeposit (h : string) (n p1 p2 tokenIndex amountInEther : Z) : M bool :=
  busy <- getProcessing ;;
  (if busy : bool then
     consoleError ("Fatal: Detected reentrant call in performDeposit for tx " ++ h) ;;;
     processExit 1
   else ret tt) ;;;
  tryFinally
    (tryCatch
       (setProcessing true ;;;
        currentTx <- TxHash_findOne h ;;
        (if is_completed currentTx then
           consoleError "tx already completed, this shall not happen" ;;;
           processExit 1
         else ret tt) ;;;
        depositResult <- admin_deposit h n p1 p2 tokenIndex amountInEther ;;
        (if depositResult : bool then ret tt
         else
           updateTxState h "failed" ;;;
           throw ("Deposit failed for transaction " ++ h)) ;;;
        updateTxState h "completed" ;;;
        ret true)
       (fun error =>
          consoleError ("Error during deposit: " ++ error) ;;;
          latestTx <- TxHash_findOne h ;;
          if is_completed latestTx then ret true
          else
            updateTxState h "failed" ;;;
            throw error))
    (setProcessing false).

(** *** processTopUpEvent *)

Fixpoint getTokenIndex_from (i : Z) (l1tok : string) (tokens : list string) : option Z :=
  match tokens with
  | [] => None
  | token_uid :: rest =>
      if String.eqb l1tok token_uid then Some i
      else getTokenIndex_from (i + 1) l1tok rest
  end.

(** The local function [getTokenIndex]: the first index whose [token_uid]
    is the event's token, [null] when there is none. *)
Definition getTokenIndex (l1tok : string) (tokens : list string) : option Z :=
  getTokenIndex_from 0 l1tok tokens.

Definition admin_getNonce : M (option Z) := remote EvGetNonce (getNonce env).

Definition admin_checkDeposit (n p1 p2 tokenIndex amt : Z) : M (option string) :=
  remote (EvCheckDeposit n p1 p2 tokenIndex amt) (checkDeposit env).

Definition nonce_is_null {A} : M A :=
  consoleError "nonce is null, this shall not happen" ;;; processExit 1.

Definition processTopUpEvent (event : EventLog) : M unit :=
  tryCatch
    (match decoded event with
     | None =>
         consoleError "Failed to decode event" ;;;
         throw "Failed to decode event"
     | Some args =>
         let h := transactionHash event in
         let p1 := arg_pid_1 args in
         let p2 := arg_pid_2 args in
         tokens <- remote EvAllTokens (allTokens env) ;;
         match getTokenIndex (arg_l1token args) tokens with
         | None => ret tt
         | Some tokenindex =>
             let amountInEther := amountInEtherOf (arg_amount args) in
             found <- TxHash_findOne h ;;
             match found with
             | None =>
                 created <- clock ;;
                 if (amountInEther <? 1)%Z then
                   saveNew (mkTxDoc h "completed" created (arg_l1token args)
                              (arg_address args) None p1 p2 amountInEther 0 None)
                 else
                   let tx := mkTxDoc h "pending" created (arg_l1token args)
                               (arg_address args) None p1 p2 amountInEther 0 None in
                   saveNew tx ;;;
                   nonce <- tryCatch
                              (got <- admin_getNonce ;;
                               match got with
                               | None => nonce_is_null
                               | Some n => save h (set_nonce n tx) ;;; ret n
                               end)
                              (fun error =>
                                 consoleError ("Error during get nonce: " ++ error) ;;;
                                 throw error) ;;
                   tryCatch
                     (save h (set_state "in-progress" (set_nonce nonce tx)) ;;;
                      performDeposit h (asUintN 64 nonce) p1 p2 tokenindex amountInEther ;;;
                      ret tt)
                     (fun error =>
                        consoleError ("Error during deposit processing: " ++ error) ;;;
                        updateTxState h "failed" ;;;
                        throw error)
             | Some tx =>
                 if String.eqb (state tx) "completed" then ret tt
                 else if String.eqb (state tx) "pending" then
                   tryCatch
                     (nonce <- tryCatch
                                 (got <- admin_getNonce ;;
                                  match got with
                                  | None => nonce_is_null
                                  | Some n => save h (set_nonce n tx) ;;; ret n
                                  end)
                                 (fun error =>
                                    consoleError ("Error during get nonce: " ++ error) ;;;
                                    throw error) ;;
                      if (amountInEther <? 1)%Z then updateTxState h "completed"
                      else
                        tryCatch
                          (save h (set_state "in-progress" (set_nonce nonce tx)) ;;;
                           performDeposit h (asUintN 64 nonce) p1 p2 tokenindex
                             amountInEther ;;;
                           ret tt)
                          (fun error =>
                             consoleError ("Error during deposit processing: " ++ error) ;;;
                             updateTxState h "failed" ;;;
                             throw error))
                     (fun error => throw error)
                 else if String.eqb (state tx) "in-progress"
                         || String.eqb (state tx) "failed" then
                   tryCatch
                     (read <- get_nonce tx ;;
                      match read with
                      | Some n =>
                          checkResult <- admin_checkDeposit n p1 p2 tokenindex amountInEther ;;
                          match checkResult with
                          | Some _ => updateTxState h "completed"
                          | None =>
                              retried <- clock ;;
                              newNonce <- admin_getNonce ;;
                              match newNonce with
                              | None => nonce_is_null
                              | Some n' =>
                                  let tx1 := set_nonce n' (bump_retry retried tx) in
                                  save h tx1 ;;;
                                  performDeposit h (asUintN 64 n') p1 p2 tokenindex
                                    amountInEther ;;;
                                  ret tt
                              end
                          end
                      | None =>
                          consoleError "tx nonce is not set shall not happen" ;;;
                          processExit 1
                      end)
                     (fun error =>
                        consoleError
                          ("Error handling in-progress/failed transaction: " ++ error) ;;;
                        throw error)
                 else
                   consoleError "Unexpected state of tracked deposit tx" ;;;
                   processExit 1
             end
         end
     end)
    (fun error => throw error).

(** *** getHistoricalTopUpEvents *)

Definition batchSize : Z := 25000.
Definition totalBlocksToScan : Z := 200000.

(** [!tx || ['pending', 'in-progress', 'failed'].includes(tx.state)] *)
Definition needs_processing (tx : option TxDoc) : bool :=
  match tx with
  | None => true
  | Some d =>
      String.eqb (state d) "pending" || String.eqb (state d) "in-progress"
      || String.eqb (state d) "failed"
  end.

(** [for (const log of logs) { try { ... } catch (error) { ...; continue } }] *)
Fixpoint processHistoricalLogs (logs : list EventLog) : M unit :=
  match logs with
  | [] => ret tt
  | log :: rest =>
      tryCatch
        (tx <- findTxByHash (transactionHash log) ;;
         if needs_processing tx then processTopUpEvent log else ret tt)
        (fun error =>
           consoleError ("Error processing individual event "
                         ++ transactionHash log ++ ": " ++ error)) ;;;
      processHistoricalLogs rest
  end.

(** [for (let fromBlock = startBlock; fromBlock < latestBlock;
         fromBlock += batchSize) { ... }]; [fuel] bounds the iterations. *)
Fixpoint historicalLoop (fuel : nat) (fromBlock latestBlock : Z) : M unit :=
  match fuel with
  | O => ret tt
  | S fuel' =>
      if (fromBlock <? latestBlock)%Z then
        let toBlock := Z.min (fromBlock + batchSize - 1) latestBlock in
        tryCatch
          (logs <- remote (EvGetLogs fromBlock toBlock) (getLogs env) ;;
           processHistoricalLogs logs)
          (fun error =>
             consoleError ("Error processing batch " ++ numberToString fromBlock
                           ++ "-" ++ numberToString toBlock ++ ": " ++ error)) ;;;
        historicalLoop fuel' (fromBlock + batchSize) latestBlock
      else ret tt
  end.

(** The number of iterations the loop makes from [startBlock]. *)
Definition historicalIterations (startBlock latestBlock : Z) : nat :=
  Z.to_nat ((latestBlock - startBlock + batchSize - 1) / batchSize).

(** [config_startBlock] is [this.config.startBlock] ([None] for
    [undefined]).  The contract ABI is taken to list the [TopUp] event, so the
    lookup of its signature does not throw.  The [finally] block only logs. *)
Definition getHistoricalTopUpEvents (config_startBlock : option Z) : M unit :=
  tryCatch
    (latestBlock <- remote EvGetBlockNumber (getBlockNumber env) ;;
     match config_startBlock with
     | Some configured =>
         if (configured >? latestBlock)%Z then ret tt
         else
           historicalLoop (historicalIterations configured latestBlock)
             configured latestBlock
     | None =>
         let startBlock := Z.max 0 (latestBlock - totalBlocksToScan) in
         historicalLoop (historicalIterations startBlock latestBlock)
           startBlock latestBlock
     end)
    (fun error =>
       consoleError ("Error retrieving historical TopUp events: " ++ error)).

End Deposit.

(** ** createCommand *)

(** [new BigUint64Array(buf)] reduces every element modulo 2^64. *)
Definition BigUint64Array (buf : list Z) : list Z := map (asUintN 64) buf.

Definition createCommand (nonce command : Z) (params : list Z) : list Z :=
  let cmd := Z.shiftl nonce 16 + Z.shiftl (Z.of_nat (length params) + 1) 8 + command in
  BigUint64Array (cmd :: params).

(** The command word, with the fields joined by bitwise or. *)
Definition command_word (nonce command len : Z) : Z :=
  Z.lor (Z.lor (Z.shiftl nonce 16) (Z.shiftl (len + 1) 8)) command.

(** ** Proof-instance extraction ([utils/extract_merkle_root.ts]) *)

(** *** The part of bn.js the extractors use *)

Definition digit_value (c : ascii) : option Z :=
  let n := Z.of_nat (nat_of_ascii c) in
  if (48 <=? n) && (n <=? 57) then Some (n - 48) else None.

Fixpoint parseBase10 (acc : Z) (s : string) : option Z :=
  match s with
  | EmptyString => Some acc
  | String c rest =>
      match digit_value c with
      | Some d => parseBase10 (acc * 10 + d) rest
      | None => None
      end
  end.

(** The code units that [\s] matches, among those below 256: tab, line
    feed, vertical tab, form feed, carriage return, space and the no-break
    space. *)
Definition is_space (c : ascii) : bool :=
  let n := Z.of_nat (nat_of_ascii c) in
  ((9 <=? n) && (n <=? 13)) || (n =? 32) || (n =? 160).

(** [number.toString().replace(/\s+/g, '')] *)
Fixpoint strip_spaces (s : string) : string :=
  match s with
  | EmptyString => EmptyString
  | String c rest =>
      if is_space c then strip_spaces rest else String c (strip_spaces rest)
  end.

(** An optional sign, then decimal digits; any other character is refused. *)
Definition BN_parse10 (s : string) : Outcome Z :=
  match s with
  | String "-" rest =>
      match parseBase10 0 rest with
      | Some v => Ret (- v)
      | None => Throw "Invalid character"
      end
  | _ =>
      match parseBase10 0 s with
      | Some v => Ret v
      | None => Throw "Invalid character"
      end
  end.

(** [new BN(number, 10)] for a string ([None] stands for [undefined], which
    bn.js reads as 0): white space is removed first, then the numeral is
    parsed. *)
Definition BN_new10 (number : option string) : Outcome Z :=
  match number with
  | None => Ret 0
  | Some raw => BN_parse10 (strip_spaces raw)
  end.

(** [a.shln(bits)] and [a.add(b)] on arbitrary-precision integers. *)
Definition shln (a : Z) (bits : Z) : Z := Z.shiftl a bits.

Definition hex_digit (d : Z) : ascii :=
  match string_of_list_ascii (drop (Z.to_nat d) (list_ascii_of_string "0123456789abcdef")) with
  | String c _ => c
  | EmptyString => "0"%char
  end.

(** The hexadecimal digit of weight 16^i. *)
Definition nibble (v : Z) (i : nat) : Z := Z.land (Z.shiftr v (4 * Z.of_nat i)) 15.

(** The number of hexadecimal digits of a magnitude, one for zero. *)
Definition hex_length (mag : Z) : Z := if mag =? 0 then 1 else Z.log2 mag / 4 + 1.

(** [a.toString('hex', padding)]: the hexadecimal digits, most significant
    first, with zeros in front until the length is a multiple of [padding];
    the sign comes first. *)
Definition BN_toString_hex (a : Z) (padding : Z) : string :=
  let mag := Z.abs a in
  let len := (hex_length mag + padding - 1) / padding * padding in
  let digits := map (fun i => hex_digit (nibble mag i)) (rev (seq 0 (Z.to_nat len))) in
  let sign : string := if a <? 0 then "-" else "" in
  (sign ++ string_of_list_ascii digits)%string.

(** *** The extractors *)

Record ProofArgs : Type := mkProofArgs {
  txData            : list Z;
  proofArr          : list string;
  verifyInstanceArr : list string;
  auxArr            : list string;
  instArr           : list string
}.

Definition obind {A B} (o : Outcome A) (k : A -> Outcome B) : Outcome B :=
  match o with
  | Ret a => k a
  | Throw e => Throw e
  | Exit c => Exit c
  end.

(** The body shared by the three extractors once the length is checked:
    four limbs starting at index [i], combined and printed. *)
Definition pack_limbs (arr : list string) (i : nat) : Outcome string :=
  obind (BN_new10 (arr !! i)) (fun a =>
  obind (BN_new10 (arr !! (i + 1)%nat)) (fun b =>
  obind (BN_new10 (arr !! (i + 2)%nat)) (fun c =>
  obind (BN_new10 (arr !! (i + 3)%nat)) (fun d =>
    Ret ("0x" ++ BN_toString_hex (shln a 192 + shln b 128 + shln c 64 + d) 64)%string)))).

Definition extractMerkleRoot (attributes : ProofArgs) : Outcome string :=
  if (Z.of_nat (length (instArr attributes)) <? 4)%Z then
    Throw "instArr must have at least 4 elements to calculate merkle_root"
  else pack_limbs (instArr attributes) 0.

Definition extractNewMerkleRoot (attributes : ProofArgs) : Outcome string :=
  if (Z.of_nat (length (instArr attributes)) <? 8)%Z then
    Throw "instArr must have at least 8 elements to calculate new_merkle_root"
  else pack_limbs (instArr attributes) 4.

Definition extractShaHash (attributes : ProofArgs) : Outcome string :=
  if (Z.of_nat (length (instArr attributes)) <? 12)%Z then
    Throw "instArr must have at least 12 elements to calculate sha_pack"
  else pack_limbs (instArr attributes) 8.

(** The instance array of [demonstrateExtraction]. *)
Definition demo_instArr : list string :=
  [ "910400006888094404"; "18142358643817710901"; "11743083299358509370";
    "557062474596129021"; "15610985209716397462"; "14566187743782344128";
    "5237131197396905609"; "288166984414608746"; "16406829232824261652";
    "11167788843400149284"; "2859295262623109964"; "11859553537011923029" ].

Definition demo_attributes : ProofArgs :=
  mkProofArgs [0] [] [] ["1"] demo_instArr.

(** *** The rendering the specification names *)

(** [n] hexadecimal digits of [v], most significant first, zero-padded. *)
Fixpoint hex_fixed (n : nat) (v : Z) : string :=
  match n with
  | O => ""
  | S n' => (hex_fixed n' (v / 16) ++ String (hex_digit (v mod 16)) "")%string
  end.

(** Reading hexadecimal digits back, most significant first. *)
Definition hex_digit_value (c : ascii) : option Z :=
  let n := Z.of_nat (nat_of_ascii c) in
  if (48 <=? n) && (n <=? 57) then Some (n - 48)
  else if (97 <=? n) && (n <=? 102) then Some (n - 87)
  else None.

Fixpoint hex_value_from (acc : Z) (s : string) : option Z :=
  match s with
  | EmptyString => Some acc
  | String c rest =>
      match hex_digit_value c with
      | Some v => hex_value_from (acc * 16 + v) rest
      | None => None
      end
  end.

(** A 256-bit value printed as the specification has it. *)
Definition hex256 (v : Z) : string := ("0x" ++ hex_fixed 64 v)%string.

(** Four 64-bit limbs, most significant first, as one 256-bit value. *)
Definition limbs256 (a b c d : Z) : Z :=
  Z.shiftl a 192 + Z.shiftl b 128 + Z.shiftl c 64 + d.

(** [arr] holds decimal numerals of the values [vals], each below 2^64. *)
Definition limb_strings (arr : list string) (vals : list Z) : Prop :=
  Forall2 (fun s v => parseBase10 0 s = Some v /\ 0 <= v < 2 ^ 64) arr vals.

Definition throws {A} (o : Outcome A) : Prop := exists e, o = Throw e.

(** ** Environments and worlds used in the examples *)

(** An environment that never fails and always gives the same answers. *)
Definition steadyEnv (tokens : list string) (nextNonce : option Z)
    (checked : option string) (deposited : bool) (head : Z) : Env :=
  mkEnv (fun _ => Resolved tokens) (fun _ => None) (fun _ => Resolved nextNonce)
        (fun _ => Resolved checked) (fun _ => Resolved deposited)
        (fun _ => Resolved head) (fun _ => Resolved []) (fun _ => 0).

Definition emptyWorld : World := mkWorld ∅ false [].

Definition is_getLogs (ev : Event) : bool :=
  match ev with
  | EvGetLogs _ _ => true
  | _ => false
  end.

(** An environment whose store rejects every [updateOne] and nothing else. *)
Definition updateFailsEnv (tokens : list string) (nextNonce : option Z)
    (checked : option string) (deposited : bool) : Env :=
  mkEnv (fun _ => Resolved tokens)
        (fun history =>
           match last history with
           | Some (EvUpdateOne _ _) => Some "store unavailable"
           | _ => None
           end)
        (fun _ => Resolved nextNonce)
        (fun _ => Resolved checked) (fun _ => Resolved deposited)
        (fun _ => Resolved 0) (fun _ => Resolved []) (fun _ => 0).

(** An environment whose store rejects an operation issued as the very first
    interaction and answers every later one. *)
Definition lookupFailsOnceEnv (tokens : list string) (nextNonce : option Z)
    (checked : option string) (deposited : bool) : Env :=
  mkEnv (fun _ => Resolved tokens)
        (fun history =>
           match history with
           | [_] => Some "store unavailable"
           | _ => None
           end)
        (fun _ => Resolved nextNonce)
        (fun _ => Resolved checked) (fun _ => Resolved deposited)
        (fun _ => Resolved 0) (fun _ => Resolved []) (fun _ => 0).

(** A tracked document for the transaction [0xabc]. *)
Definition sampleDoc (st : string) (n : option Z) : TxDoc :=
  mkTxDoc "0xabc" st 0 "T" "U" n 1 2 2 0 None.

Definition sampleWorld (st : string) (n : option Z) : World :=
  mkWorld {[ "0xabc" := sampleDoc st n ]} false [].

(** The [TopUp] event of the transaction [0xabc]. *)
Definition sampleEvent (amountWei : Z) : EventLog :=
  mkEventLog "0xabc" 10 (Some (mkTopUpArgs "T" "U" 1 2 amountWei)).

(** The history of [w'] is that of [w] followed by [evs] and possibly more. *)
Definition continues (w w' : World) (evs : list Event) : Prop :=
  exists rest, trace w' = trace w ++ evs ++ rest.

Definition is_deposit (ev : Event) : bool :=
  match ev with
  | EvDeposit _ _ _ _ _ _ => true
  | _ => false
  end.

(** The events of [w'] that follow the history of [w]. *)
Definition new_events (w w' : World) : list Event :=
  drop (length (trace w)) (trace w').

Definition post_pending (d : TxDoc) : Prop :=
  state d = "in-progress" \/ state d = "failed".

(** Running [m] leaves the document [d] stored under [k] as it is. *)
Definition keeps (k : string) (d : TxDoc) {A} (m : M A) : Prop :=
  forall w, store w !! k = Some d -> store (snd (m w)) !! k = Some d.

(** A state outside the four the schema lists. *)
Definition unexpected_state (d : TxDoc) : Prop :=
  state d <> "pending" /\ state d <> "in-progress"
  /\ state d <> "completed" /\ state d <> "failed".

Definition demo_limbs : list Z :=
  [ 910400006888094404; 18142358643817710901; 11743083299358509370;
    557062474596129021; 15610985209716397462; 14566187743782344128;
    5237131197396905609; 288166984414608746; 16406829232824261652;
    11167788843400149284; 2859295262623109964; 11859553537011923029 ].

(** The block ranges the loop of [getHistoricalTopUpEvents] asks the logs
    of, in order, read off the loop header. *)
Fixpoint historicalRanges (fuel : nat) (fromBlock latestBlock : Z) : list (Z * Z) :=
  match fuel with
  | O => []
  | S fuel' =>
      if fromBlock <? latestBlock then
        (fromBlock, Z.min (fromBlock + batchSize - 1) latestBlock)
          :: historicalRanges fuel' (fromBlock + batchSize) latestBlock
      else []
  end.

(** Every log query in the history after [m] was there before or asks for
    one of the [ranges]. *)
Definition only_queries (ranges : list (Z * Z)) {A} (m : M A) : Prop :=
  forall w fromBlock toBlock,
    EvGetLogs fromBlock toBlock ∈ trace (snd (m w)) ->
    EvGetLogs fromBlock toBlock ∈ trace w \/ (fromBlock, toBlock) ∈ ranges.

(** [m] takes every world to one related to it by [R]. *)
Definition acts_within (R : World -> World -> Prop) {A} (m : M A) : Prop :=
  forall w, R w (snd (m w)).

(** The documents other than the one under [k] are where they were. *)
Definition others_untouched (k : string) (w w' : World) : Prop :=
  forall k', k' <> k -> store w' !! k' = store w !! k'.

(** No tracked document has gone. *)
Definition none_deleted (w w' : World) : Prop :=
  forall k, is_Some (store w !! k) -> is_Some (store w' !! k).

(** The history of [w'] starts with that of [w]. *)
Definition history_extended (w w' : World) : Prop :=
  exists evs, trace w' = trace w ++ evs.

(** The number of deposit submissions in a history. *)
Fixpoint count_deposits (history : list Event) : nat :=
  match history with
  | [] => 0
  | ev :: rest => ((if is_deposit ev then 1 else 0) + count_deposits rest)%nat
  end.

(** The process goes on after the call ([process.exit] was not reached). *)
Definition survives {A} (o : Outcome A) : Prop :=
  match o with
  | Exit _ => False
  | _ => True
  end.

(** An environment that never fails, except that the deposit answers as
    given. *)
Definition depositEnv (tokens : list string) (nextNonce : option Z)
    (checked : option string) (deposited : Resp bool) : Env :=
  mkEnv (fun _ => Resolved tokens) (fun _ => None) (fun _ => Resolved nextNonce)
        (fun _ => Resolved checked) (fun _ => deposited)
        (fun _ => Resolved 0) (fun _ => Resolved []) (fun _ => 0).

(** [m] returns or ends the process, and never throws. *)
Definition never_throws {A} (m : M A) : Prop :=
  forall w e, fst (m w) <> Throw e.

(** ** Polling for new events ([serve]) *)

Section Polling.

Variable env : Env.

Definition maxBatchSize : Z := 25000.

(** [for (let fromBlock = lastProcessedBlock + 1; fromBlock <= currentBlock;
         fromBlock += maxBatchSize) { ... }]: the logs of the batches are
    gathered in [processedLogs]; [fuel] bounds the iterations. *)
Fixpoint pollLogs (fuel : nat) (fromBlock currentBlock : Z)
    (processedLogs : list EventLog) : M (list EventLog) :=
  match fuel with
  | O => ret processedLogs
  | S fuel' =>
      if (fromBlock <=? currentBlock)%Z then
        let toBlock := Z.min (fromBlock + maxBatchSize - 1) currentBlock in
        batchLogs <- remote (EvGetLogs fromBlock toBlock) (getLogs env) ;;
        pollLogs fuel' (fromBlock + maxBatchSize) currentBlock
          (processedLogs ++ batchLogs)
      else ret processedLogs
  end.

(** The number of iterations the loop makes from [fromBlock]. *)
Definition pollIterations (fromBlock currentBlock : Z) : nat :=
  Z.to_nat ((currentBlock - fromBlock + maxBatchSize) / maxBatchSize).

(** [for (const log of processedLogs) { await this.processTopUpEvent(log) }] *)
Fixpoint processPolledLogs (processedLogs : list EventLog) : M unit :=
  match processedLogs with
  | [] => ret tt
  | log :: rest => processTopUpEvent env log ;;; processPolledLogs rest
  end.

(** The body of the inner [try] of [poll]; the value is [lastProcessedBlock]
    as the attempt leaves it.  The contract ABI is taken to list the [TopUp]
    event. *)
Definition pollAttempt (lastProcessedBlock : Z) : M Z :=
  currentBlock <- remote EvGetBlockNumber (getBlockNumber env) ;;
  if (currentBlock >? lastProcessedBlock)%Z then
    processedLogs <- pollLogs (pollIterations (lastProcessedBlock + 1) currentBlock)
                       (lastProcessedBlock + 1) currentBlock [] ;;
    processPolledLogs processedLogs ;;;
    ret currentBlock
  else ret lastProcessedBlock.

(** [while (retries > 0) { try { ...; break } catch (error) { retries--; ... } }];
    the wait of two seconds before the next attempt leaves no mark. *)
Fixpoint pollRetries (retries : nat) (lastProcessedBlock : Z) : M Z :=
  match retries with
  | O => ret lastProcessedBlock
  | S retries' =>
      attempt <- tryCatch
                   (currentBlock <- pollAttempt lastProcessedBlock ;;
                    ret (Some currentBlock))
                   (fun error =>
                      consoleError ("[Poll] Error during polling: " ++ error) ;;;
                      (if Nat.eqb retries' 0
                       then consoleError "[Poll] Failed after all retry attempts"
                       else ret tt) ;;;
                      ret None) ;;
      match attempt with
      | Some currentBlock => ret currentBlock
      | None => pollRetries retries' lastProcessedBlock
      end
  end.

(** The variables of [serve] that [poll] closes over. *)
Record PollState : Type := mkPollState {
  lastProcessedBlock : Z;
  isProcessing : bool
}.

(** [poll].  A round that finds the flag set returns at once.  Otherwise the
    flag is set for the time of the round and cleared in the [finally]; the
    rounds are awaited one after the other, so the value the flag has inside a
    round is seen by no other. *)
Definition poll (st : PollState) : M PollState :=
  if isProcessing st then ret st
  else
    processed <- pollRetries 3 (lastProcessedBlock st) ;;
    ret (mkPollState processed false).

(** [scheduleNextPoll]: each timer callback awaits [poll] and schedules the
    next; the first [rounds] rounds. *)
Fixpoint pollRounds (rounds : nat) (st : PollState) : M PollState :=
  match rounds with
  | O => ret st
  | S rounds' => st' <- poll st ;; pollRounds rounds' st'
  end.

(** [serve] from the historical sweep to the end of the [rounds]-th polling
    round.  (Before the sweep [serve] connects to the database and installs
    the admin player.) *)
Definition serveFromSweep (config_startBlock : option Z) (rounds : nat)
    : M PollState :=
  getHistoricalTopUpEvents env config_startBlock ;;;
  processed <- remote EvGetBlockNumber (getBlockNumber env) ;;
  pollRounds rounds (mkPollState processed false).

End Polling.

(** The block ranges the batch loop of [poll] asks the logs of, in order,
    read off the loop header. *)
Fixpoint pollRanges (fuel : nat) (fromBlock currentBlock : Z) : list (Z * Z) :=
  match fuel with
  | O => []
  | S fuel' =>
      if fromBlock <=? currentBlock then
        (fromBlock, Z.min (fromBlock + maxBatchSize - 1) currentBlock)
          :: pollRanges fuel' (fromBlock + maxBatchSize) currentBlock
      else []
  end.

Definition query_of (range : Z * Z) : Event := EvGetLogs (fst range) (snd range).

(** The questions about blocks: the head of the chain and the logs of a
    range.  (The token list, read through the contract, is not one.) *)
Definition is_block_query (ev : Event) : bool :=
  match ev with
  | EvGetBlockNumber | EvGetLogs _ _ => true
  | _ => false
  end.

Definition is_head_read (ev : Event) : bool :=
  match ev with
  | EvGetBlockNumber => true
  | _ => false
  end.

(** Every event [m] adds to the history is of the class [P]. *)
Definition emits_only (P : Event -> bool) {A} (m : M A) : Prop :=
  forall w, exists evs,
    trace (snd (m w)) = trace w ++ evs /\ forallb P evs = true.

(** Every log query [m] adds to the history satisfies [Q]. *)
Definition queries_within (Q : Z -> Z -> Prop) {A} (m : M A) : Prop :=
  forall w fromBlock toBlock,
    EvGetLogs fromBlock toBlock ∈ trace (snd (m w)) ->
    EvGetLogs fromBlock toBlock ∈ trace w \/ Q fromBlock toBlock.

(** The number of times the head of the chain was asked for. *)
Fixpoint count_head_reads (history : list Event) : nat :=
  match history with
  | [] => 0
  | ev :: rest => ((if is_head_read ev then 1 else 0) + count_head_reads rest)%nat
  end.

(** [m] asks for the head at most [n] times. *)
Definition head_reads_at_most (n : nat) {A} (m : M A) : Prop :=
  forall w,
    (count_head_reads (trace (snd (m w))) <= count_head_reads (trace w) + n)%nat.

(** The steps of a submission: lookups and state updates in the store, the
    deposit itself, logged errors. *)
Definition is_submission_step (ev : Event) : bool :=
  match ev with
  | EvFindOne _ | EvDeposit _ _ _ _ _ _ | EvUpdateOne _ _ | EvConsoleError _ => true
  | _ => false
  end.

Definition is_update_step (ev : Event) : bool :=
  match ev with
  | EvUpdateOne _ _ | EvConsoleError _ => true
  | _ => false
  end.

(** An environment that never fails and whose chain grows: the head is
    [step] times the number of interactions so far. *)
Definition risingEnv (step : Z) : Env :=
  mkEnv (fun _ => Resolved []) (fun _ => None) (fun _ => Resolved None)
        (fun _ => Resolved None) (fun _ => Resolved true)
        (fun history => Resolved (step * Z.of_nat (length history)))
        (fun _ => Resolved []) (fun _ => 0).

(** The state is one of the four of the schema. *)
Definition known_state (d : TxDoc) : Prop :=
  state d = "pending" \/ state d = "in-progress"
  \/ state d = "completed" \/ state d = "failed".

(** The documents are in the states of the schema, and those 'in-progress'
    or 'failed' carry the nonce they were submitted under. *)
Definition tracked (docs : gmap string TxDoc) : Prop :=
  forall k d, docs !! k = Some d ->
              known_state d /\ (post_pending d -> nonce d <> None).

Definition well_tracked (w : World) : Prop := tracked (store w).

(** The document under [h], if there is one, has a nonce. *)
Definition nonce_at (h : string) (docs : gmap string TxDoc) : Prop :=
  forall d, docs !! h = Some d -> nonce d <> None.

(** From a well-formed store and an idle submission path, [m] ends the
    process only with exit code 1 and right after the nonce source has
    answered [null] during the run: the request and the message "nonce is
    null" are the last two events.  Otherwise it leaves the store well
    formed and the path idle, and only adds to the history. *)
Definition runs_safely (env : Env) {A} (m : M A) : Prop :=
  forall w,
    well_tracked w -> isProcessingDeposit w = false ->
    match m w with
    | (Exit c, w') =>
        c = 1
        /\ exists pre,
             getNonce env (trace w ++ pre ++ [EvGetNonce]) = Resolved None
             /\ trace w'
                = trace w ++ pre
                  ++ [EvGetNonce;
                      EvConsoleError "nonce is null, this shall not happen"]
    | (_, w') =>
        well_tracked w' /\ isProcessingDeposit w' = false /\ history_extended w w'
    end.

(** An environment whose provider tells the head and rejects every log
    query. *)
Definition logsFailEnv (head : Z) : Env :=
  mkEnv (fun _ => Resolved []) (fun _ => None) (fun _ => Resolved None)
        (fun _ => Resolved None) (fun _ => Resolved true)
        (fun _ => Resolved head) (fun _ => Rejected "rate limited")
        (fun _ => 0).

(** An environment that never fails, with the head at block 100, in which
    every log query returns the [TopUp] event of the transaction [0xabc] and
    nothing is ever found on L2; the nonce source answers as given. *)
Definition replayEnv (nextNonce : option Z) : Env :=
  mkEnv (fun _ => Resolved ["T"]) (fun _ => None) (fun _ => Resolved nextNonce)
        (fun _ => Resolved None) (fun _ => Resolved true)
        (fun _ => Resolved 100) (fun _ => Resolved [sampleEvent (2 * 10 ^ 18)])
        (fun _ => 0).

(** * Properties *)

(** ** createCommand *)

Section CreateCommand.

(** A value below 2^n has no bit in common with a value shifted left by n. *)
Lemma shiftl_add_lor (a b n : Z) :
  0 <= n -> 0 <= b < 2 ^ n -> Z.shiftl a n + b = Z.lor (Z.shiftl a n) b.
Proof.
  intros Hn Hb.
  assert (Hland : Z.land (Z.shiftl a n) b = 0).
  { apply Z.bits_inj'. intros i Hi.
    rewrite Z.land_spec, Z.bits_0.
    destruct (Z.lt_ge_cases i n) as [Hlt | Hge].
    - rewrite Z.shiftl_spec_low by assumption. reflexivity.
    - destruct (Z.eq_dec b 0) as [-> | Hb0].
      + rewrite Z.bits_0. apply andb_false_r.
      + rewrite (Z.bits_above_log2 b i); [apply andb_false_r | lia |].
        apply Z.lt_le_trans with n; [| assumption].
        apply Z.log2_lt_pow2; lia. }
  rewrite Z.add_nocarry_lxor by assumption.
  apply Z.lxor_lor. assumption.
Qed.

Lemma asUintN_small (v : Z) : 0 <= v < 2 ^ 64 -> asUintN 64 v = v.
Proof. intros H. unfold asUintN. apply Z.mod_small. assumption. Qed.

Lemma BigUint64Array_in_range (buf : list Z) :
  Forall (fun p => 0 <= p < 2 ^ 64) buf -> BigUint64Array buf = buf.
Proof.
  unfold BigUint64Array. induction 1 as [| p rest Hp _ IH]; simpl.
  - reflexivity.
  - rewrite asUintN_small by assumption. f_equal. exact IH.
Qed.

Lemma command_word_sum (nonce command len : Z) :
  0 <= nonce -> 0 <= command < 2 ^ 8 -> 0 <= len -> len + 1 < 2 ^ 8 ->
  Z.shiftl nonce 16 + Z.shiftl (len + 1) 8 + command = command_word nonce command len.
Proof.
  intros Hn Hc Hl0 Hl. unfold command_word.
  rewrite <- Z.lor_assoc.
  rewrite <- (shiftl_add_lor (len + 1) command 8) by lia.
  rewrite <- Z.add_assoc.
  apply shiftl_add_lor; [lia |].
  rewrite Z.shiftl_mul_pow2 by lia. lia.
Qed.

(** The words of the buffer, whatever the parameters: each is stored
    modulo 2^64. *)
Lemma createCommand_words (nonce command : Z) (params : list Z) :
  0 <= nonce < 2 ^ 48 ->
  0 <= command < 2 ^ 8 ->
  Z.of_nat (length params) + 1 < 2 ^ 8 ->
  createCommand nonce command params
  = command_word nonce command (Z.of_nat (length params)) :: map (asUintN 64) params.
Proof.
  intros Hn Hc Hl.
  assert (Hword : asUintN 64 (Z.shiftl nonce 16
                              + Z.shiftl (Z.of_nat (length params) + 1) 8 + command)
                  = command_word nonce command (Z.of_nat (length params))).
  { rewrite <- command_word_sum by lia.
    apply asUintN_small.
    rewrite !Z.shiftl_mul_pow2 by lia. lia. }
  unfold createCommand, BigUint64Array. simpl. rewrite Hword. reflexivity.
Qed.

(** C7: for a nonce below 2^48, an opcode below 2^8 and fewer than 255
    parameters, each a 64-bit word, the first word of the buffer built by
    [createCommand] is (nonce<<16) | ((len+1)<<8) | opcode and the remaining
    words are the parameters in order. *)
Theorem createCommand_layout (nonce command : Z) (params : list Z) :
  0 <= nonce < 2 ^ 48 ->
  0 <= command < 2 ^ 8 ->
  Z.of_nat (length params) + 1 < 2 ^ 8 ->
  Forall (fun p => 0 <= p < 2 ^ 64) params ->
  createCommand nonce command params
  = command_word nonce command (Z.of_nat (length params)) :: params.
Proof.
  intros Hn Hc Hl Hp.
  rewrite (createCommand_words nonce command params Hn Hc Hl).
  f_equal. apply BigUint64Array_in_range. exact Hp.
Qed.

Lemma createCommand_layout_witness :
  createCommand 0 1 [] = [257]
  /\ createCommand 5 7 [1; 2; 0; 2] = [328967; 1; 2; 0; 2].
Proof.
  split.
  - apply (createCommand_layout 0 1 [] ltac:(lia) ltac:(lia) ltac:(simpl; lia)).
    constructor.
  - apply (createCommand_layout 5 7 [1; 2; 0; 2]
             ltac:(lia) ltac:(lia) ltac:(simpl; lia)).
    repeat constructor; lia.
Defined.

(** Outside the 64-bit words the buffer wraps: a parameter of 2^64 is stored
    as the word 0. *)
Example createCommand_wraps_wide_parameter :
  createCommand 0 1 [2 ^ 64] = [513; 0].
Proof. reflexivity. Qed.

End CreateCommand.

(** ** Proof-instance extraction *)

Section Extraction.

Lemma digit_not_space (c : ascii) (d : Z) :
  digit_value c = Some d -> is_space c = false.
Proof.
  unfold digit_value, is_space. cbv zeta.
  set (n := Z.of_nat (nat_of_ascii c)).
  destruct ((48 <=? n) && (n <=? 57)) eqn:Hdigit; [| discriminate].
  intros _. apply andb_true_iff in Hdigit. destruct Hdigit as [H48 H57].
  apply Z.leb_le in H48, H57.
  rewrite (proj2 (Z.leb_gt n 13)) by lia.
  rewrite (proj2 (Z.eqb_neq n 32)) by lia.
  rewrite (proj2 (Z.eqb_neq n 160)) by lia.
  rewrite andb_false_r. reflexivity.
Qed.

Lemma strip_spaces_digits (acc : Z) (s : string) (v : Z) :
  parseBase10 acc s = Some v -> strip_spaces s = s.
Proof.
  revert acc. induction s as [| c rest IH]; intros acc; cbn [parseBase10 strip_spaces].
  - reflexivity.
  - destruct (digit_value c) as [d |] eqn:Hd; [| discriminate].
    intros Hrest. rewrite (digit_not_space c d Hd), (IH _ Hrest). reflexivity.
Qed.

Lemma BN_new10_digits (s : string) (v : Z) :
  parseBase10 0 s = Some v -> BN_new10 (Some s) = Ret v.
Proof.
  intros H. cbn [BN_new10]. rewrite (strip_spaces_digits 0 s v H).
  destruct s as [| c rest].
  - simpl in H. injection H as <-. reflexivity.
  - destruct (ascii_dec c "-") as [-> | Hc].
    + simpl in H. discriminate H.
    + assert (Hgen : BN_parse10 (String c rest)
                     = match parseBase10 0 (String c rest) with
                       | Some v => Ret v
                       | None => Throw "Invalid character"
                       end).
      { destruct c as [[] [] [] [] [] [] [] []]; try reflexivity.
        exfalso. apply Hc. reflexivity. }
      rewrite Hgen, H. reflexivity.
Qed.

Lemma string_of_list_ascii_snoc (l : list ascii) (c : ascii) :
  string_of_list_ascii (l ++ [c]) = (string_of_list_ascii l ++ String c "")%string.
Proof. induction l as [| a l IH]; simpl; [reflexivity | rewrite IH; reflexivity]. Qed.

Lemma nibble_0 (v : Z) : nibble v 0 = v mod 16.
Proof.
  unfold nibble. simpl. rewrite Z.shiftr_0_r.
  change 15 with (Z.ones 4). rewrite Z.land_ones by lia. reflexivity.
Qed.

Lemma nibble_S (v : Z) (i : nat) : nibble v (S i) = nibble (v / 16) i.
Proof.
  unfold nibble. f_equal.
  replace (4 * Z.of_nat (S i)) with (4 + 4 * Z.of_nat i) by lia.
  rewrite <- Z.shiftr_shiftr by lia.
  rewrite (Z.shiftr_div_pow2 v 4) by lia. reflexivity.
Qed.

(** The digits [BN_toString_hex] lists are those of the fixed-width
    rendering. *)
Lemma hex_fixed_nibbles (n : nat) (v : Z) :
  hex_fixed n v
  = string_of_list_ascii (map (fun i => hex_digit (nibble v i)) (rev (seq 0 n))).
Proof.
  revert v. induction n as [| n IH]; intros v.
  - reflexivity.
  - cbn [hex_fixed]. rewrite IH.
    change (seq 0 (S n)) with (0%nat :: seq 1 n).
    rewrite <- seq_shift. cbn [rev]. rewrite map_app. cbn [map].
    rewrite string_of_list_ascii_snoc, nibble_0.
    f_equal. f_equal. rewrite <- map_rev, map_map.
    apply map_ext. intros i. rewrite nibble_S. reflexivity.
Qed.

Lemma hex_length_256 (v : Z) :
  0 <= v < 2 ^ 256 -> (hex_length v + 64 - 1) / 64 * 64 = 64.
Proof.
  intros Hv. unfold hex_length.
  destruct (Z.eqb_spec v 0) as [-> | Hnz]; [reflexivity |].
  assert (Hlog : 0 <= Z.log2 v < 256).
  { split; [apply Z.log2_nonneg | apply Z.log2_lt_pow2; lia]. }
  assert (Hq : 0 <= Z.log2 v / 4 < 64).
  { split; [apply Z.div_pos; lia | apply Z.div_lt_upper_bound; lia]. }
  replace ((Z.log2 v / 4 + 1 + 64 - 1) / 64) with 1; [reflexivity |].
  apply Z.div_unique with (Z.log2 v / 4); lia.
Qed.

Lemma BN_toString_hex_256 (v : Z) :
  0 <= v < 2 ^ 256 -> BN_toString_hex v 64 = hex_fixed 64 v.
Proof.
  intros Hv. unfold BN_toString_hex.
  rewrite Z.abs_eq by lia.
  rewrite hex_length_256 by assumption.
  destruct (Z.ltb_spec v 0) as [Hneg | _]; [lia |].
  rewrite hex_fixed_nibbles. reflexivity.
Qed.

Lemma limbs256_range (a b c d : Z) :
  0 <= a < 2 ^ 64 -> 0 <= b < 2 ^ 64 -> 0 <= c < 2 ^ 64 -> 0 <= d < 2 ^ 64 ->
  0 <= limbs256 a b c d < 2 ^ 256.
Proof.
  intros Ha Hb Hc Hd. unfold limbs256.
  rewrite !Z.shiftl_mul_pow2 by lia. lia.
Qed.

(** On limbs below 2^64 the sum of the shifted limbs is their bitwise or,
    the form the specification writes. *)
Lemma limbs256_lor (a b c d : Z) :
  0 <= a -> 0 <= b < 2 ^ 64 -> 0 <= c < 2 ^ 64 -> 0 <= d < 2 ^ 64 ->
  limbs256 a b c d
  = Z.lor (Z.lor (Z.lor (Z.shiftl a 192) (Z.shiftl b 128)) (Z.shiftl c 64)) d.
Proof.
  intros Ha Hb Hc Hd. unfold limbs256.
  rewrite <- !Z.lor_assoc.
  rewrite <- (shiftl_add_lor c d 64) by lia.
  rewrite <- (shiftl_add_lor b (Z.shiftl c 64 + d) 128);
    [| lia | rewrite Z.shiftl_mul_pow2 by lia; lia].
  rewrite <- (shiftl_add_lor a (Z.shiftl b 128 + (Z.shiftl c 64 + d)) 192);
    [| lia | rewrite !Z.shiftl_mul_pow2 by lia; lia].
  lia.
Qed.

Lemma pack_limbs_ok (arr : list string) (vals : list Z) (i : nat) (a b c d : Z) :
  limb_strings arr vals ->
  vals !! i = Some a -> vals !! (i + 1)%nat = Some b ->
  vals !! (i + 2)%nat = Some c -> vals !! (i + 3)%nat = Some d ->
  pack_limbs arr i = Ret (hex256 (limbs256 a b c d)).
Proof.
  intros Harr Ha Hb Hc Hd. unfold pack_limbs.
  destruct (Forall2_lookup_r _ _ _ _ _ Harr Ha) as (sa & -> & Pa & Ra).
  destruct (Forall2_lookup_r _ _ _ _ _ Harr Hb) as (sb & -> & Pb & Rb).
  destruct (Forall2_lookup_r _ _ _ _ _ Harr Hc) as (sc & -> & Pc & Rc).
  destruct (Forall2_lookup_r _ _ _ _ _ Harr Hd) as (sd & -> & Pd & Rd).
  rewrite (BN_new10_digits _ _ Pa), (BN_new10_digits _ _ Pb),
          (BN_new10_digits _ _ Pc), (BN_new10_digits _ _ Pd).
  cbn [obind]. unfold shln.
  change (Z.shiftl a 192 + Z.shiftl b 128 + Z.shiftl c 64 + d) with (limbs256 a b c d).
  rewrite BN_toString_hex_256 by (apply limbs256_range; assumption).
  reflexivity.
Qed.

Lemma hex_digit_value_digit (v : Z) :
  0 <= v < 16 -> hex_digit_value (hex_digit v) = Some v.
Proof.
  intros Hv.
  assert (Hcases : v = 0 \/ v = 1 \/ v = 2 \/ v = 3 \/ v = 4 \/ v = 5 \/ v = 6
                   \/ v = 7 \/ v = 8 \/ v = 9 \/ v = 10 \/ v = 11 \/ v = 12
                   \/ v = 13 \/ v = 14 \/ v = 15) by lia.
  repeat (destruct Hcases as [-> | Hcases]; [reflexivity |]).
  subst v. reflexivity.
Qed.

Lemma hex_value_from_app (acc : Z) (s1 s2 : string) :
  hex_value_from acc (s1 ++ s2)%string
  = match hex_value_from acc s1 with
    | Some a => hex_value_from a s2
    | None => None
    end.
Proof.
  revert acc. induction s1 as [| c s1 IH]; intros acc; simpl.
  - reflexivity.
  - destruct (hex_digit_value c); [apply IH | reflexivity].
Qed.

(** The fixed-width rendering reads back as the value it prints. *)
Lemma hex_fixed_value (n : nat) (v : Z) :
  0 <= v < 16 ^ Z.of_nat n -> hex_value_from 0 (hex_fixed n v) = Some v.
Proof.
  revert v. induction n as [| n IH]; intros v Hv.
  - simpl in *. f_equal. lia.
  - cbn [hex_fixed]. rewrite hex_value_from_app.
    assert (Hpow : 16 ^ Z.of_nat (S n) = 16 * 16 ^ Z.of_nat n).
    { rewrite Nat2Z.inj_succ, Z.pow_succ_r by lia. reflexivity. }
    assert (Hq : 0 <= v / 16 < 16 ^ Z.of_nat n).
    { split; [apply Z.div_pos; lia | apply Z.div_lt_upper_bound; lia]. }
    assert (Hr : 0 <= v mod 16 < 16) by (apply Z.mod_pos_bound; lia).
    rewrite (IH _ Hq). cbn [hex_value_from].
    rewrite hex_digit_value_digit by exact Hr.
    f_equal. pose proof (Z.div_mod v 16 ltac:(lia)). lia.
Qed.

Lemma string_length_snoc (s : string) (c : ascii) :
  String.length (s ++ String c "")%string = S (String.length s).
Proof. induction s as [| a s IH]; simpl; [reflexivity | rewrite IH; reflexivity]. Qed.

Lemma hex_fixed_length (n : nat) (v : Z) : String.length (hex_fixed n v) = n.
Proof.
  revert v. induction n as [| n IH]; intros v; cbn [hex_fixed].
  - reflexivity.
  - rewrite string_length_snoc, IH. reflexivity.
Qed.

Lemma throws_Throw {A} (e : string) : throws (@Throw A e).
Proof. exists e. reflexivity. Qed.

Lemma throws_Ret {A} (a : A) : ~ throws (Ret a).
Proof. intros [e He]. discriminate He. Qed.

(** C5: on an instance array of decimal numerals of values below 2^64,
    [extractMerkleRoot] returns 0x followed by the 64 hexadecimal digits of
    (inst[0]<<192) + (inst[1]<<128) + (inst[2]<<64) + inst[3] whenever the
    array has at least 4 elements, and [extractMerkleRoot],
    [extractNewMerkleRoot], [extractShaHash] throw exactly when the array
    has fewer than 4, 8, 12 elements. *)
Theorem extract_roots (attributes : ProofArgs) (vals : list Z) :
  limb_strings (instArr attributes) vals ->
  ((4 <= length (instArr attributes))%nat ->
   exists a b c d rest,
     vals = a :: b :: c :: d :: rest
     /\ extractMerkleRoot attributes = Ret (hex256 (limbs256 a b c d)))
  /\ (throws (extractMerkleRoot attributes) <-> (length (instArr attributes) < 4)%nat)
  /\ (throws (extractNewMerkleRoot attributes) <-> (length (instArr attributes) < 8)%nat)
  /\ (throws (extractShaHash attributes) <-> (length (instArr attributes) < 12)%nat).
Proof.
  intros Harr. pose proof (Forall2_length _ _ _ Harr) as Hlen.
  unfold extractMerkleRoot, extractNewMerkleRoot, extractShaHash.
  repeat split.
  - intros H4.
    destruct vals as [| a [| b [| c [| d rest]]]]; simpl in Hlen; try lia.
    exists a, b, c, d, rest. split; [reflexivity |].
    destruct (Z.ltb_spec (Z.of_nat (length (instArr attributes))) 4); [lia |].
    apply (pack_limbs_ok _ _ 0 a b c d Harr); reflexivity.
  - destruct (Z.ltb_spec (Z.of_nat (length (instArr attributes))) 4); [lia |].
    intros Hthrow. exfalso.
    destruct vals as [| a [| b [| c [| d rest]]]]; simpl in Hlen; try lia.
    rewrite (pack_limbs_ok _ _ 0 a b c d Harr) in Hthrow by reflexivity.
    exact (throws_Ret _ Hthrow).
  - intros Hlt.
    destruct (Z.ltb_spec (Z.of_nat (length (instArr attributes))) 4); [| lia].
    apply throws_Throw.
  - destruct (Z.ltb_spec (Z.of_nat (length (instArr attributes))) 8); [lia |].
    intros Hthrow. exfalso.
    destruct vals as [| v0 [| v1 [| v2 [| v3 [| a [| b [| c [| d rest]]]]]]]];
      simpl in Hlen; try lia.
    rewrite (pack_limbs_ok _ _ 4 a b c d Harr) in Hthrow by reflexivity.
    exact (throws_Ret _ Hthrow).
  - intros Hlt.
    destruct (Z.ltb_spec (Z.of_nat (length (instArr attributes))) 8); [| lia].
    apply throws_Throw.
  - destruct (Z.ltb_spec (Z.of_nat (length (instArr attributes))) 12); [lia |].
    intros Hthrow. exfalso.
    destruct vals as [| v0 [| v1 [| v2 [| v3 [| v4 [| v5 [| v6 [| v7
                     [| a [| b [| c [| d rest]]]]]]]]]]]];
      simpl in Hlen; try lia.
    rewrite (pack_limbs_ok _ _ 8 a b c d Harr) in Hthrow by reflexivity.
    exact (throws_Ret _ Hthrow).
  - intros Hlt.
    destruct (Z.ltb_spec (Z.of_nat (length (instArr attributes))) 12); [| lia].
    apply throws_Throw.
Qed.

End Extraction.

Lemma extract_roots_witness :
  extractMerkleRoot demo_attributes
  = Ret "0x0ca263fb9613fac4fbc69b10707e0535a2f7d00b1216093a07bb155e840098fd"
  /\ ~ throws (extractShaHash demo_attributes).
Proof.
  assert (Hlimbs : limb_strings (instArr demo_attributes) demo_limbs).
  { repeat (constructor; [split; [reflexivity | lia] |]). constructor. }
  pose proof (extract_roots demo_attributes demo_limbs Hlimbs)
    as (Hroot & _ & _ & Hsha).
  split.
  - destruct (Hroot ltac:(simpl; lia)) as (a & b & c & d & rest & Hvals & Hrun).
    injection Hvals as <- <- <- <- _. exact Hrun.
  - intros Hthrow. apply Hsha in Hthrow. simpl in Hthrow. lia.
Defined.

(** The hash of the demonstration is the SHA-256 of the empty input. *)
Example demo_sha_hash :
  extractShaHash demo_attributes
  = Ret "0xe3b0c44298fc1c149afbf4c8996fb92427ae41e4649b934ca495991b7852b855".
Proof. vm_compute. reflexivity. Qed.

Example short_instArr_throws :
  extractMerkleRoot (mkProofArgs [] [] [] [] ["1"; "2"; "3"])
  = Throw "instArr must have at least 4 elements to calculate merkle_root".
Proof. reflexivity. Qed.

(** ** The historical sweep *)

Section HistoricalSweep.

Variable env : Env.

Lemma historicalLoop_done (fuel : nat) (fromBlock latestBlock : Z) (w : World) :
  latestBlock <= fromBlock ->
  historicalLoop env fuel fromBlock latestBlock w = (Ret tt, w).
Proof.
  intros Hge. destruct fuel as [| fuel]; [reflexivity |].
  cbn [historicalLoop].
  destruct (Z.ltb_spec fromBlock latestBlock); [lia | reflexivity].
Qed.

Lemma historicalIterations_step (fromBlock latestBlock : Z) :
  fromBlock < latestBlock ->
  historicalIterations fromBlock latestBlock
  = S (historicalIterations (fromBlock + batchSize) latestBlock).
Proof.
  intros Hlt. unfold historicalIterations, batchSize.
  replace (latestBlock - fromBlock + 25000 - 1)
    with ((latestBlock - (fromBlock + 25000) + 25000 - 1) + 1 * 25000) by lia.
  rewrite Z.div_add by lia.
  destruct (Z.le_gt_cases 0 (latestBlock - (fromBlock + 25000) + 25000 - 1)) as [Hn | Hn].
  - rewrite Z2Nat.inj_add by (try apply Z.div_pos; lia).
    rewrite Nat.add_comm. reflexivity.
  - lia.
Qed.

(** The fuel [getHistoricalTopUpEvents] gives the loop is enough: more fuel
    changes nothing, so the loop has reached [fromBlock >= latestBlock]. *)
Lemma historicalLoop_fuel (fuel : nat) (fromBlock latestBlock : Z) (w : World) :
  (historicalIterations fromBlock latestBlock <= fuel)%nat ->
  historicalLoop env fuel fromBlock latestBlock w
  = historicalLoop env (historicalIterations fromBlock latestBlock)
      fromBlock latestBlock w.
Proof.
  revert fromBlock w. induction fuel as [| fuel IH]; intros fromBlock w Hfuel.
  - replace (historicalIterations fromBlock latestBlock) with 0%nat by lia.
    reflexivity.
  - destruct (Z.lt_ge_cases fromBlock latestBlock) as [Hlt | Hge].
    + rewrite (historicalIterations_step _ _ Hlt) in *.
      cbn [historicalLoop].
      destruct (Z.ltb_spec fromBlock latestBlock); [| lia].
      unfold bind.
      destruct (tryCatch _ _ w) as [[[] | e | c] w']; try reflexivity.
      apply IH. lia.
    + rewrite !historicalLoop_done by assumption. reflexivity.
Qed.

(** C8, the defect: when the sweep starts at the head (a configured start
    block equal to the head), the loop body never runs, whatever the fuel:
    no log query is issued and the head block is not scanned. *)
Theorem historical_sweep_at_head (head : Z) (w : World) :
  getBlockNumber env (trace w ++ [EvGetBlockNumber]) = Resolved head ->
  (forall fuel, historicalLoop env fuel head head (log_event EvGetBlockNumber w)
                = (Ret tt, log_event EvGetBlockNumber w))
  /\ getHistoricalTopUpEvents env (Some head) w = (Ret tt, log_event EvGetBlockNumber w).
Proof.
  intros Hhead. split.
  - intros fuel. apply historicalLoop_done. lia.
  - unfold getHistoricalTopUpEvents, tryCatch, bind, remote. cbn.
    rewrite Hhead.
    destruct (Z.gtb_spec head head); [lia |].
    rewrite historicalLoop_done by lia. reflexivity.
Qed.

End HistoricalSweep.

Lemma historical_sweep_at_head_witness :
  getHistoricalTopUpEvents (steadyEnv [] None None true 100) (Some 100) emptyWorld
  = (Ret tt, mkWorld ∅ false [EvGetBlockNumber]).
Proof.
  apply (proj2 (historical_sweep_at_head (steadyEnv [] None None true 100) 100
                  emptyWorld eq_refl)).
Defined.

(** With no configured start block and the head at 200000, the default
    window starts at 0: eight batches are queried, the last one ending at
    199999, and block 200000 is in none of them. *)
Example historical_sweep_default_window :
  filter is_getLogs
    (trace (snd (getHistoricalTopUpEvents (steadyEnv [] None None true 200000)
                   None emptyWorld)))
  = [EvGetLogs 0 24999; EvGetLogs 25000 49999; EvGetLogs 50000 74999;
     EvGetLogs 75000 99999; EvGetLogs 100000 124999; EvGetLogs 125000 149999;
     EvGetLogs 150000 174999; EvGetLogs 175000 199999].
Proof. vm_compute. reflexivity. Qed.

(** The head is reached only when its distance from the start is not a
    multiple of the batch size. *)
Example historical_sweep_reaches_head :
  filter is_getLogs
    (trace (snd (getHistoricalTopUpEvents (steadyEnv [] None None true 30000)
                   (Some 0) emptyWorld)))
  = [EvGetLogs 0 24999; EvGetLogs 25000 30000].
Proof. vm_compute. reflexivity. Qed.

(** ** The deposit state machine *)

Ltac unfold_service :=
  unfold processTopUpEvent, get_nonce, performDeposit, updateTxState,
    TxHash_updateOne_notCompleted, TxHash_findOne, findTxByHash, save, saveNew,
    admin_deposit, admin_getNonce, admin_checkDeposit, nonce_is_null, remote,
    clock, consoleError, emit, getProcessing, setProcessing, tryCatch,
    tryFinally, bind, ret, throw, processExit, log_event, with_store.

(** Histories are compared with their events listed after the initial one. *)
Ltac flatten_history := rewrite <- ?app_assoc; cbn [app].
Ltac flatten_history_in H := rewrite <- ?app_assoc in H; cbn [app] in H.

Section UpdateTxState.

Variable env : Env.

Lemma updateTxState_returns (h s : string) (w : World) :
  exists w', updateTxState env h s w = (Ret tt, w')
             /\ isProcessingDeposit w' = isProcessingDeposit w.
Proof.
  unfold_service. cbn.
  destruct (storeFault env _) as [err |]; [eexists; split; reflexivity |].
  destruct (store w !! h) as [d |]; [| eexists; split; reflexivity].
  destruct (String.eqb (state d) "completed"); eexists; split; reflexivity.
Qed.

Lemma updateTxState_fault (h s err : string) (w : World) :
  storeFault env (trace w ++ [EvUpdateOne h s]) = Some err ->
  updateTxState env h s w
  = (Ret tt,
     mkWorld (store w) (isProcessingDeposit w)
       (trace w ++ [EvUpdateOne h s;
                    EvConsoleError ("Failed to update tx state for txHash "
                                    ++ h ++ ": " ++ err)])).
Proof.
  intros Hfault. unfold_service. cbn. rewrite Hfault. cbn.
  flatten_history. reflexivity.
Qed.

Lemma updateTxState_applies (h s : string) (d : TxDoc) (w : World) :
  storeFault env (trace w ++ [EvUpdateOne h s]) = None ->
  store w !! h = Some d ->
  state d <> "completed" ->
  updateTxState env h s w
  = (Ret tt,
     mkWorld (<[h := set_state s d]> (store w)) (isProcessingDeposit w)
       (trace w ++ [EvUpdateOne h s])).
Proof.
  intros Hok Hd Hstate. unfold_service. cbn. rewrite Hok, Hd.
  apply String.eqb_neq in Hstate. rewrite Hstate. reflexivity.
Qed.

Lemma updateTxState_completed (h s : string) (d : TxDoc) (w : World) :
  store w !! h = Some d ->
  state d = "completed" ->
  store (snd (updateTxState env h s w)) = store w.
Proof.
  intros Hd Hstate. unfold_service. cbn.
  destruct (storeFault env _) as [err |]; [reflexivity |].
  rewrite Hd, Hstate. reflexivity.
Qed.

(** C9: [updateTxState] never throws and never ends the process; when the
    store update is rejected the error is logged, nothing is written and the
    call returns normally.  In particular, when the L2 deposit succeeded and
    the write of 'completed' is rejected, [performDeposit] still returns
    [true] while the stored document is what it was. *)
Theorem updateTxState_swallows_store_errors :
  (forall h s w,
     exists w', updateTxState env h s w = (Ret tt, w')
       /\ forall err,
            storeFault env (trace w ++ [EvUpdateOne h s]) = Some err ->
            store w' = store w
            /\ trace w' = trace w ++ [EvUpdateOne h s;
                                      EvConsoleError
                                        ("Failed to update tx state for txHash "
                                         ++ h ++ ": " ++ err)])
  /\ (forall h n p1 p2 tokenIndex amt w err,
        isProcessingDeposit w = false ->
        storeFault env (trace w ++ [EvFindOne h]) = None ->
        is_completed (store w !! h) = false ->
        deposit env (trace w ++ [EvFindOne h;
                                 EvDeposit n p1 p2 tokenIndex amt (store w !! h)])
          = Resolved true ->
        storeFault env (trace w ++ [EvFindOne h;
                                    EvDeposit n p1 p2 tokenIndex amt (store w !! h);
                                    EvUpdateOne h "completed"]) = Some err ->
        performDeposit env h n p1 p2 tokenIndex amt w
        = (Ret true,
           mkWorld (store w) false
             (trace w ++ [EvFindOne h;
                          EvDeposit n p1 p2 tokenIndex amt (store w !! h);
                          EvUpdateOne h "completed";
                          EvConsoleError ("Failed to update tx state for txHash "
                                          ++ h ++ ": " ++ err)]))).
Proof.
  split.
  - intros h s w.
    destruct (updateTxState_returns h s w) as (w' & Hrun & _).
    exists w'. split; [exact Hrun |].
    intros err Hfault. rewrite (updateTxState_fault _ _ _ _ Hfault) in Hrun.
    injection Hrun as <-. split; reflexivity.
  - intros h n p1 p2 tokenIndex amt [st fl tr] err Hfl Hfind Hnot Hdep Hfault.
    cbn in *. subst fl.
    unfold_service. cbn. rewrite Hfind, Hnot. cbn.
    flatten_history. rewrite Hdep. cbn.
    flatten_history. rewrite Hfault. cbn.
    flatten_history. reflexivity.
Qed.

End UpdateTxState.

Lemma updateTxState_swallows_store_errors_witness :
  performDeposit (updateFailsEnv ["T"] (Some 7) None true) "0xabc" 5 1 2 0 2
    (sampleWorld "in-progress" (Some 5))
  = (Ret true,
     mkWorld {[ "0xabc" := sampleDoc "in-progress" (Some 5) ]} false
       [EvFindOne "0xabc";
        EvDeposit 5 1 2 0 2 (Some (sampleDoc "in-progress" (Some 5)));
        EvUpdateOne "0xabc" "completed";
        EvConsoleError
          "Failed to update tx state for txHash 0xabc: store unavailable"]).
Proof.
  apply (proj2 (updateTxState_swallows_store_errors
                  (updateFailsEnv ["T"] (Some 7) None true))
           "0xabc" 5 1 2 0 2 (sampleWorld "in-progress" (Some 5))
           "store unavailable");
    reflexivity.
Defined.

Section PerformDeposit.

Variable env : Env.

Lemma performDeposit_reentrant (h : string) (n p1 p2 tokenIndex amt : Z) (w : World) :
  isProcessingDeposit w = true ->
  performDeposit env h n p1 p2 tokenIndex amt w
  = (Exit 1,
     log_event (EvConsoleError
                  ("Fatal: Detected reentrant call in performDeposit for tx " ++ h)) w).
Proof.
  destruct w as [st fl tr]. cbn. intros ->. reflexivity.
Qed.

Lemma performDeposit_completed_run
    (h : string) (n p1 p2 tokenIndex amt : Z) (d : TxDoc) (w : World) :
  store w !! h = Some d ->
  state d = "completed" ->
  storeFault env (trace w ++ [EvFindOne h]) = None ->
  isProcessingDeposit w = false ->
  performDeposit env h n p1 p2 tokenIndex amt w
  = (Exit 1,
     mkWorld (store w) true
       (trace w ++ [EvFindOne h;
                    EvConsoleError "tx already completed, this shall not happen"])).
Proof.
  intros Hd Hstate Hfind. destruct w as [st fl tr]. cbn in *. intros ->.
  unfold_service. cbn. rewrite Hfind, Hd. cbn. rewrite Hstate. cbn.
  flatten_history. reflexivity.
Qed.

(** When the lookup at the start is rejected, the handler looks the
    document up again and returns [true] on a completed one. *)
Lemma performDeposit_completed_after_fault
    (h : string) (n p1 p2 tokenIndex amt : Z) (d : TxDoc) (w : World) (e : string) :
  store w !! h = Some d ->
  state d = "completed" ->
  isProcessingDeposit w = false ->
  storeFault env (trace w ++ [EvFindOne h]) = Some e ->
  storeFault env (trace w ++ [EvFindOne h;
                              EvConsoleError ("Error during deposit: " ++ e);
                              EvFindOne h]) = None ->
  performDeposit env h n p1 p2 tokenIndex amt w
  = (Ret true,
     mkWorld (store w) false
       (trace w ++ [EvFindOne h;
                    EvConsoleError ("Error during deposit: " ++ e);
                    EvFindOne h])).
Proof.
  intros Hd Hstate Hidle Hfirst Hsecond. destruct w as [st fl tr]. cbn in *.
  subst fl. unfold_service. cbn. rewrite Hfirst. cbn.
  flatten_history. rewrite Hsecond, Hd. cbn. rewrite Hstate. cbn.
  reflexivity.
Qed.

(** C10 (amended): when the tracked document is already 'completed' as
    [performDeposit] begins and the lookup at its start answers, the process
    ends with exit code 1; nothing is submitted to L2 and the store is
    untouched.  When that lookup is rejected, the error handler looks the
    document up again and, finding it 'completed', returns [true], again
    with nothing submitted and the store untouched. *)
Theorem performDeposit_completed_exits
    (h : string) (n p1 p2 tokenIndex amt : Z) (d : TxDoc) (w : World) :
  store w !! h = Some d ->
  state d = "completed" ->
  (storeFault env (trace w ++ [EvFindOne h]) = None ->
   fst (performDeposit env h n p1 p2 tokenIndex amt w) = Exit 1
   /\ store (snd (performDeposit env h n p1 p2 tokenIndex amt w)) = store w
   /\ (isProcessingDeposit w = false ->
       snd (performDeposit env h n p1 p2 tokenIndex amt w)
       = mkWorld (store w) true
           (trace w ++ [EvFindOne h;
                        EvConsoleError "tx already completed, this shall not happen"])))
  /\ (forall e,
        isProcessingDeposit w = false ->
        storeFault env (trace w ++ [EvFindOne h]) = Some e ->
        storeFault env (trace w ++ [EvFindOne h;
                                    EvConsoleError ("Error during deposit: " ++ e);
                                    EvFindOne h]) = None ->
        performDeposit env h n p1 p2 tokenIndex amt w
        = (Ret true,
           mkWorld (store w) false
             (trace w ++ [EvFindOne h;
                          EvConsoleError ("Error during deposit: " ++ e);
                          EvFindOne h]))).
Proof.
  intros Hd Hstate. split.
  - intros Hfind. destruct (isProcessingDeposit w) eqn:Hbusy.
    + rewrite performDeposit_reentrant by assumption.
      repeat split. intros Hno. discriminate Hno.
    + rewrite (performDeposit_completed_run h n p1 p2 tokenIndex amt d w)
        by assumption.
      repeat split.
  - intros e Hidle Hfirst Hsecond.
    exact (performDeposit_completed_after_fault h n p1 p2 tokenIndex amt d w e
             Hd Hstate Hidle Hfirst Hsecond).
Qed.

End PerformDeposit.

Lemma performDeposit_completed_exits_witness :
  (fst (performDeposit (steadyEnv ["T"] (Some 7) None true 0) "0xabc" 5 1 2 0 2
          (sampleWorld "completed" (Some 5))) = Exit 1
   /\ trace (snd (performDeposit (steadyEnv ["T"] (Some 7) None true 0)
                    "0xabc" 5 1 2 0 2 (sampleWorld "completed" (Some 5))))
      = [EvFindOne "0xabc";
         EvConsoleError "tx already completed, this shall not happen"])
  /\ performDeposit (lookupFailsOnceEnv ["T"] (Some 7) None true) "0xabc" 5 1 2 0 2
       (sampleWorld "completed" (Some 5))
     = (Ret true,
        mkWorld {[ "0xabc" := sampleDoc "completed" (Some 5) ]} false
          [EvFindOne "0xabc";
           EvConsoleError "Error during deposit: store unavailable";
           EvFindOne "0xabc"]).
Proof.
  split.
  - pose proof (proj1 (performDeposit_completed_exits
                         (steadyEnv ["T"] (Some 7) None true 0)
                         "0xabc" 5 1 2 0 2 (sampleDoc "completed" (Some 5))
                         (sampleWorld "completed" (Some 5)) eq_refl eq_refl)
                  eq_refl)
      as (Hexit & _ & Hworld).
    split; [exact Hexit |].
    rewrite (Hworld eq_refl). reflexivity.
  - exact (proj2 (performDeposit_completed_exits
                    (lookupFailsOnceEnv ["T"] (Some 7) None true)
                    "0xabc" 5 1 2 0 2 (sampleDoc "completed" (Some 5))
                    (sampleWorld "completed" (Some 5)) eq_refl eq_refl)
             "store unavailable" eq_refl eq_refl eq_refl).
Defined.

(** C10 as stated fails: with the document stored as 'completed' and the
    first lookup of the store rejected, [performDeposit] does not end the
    process; it returns [true]. *)
Lemma performDeposit_completed_returns :
  store (sampleWorld "completed" (Some 5)) !! "0xabc"
  = Some (sampleDoc "completed" (Some 5))
  /\ state (sampleDoc "completed" (Some 5)) = "completed"
  /\ fst (performDeposit (lookupFailsOnceEnv ["T"] (Some 7) None true)
            "0xabc" 5 1 2 0 2 (sampleWorld "completed" (Some 5)))
     = Ret true
  /\ ~ (exists c,
          fst (performDeposit (lookupFailsOnceEnv ["T"] (Some 7) None true)
                 "0xabc" 5 1 2 0 2 (sampleWorld "completed" (Some 5)))
          = Exit c).
Proof.
  split; [reflexivity |]. split; [reflexivity |]. split; [reflexivity |].
  intros [c Hc]. vm_compute in Hc. discriminate Hc.
Qed.

(** Case analysis on the innermost undetermined answer, repeated. *)
Ltac case_split :=
  repeat (match goal with
          | |- context [match ?x with _ => _ end] =>
              lazymatch x with
              | context [match _ with _ => _ end] => fail
              | _ => destruct x eqn:?
              end
          end; cbn).

Lemma post_pending_dispatch (d : TxDoc) :
  post_pending d ->
  String.eqb (state d) "completed" = false
  /\ String.eqb (state d) "pending" = false
  /\ (String.eqb (state d) "in-progress" || String.eqb (state d) "failed") = true.
Proof. intros [Hs | Hs]; rewrite Hs; repeat split. Qed.

Lemma get_nonce_set (d : TxDoc) (n : Z) :
  nonce d = Some n -> get_nonce d = ret (Some (asUintN 64 n)).
Proof. intros Hn. unfold get_nonce. rewrite Hn. reflexivity. Qed.

Section ProcessTopUpEvent.

Variable env : Env.
Variable event : EventLog.
Variable args : TopUpArgs.
Variable tokens : list string.
Variable tokenindex : Z.
Variable w : World.

Hypothesis Hdecoded : decoded event = Some args.
Hypothesis Htokens : allTokens env (trace w ++ [EvAllTokens]) = Resolved tokens.
Hypothesis Hindex : getTokenIndex (arg_l1token args) tokens = Some tokenindex.
Hypothesis Hfind :
  storeFault env (trace w ++ [EvAllTokens; EvFindOne (transactionHash event)]) = None.

Local Abbreviation h := (transactionHash event).
Local Abbreviation p1 := (arg_pid_1 args).
Local Abbreviation p2 := (arg_pid_2 args).
Local Abbreviation amt := (amountInEtherOf (arg_amount args)).
Local Abbreviation looked := (trace w ++ [EvAllTokens; EvFindOne (transactionHash event)]).

(** The steps every run shares: decode, token lookup, document lookup. *)
Ltac enter :=
  unfold_service; cbn;
  rewrite Hdecoded; cbn;
  rewrite Htokens; cbn;
  rewrite Hindex; cbn;
  flatten_history; rewrite Hfind; cbn.

Section Untracked.

Hypothesis Huntracked : store w !! h = None.

Local Abbreviation dust :=
  (mkTxDoc h "completed" (now env looked) (arg_l1token args) (arg_address args)
     None p1 p2 amt 0 None).
Local Abbreviation fresh :=
  (mkTxDoc h "pending" (now env looked) (arg_l1token args) (arg_address args)
     None p1 p2 amt 0 None).

Lemma dust_recorded_completed :
  amt < 1 ->
  storeFault env (looked ++ [EvInsert dust]) = None ->
  processTopUpEvent env event w
  = (Ret tt,
     mkWorld (<[h := dust]> (store w)) (isProcessingDeposit w)
       (looked ++ [EvInsert dust])).
Proof.
  intros Hdust Hins. enter. rewrite Huntracked.
  destruct (Z.ltb_spec amt 1) as [_ | Hge]; [| lia].
  cbn. flatten_history. flatten_history_in Hins. rewrite Hins, Huntracked.
  reflexivity.
Qed.

Lemma dust_insert_rejected (err : string) :
  amt < 1 ->
  storeFault env (looked ++ [EvInsert dust]) = Some err ->
  processTopUpEvent env event w
  = (Throw err,
     mkWorld (store w) (isProcessingDeposit w) (looked ++ [EvInsert dust])).
Proof.
  intros Hdust Hins. enter. rewrite Huntracked.
  destruct (Z.ltb_spec amt 1) as [_ | Hge]; [| lia].
  cbn. flatten_history. flatten_history_in Hins. rewrite Hins.
  reflexivity.
Qed.

Lemma whole_amount_credited (n : Z) :
  1 <= amt ->
  (forall history, storeFault env history = None) ->
  isProcessingDeposit w = false ->
  getNonce env (looked ++ [EvInsert fresh; EvGetNonce]) = Resolved (Some n) ->
  let submitted := set_state "in-progress" (set_nonce n fresh) in
  let before := looked ++ [EvInsert fresh; EvGetNonce; EvSave (set_nonce n fresh);
                           EvSave submitted; EvFindOne h] in
  let call := EvDeposit (asUintN 64 n) p1 p2 tokenindex amt (Some submitted) in
  deposit env (before ++ [call]) = Resolved true ->
  processTopUpEvent env event w
  = (Ret tt,
     mkWorld (<[h := set_state "completed" submitted]> (store w)) false
       (before ++ [call; EvUpdateOne h "completed"])).
Proof.
  intros Hamt Hstore Hidle Hnonce submitted before call Hdep.
  subst submitted before call. flatten_history_in Hnonce. flatten_history_in Hdep.
  enter. rewrite Huntracked.
  destruct (Z.ltb_spec amt 1) as [Hlt | _]; [lia |].
  cbn. rewrite !Hstore, Huntracked. cbn.
  flatten_history. rewrite Hnonce. cbn.
  rewrite !Hstore, !lookup_insert_eq. cbn.
  rewrite !Hstore, !lookup_insert_eq. cbn.
  rewrite Hidle. cbn.
  rewrite !Hstore, !lookup_insert_eq. cbn.
  flatten_history. rewrite !lookup_insert_eq, Hdep. cbn.
  rewrite !Hstore, !lookup_insert_eq. cbn.
  rewrite !insert_insert_eq. flatten_history. reflexivity.
Qed.

(** C4: for an event whose token is listed and whose transaction has no
    document yet, the amount is the wei amount divided by 10^18, truncated.
    Below 1 the document is inserted as 'completed' and the run ends there,
    with no call to L2 (when the insert is rejected the run throws, again
    with no call to L2).  From 1 on, with a store that answers, an idle
    submission path, a nonce and an accepted deposit, the deposit is submitted
    with that amount and the document ends 'completed'.  So 10^18 wei is the
    amount 1, and 10^18 - 1 wei the amount 0. *)
Theorem untracked_topup_amount :
  (amountInEtherOf (10 ^ 18) = 1 /\ amountInEtherOf (10 ^ 18 - 1) = 0)
  /\ (0 <= arg_amount args -> amt = arg_amount args / 10 ^ 18)
  /\ (amt < 1 ->
      (storeFault env (looked ++ [EvInsert dust]) = None ->
       processTopUpEvent env event w
       = (Ret tt,
          mkWorld (<[h := dust]> (store w)) (isProcessingDeposit w)
            (looked ++ [EvInsert dust])))
      /\ (forall err,
            storeFault env (looked ++ [EvInsert dust]) = Some err ->
            processTopUpEvent env event w
            = (Throw err,
               mkWorld (store w) (isProcessingDeposit w)
                 (looked ++ [EvInsert dust]))))
  /\ (1 <= amt ->
      forall n,
        (forall history, storeFault env history = None) ->
        isProcessingDeposit w = false ->
        getNonce env (looked ++ [EvInsert fresh; EvGetNonce]) = Resolved (Some n) ->
        let submitted := set_state "in-progress" (set_nonce n fresh) in
        let before := looked ++ [EvInsert fresh; EvGetNonce;
                                 EvSave (set_nonce n fresh);
                                 EvSave submitted; EvFindOne h] in
        let call := EvDeposit (asUintN 64 n) p1 p2 tokenindex amt (Some submitted) in
        deposit env (before ++ [call]) = Resolved true ->
        processTopUpEvent env event w
        = (Ret tt,
           mkWorld (<[h := set_state "completed" submitted]> (store w)) false
             (before ++ [call; EvUpdateOne h "completed"]))).
Proof.
  split; [split; reflexivity |].
  split; [intros Hpos; unfold amountInEtherOf, WEI_PER_ETHER;
          apply Z.quot_div_nonneg; lia |].
  split.
  - intros Hdust. split.
    + apply dust_recorded_completed. exact Hdust.
    + intros err. apply dust_insert_rejected. exact Hdust.
  - intros Hamt n. apply whole_amount_credited. exact Hamt.
Qed.

End Untracked.

Section Tracked.

Variable d : TxDoc.
Variable n : Z.

Hypothesis Htracked : store w !! h = Some d.
Hypothesis Hpost : post_pending d.
Hypothesis Hnonce : nonce d = Some n.

Local Abbreviation check := (EvCheckDeposit (asUintN 64 n) p1 p2 tokenindex amt).
Local Abbreviation checked := (trace w ++ [EvAllTokens; EvFindOne h; check]).

(** Up to the verification call. *)
Ltac enter_check :=
  destruct (post_pending_dispatch d Hpost) as (Hc & Hp & Hpp);
  enter; rewrite Htracked; cbn; rewrite Hc, Hp, Hpp; cbn;
  rewrite Hnonce; cbn; flatten_history.

Lemma verification_comes_first :
  continues w (snd (processTopUpEvent env event w)) [EvAllTokens; EvFindOne h; check].
Proof.
  unfold continues. enter_check.
  case_split; eexists; flatten_history; reflexivity.
Qed.

Lemma verified_marks_completed (data : string) :
  checkDeposit env checked = Resolved (Some data) ->
  storeFault env (checked ++ [EvUpdateOne h "completed"]) = None ->
  processTopUpEvent env event w
  = (Ret tt,
     mkWorld (<[h := set_state "completed" d]> (store w)) (isProcessingDeposit w)
       (checked ++ [EvUpdateOne h "completed"])).
Proof.
  intros Hcheck Hupd. flatten_history_in Hupd.
  enter_check. rewrite Hcheck. cbn.
  flatten_history. rewrite Hupd, Htracked, Hc. reflexivity.
Qed.

Lemma verified_update_rejected (data err : string) :
  checkDeposit env checked = Resolved (Some data) ->
  storeFault env (checked ++ [EvUpdateOne h "completed"]) = Some err ->
  processTopUpEvent env event w
  = (Ret tt,
     mkWorld (store w) (isProcessingDeposit w)
       (checked ++ [EvUpdateOne h "completed";
                    EvConsoleError ("Failed to update tx state for txHash "
                                    ++ h ++ ": " ++ err)])).
Proof.
  intros Hcheck Hupd. flatten_history_in Hupd.
  enter_check. rewrite Hcheck. cbn.
  flatten_history. rewrite Hupd. cbn. flatten_history. reflexivity.
Qed.

Lemma unverified_resubmits (n' : Z) :
  checkDeposit env checked = Resolved None ->
  getNonce env (checked ++ [EvGetNonce]) = Resolved (Some n') ->
  let retried := set_nonce n' (bump_retry (now env checked) d) in
  storeFault env (checked ++ [EvGetNonce; EvSave retried]) = None ->
  isProcessingDeposit w = false ->
  storeFault env (checked ++ [EvGetNonce; EvSave retried; EvFindOne h]) = None ->
  continues w (snd (processTopUpEvent env event w))
    [EvAllTokens; EvFindOne h; check; EvGetNonce; EvSave retried; EvFindOne h;
     EvDeposit (asUintN 64 n') p1 p2 tokenindex amt (Some retried)].
Proof.
  intros Hcheck Hget retried Hsave Hidle Hfind2. subst retried.
  flatten_history_in Hget. flatten_history_in Hsave. flatten_history_in Hfind2.
  unfold continues.
  enter_check. rewrite Hcheck. cbn.
  flatten_history. rewrite Hget. cbn.
  flatten_history. rewrite Hsave, Htracked. cbn.
  rewrite Hidle. cbn.
  flatten_history. rewrite Hfind2. cbn.
  rewrite !lookup_insert_eq. cbn. rewrite Hc. cbn.
  flatten_history. rewrite ?lookup_insert_eq.
  case_split; eexists; flatten_history; reflexivity.
Qed.

(** C1: for a tracked document that is 'in-progress' or 'failed' with its
    nonce set, processing the event again asks
    [checkDeposit(nonce, pid_1, pid_2, tokenIndex, amount)] before anything
    else is sent to L2.  When the answer carries data, the document is marked
    'completed' (the run returns even if that write is rejected) and no
    deposit is submitted.  When it carries none, the retry count goes up by
    one, a fresh nonce is fetched and stored, and the deposit is submitted
    again with that nonce. *)
Theorem verify_before_retry :
  continues w (snd (processTopUpEvent env event w)) [EvAllTokens; EvFindOne h; check]
  /\ (forall data,
        checkDeposit env checked = Resolved (Some data) ->
        (storeFault env (checked ++ [EvUpdateOne h "completed"]) = None ->
         processTopUpEvent env event w
         = (Ret tt,
            mkWorld (<[h := set_state "completed" d]> (store w))
              (isProcessingDeposit w)
              (checked ++ [EvUpdateOne h "completed"])))
        /\ (forall err,
              storeFault env (checked ++ [EvUpdateOne h "completed"]) = Some err ->
              processTopUpEvent env event w
              = (Ret tt,
                 mkWorld (store w) (isProcessingDeposit w)
                   (checked ++ [EvUpdateOne h "completed";
                                EvConsoleError
                                  ("Failed to update tx state for txHash "
                                   ++ h ++ ": " ++ err)]))))
  /\ (forall n',
        checkDeposit env checked = Resolved None ->
        getNonce env (checked ++ [EvGetNonce]) = Resolved (Some n') ->
        let retried := set_nonce n' (bump_retry (now env checked) d) in
        storeFault env (checked ++ [EvGetNonce; EvSave retried]) = None ->
        isProcessingDeposit w = false ->
        storeFault env (checked ++ [EvGetNonce; EvSave retried; EvFindOne h]) = None ->
        retryCount retried = retryCount d + 1
        /\ nonce retried = Some n'
        /\ continues w (snd (processTopUpEvent env event w))
             [EvAllTokens; EvFindOne h; check; EvGetNonce; EvSave retried;
              EvFindOne h;
              EvDeposit (asUintN 64 n') p1 p2 tokenindex amt (Some retried)]).
Proof.
  split; [exact verification_comes_first |].
  split.
  - intros data Hcheck. split.
    + apply verified_marks_completed with data. exact Hcheck.
    + intros err. apply verified_update_rejected with data. exact Hcheck.
  - intros n' Hcheck Hget retried Hsave Hidle Hfind2.
    split; [reflexivity |]. split; [reflexivity |].
    apply unverified_resubmits; assumption.
Qed.

End Tracked.

Section Aborts.

Variable d : TxDoc.

Hypothesis Htracked : store w !! h = Some d.

(** A post-pending document without nonce: the read of [tx.nonce] throws
    inside the [try], so the exit of the [else] branch is not reached. *)
Lemma nonce_unset_throws :
  post_pending d ->
  nonce d = None ->
  processTopUpEvent env event w
  = (Throw "TypeError: Cannot convert undefined to a BigInt",
     mkWorld (store w) (isProcessingDeposit w)
       (looked ++ [EvConsoleError
                     ("Error handling in-progress/failed transaction: "
                      ++ "TypeError: Cannot convert undefined to a BigInt")])).
Proof.
  intros Hpost Hnonce.
  destruct (post_pending_dispatch d Hpost) as (Hc & Hp & Hpp).
  enter. rewrite Htracked. cbn. rewrite Hc, Hp, Hpp. cbn.
  rewrite Hnonce. cbn. flatten_history. reflexivity.
Qed.


End Aborts.


End ProcessTopUpEvent.

Lemma untracked_topup_amount_witness :
  processTopUpEvent (steadyEnv ["S"; "T"] (Some 7) None true 0)
    (sampleEvent (10 ^ 18 - 1)) emptyWorld
  = (Ret tt,
     mkWorld {[ "0xabc" := mkTxDoc "0xabc" "completed" 0 "T" "U" None 1 2 0 0 None ]}
       false
       [EvAllTokens; EvFindOne "0xabc";
        EvInsert (mkTxDoc "0xabc" "completed" 0 "T" "U" None 1 2 0 0 None)])
  /\ processTopUpEvent (steadyEnv ["S"; "T"] (Some 7) None true 0)
       (sampleEvent (10 ^ 18)) emptyWorld
     = (Ret tt,
        mkWorld {[ "0xabc" := mkTxDoc "0xabc" "completed" 0 "T" "U" (Some 7) 1 2 1 0 None ]}
          false
          [EvAllTokens; EvFindOne "0xabc";
           EvInsert (mkTxDoc "0xabc" "pending" 0 "T" "U" None 1 2 1 0 None);
           EvGetNonce;
           EvSave (mkTxDoc "0xabc" "pending" 0 "T" "U" (Some 7) 1 2 1 0 None);
           EvSave (mkTxDoc "0xabc" "in-progress" 0 "T" "U" (Some 7) 1 2 1 0 None);
           EvFindOne "0xabc";
           EvDeposit 7 1 2 1 1
             (Some (mkTxDoc "0xabc" "in-progress" 0 "T" "U" (Some 7) 1 2 1 0 None));
           EvUpdateOne "0xabc" "completed"]).
Proof.
  split.
  - pose proof (untracked_topup_amount (steadyEnv ["S"; "T"] (Some 7) None true 0)
                  (sampleEvent (10 ^ 18 - 1)) (mkTopUpArgs "T" "U" 1 2 (10 ^ 18 - 1))
                  ["S"; "T"] 1 emptyWorld eq_refl eq_refl eq_refl eq_refl eq_refl)
      as (_ & _ & Hdust & _).
    exact (proj1 (Hdust ltac:(vm_compute; reflexivity)) eq_refl).
  - pose proof (untracked_topup_amount (steadyEnv ["S"; "T"] (Some 7) None true 0)
                  (sampleEvent (10 ^ 18)) (mkTopUpArgs "T" "U" 1 2 (10 ^ 18))
                  ["S"; "T"] 1 emptyWorld eq_refl eq_refl eq_refl eq_refl eq_refl)
      as (_ & _ & _ & Hwhole).
    exact (Hwhole ltac:(vm_compute; discriminate) 7 (fun _ => eq_refl) eq_refl
             eq_refl eq_refl).
Defined.

Lemma verify_before_retry_witness :
  processTopUpEvent (steadyEnv ["T"] (Some 6) (Some "credited") true 0)
    (sampleEvent (2 * 10 ^ 18)) (sampleWorld "failed" (Some 5))
  = (Ret tt,
     mkWorld (<["0xabc" := sampleDoc "completed" (Some 5)]>
                {[ "0xabc" := sampleDoc "failed" (Some 5) ]})
       false
       [EvAllTokens; EvFindOne "0xabc"; EvCheckDeposit 5 1 2 0 2;
        EvUpdateOne "0xabc" "completed"])
  /\ continues (sampleWorld "in-progress" (Some 5))
       (snd (processTopUpEvent (steadyEnv ["T"] (Some 6) None true 0)
               (sampleEvent (2 * 10 ^ 18)) (sampleWorld "in-progress" (Some 5))))
       [EvAllTokens; EvFindOne "0xabc"; EvCheckDeposit 5 1 2 0 2; EvGetNonce;
        EvSave (mkTxDoc "0xabc" "in-progress" 0 "T" "U" (Some 6) 1 2 2 1 (Some 0));
        EvFindOne "0xabc";
        EvDeposit 6 1 2 0 2
          (Some (mkTxDoc "0xabc" "in-progress" 0 "T" "U" (Some 6) 1 2 2 1 (Some 0)))].
Proof.
  split.
  - pose proof (verify_before_retry (steadyEnv ["T"] (Some 6) (Some "credited") true 0)
                  (sampleEvent (2 * 10 ^ 18)) (mkTopUpArgs "T" "U" 1 2 (2 * 10 ^ 18))
                  ["T"] 0 (sampleWorld "failed" (Some 5))
                  eq_refl eq_refl eq_refl eq_refl
                  (sampleDoc "failed" (Some 5)) 5 eq_refl (or_intror eq_refl) eq_refl)
      as (_ & Hverified & _).
    exact (proj1 (Hverified "credited" eq_refl) eq_refl).
  - pose proof (verify_before_retry (steadyEnv ["T"] (Some 6) None true 0)
                  (sampleEvent (2 * 10 ^ 18)) (mkTopUpArgs "T" "U" 1 2 (2 * 10 ^ 18))
                  ["T"] 0 (sampleWorld "in-progress" (Some 5))
                  eq_refl eq_refl eq_refl eq_refl
                  (sampleDoc "in-progress" (Some 5)) 5 eq_refl (or_introl eq_refl) eq_refl)
      as (_ & _ & Hretry).
    exact (proj2 (proj2 (Hretry 6 eq_refl eq_refl eq_refl eq_refl eq_refl))).
Defined.

(** ** A completed document is terminal *)

Section Terminal.

Variable env : Env.
Variable k : string.
Variable d : TxDoc.

Hypothesis Hcompleted : state d = "completed".

Lemma keeps_ret {A} (a : A) : keeps k d (ret a).
Proof. intros w Hw. exact Hw. Qed.

Lemma keeps_throw {A} (e : string) : keeps k d (@throw A e).
Proof. intros w Hw. exact Hw. Qed.

Lemma keeps_processExit {A} (c : Z) : keeps k d (@processExit A c).
Proof. intros w Hw. exact Hw. Qed.

Lemma keeps_emit (ev : Event) : keeps k d (emit ev).
Proof. intros w Hw. exact Hw. Qed.

Lemma keeps_consoleError (msg : string) : keeps k d (consoleError msg).
Proof. intros w Hw. exact Hw. Qed.

Lemma keeps_setProcessing (b : bool) : keeps k d (setProcessing b).
Proof. intros w Hw. exact Hw. Qed.

Lemma keeps_getProcessing : keeps k d getProcessing.
Proof. intros w Hw. exact Hw. Qed.

Lemma keeps_clock : keeps k d (clock env).
Proof. intros w Hw. exact Hw. Qed.

Lemma keeps_remote {A} (ev : Event) (answer : list Event -> Resp A) :
  keeps k d (remote ev answer).
Proof.
  intros w Hw. unfold remote. destruct (answer _); exact Hw.
Qed.

Lemma keeps_bind {A B} (m : M A) (f : A -> M B) :
  keeps k d m -> (forall a, keeps k d (f a)) -> keeps k d (bind m f).
Proof.
  intros Hm Hf w Hw. unfold bind.
  specialize (Hm w Hw). destruct (m w) as [[a | e | c] w']; cbn in *.
  - apply Hf. exact Hm.
  - exact Hm.
  - exact Hm.
Qed.

Lemma keeps_tryCatch {A} (body : M A) (handler : string -> M A) :
  keeps k d body -> (forall e, keeps k d (handler e)) ->
  keeps k d (tryCatch body handler).
Proof.
  intros Hb Hh w Hw. unfold tryCatch.
  specialize (Hb w Hw). destruct (body w) as [[a | e | c] w']; cbn in *.
  - exact Hb.
  - apply Hh. exact Hb.
  - exact Hb.
Qed.

Lemma keeps_tryFinally {A} (body : M A) (fin : M unit) :
  keeps k d body -> keeps k d fin -> keeps k d (tryFinally body fin).
Proof.
  intros Hb Hf w Hw. unfold tryFinally.
  specialize (Hb w Hw). destruct (body w) as [[a | e | c] w']; cbn in *.
  - specialize (Hf w' Hb). destruct (fin w') as [[[] | e | c] w'']; exact Hf.
  - specialize (Hf w' Hb). destruct (fin w') as [[[] | e' | c] w'']; exact Hf.
  - exact Hb.
Qed.

Lemma keeps_findOne (h : string) : keeps k d (TxHash_findOne env h).
Proof.
  intros w Hw. unfold TxHash_findOne. cbn. destruct (storeFault env _); exact Hw.
Qed.

(** An insert never lands on a key that is taken. *)
Lemma keeps_saveNew (doc : TxDoc) : keeps k d (saveNew env doc).
Proof.
  intros w Hw. unfold saveNew. cbn.
  destruct (storeFault env _); [exact Hw |].
  destruct (store w !! txHash doc) eqn:Hdoc; [exact Hw |].
  cbn. rewrite lookup_insert_ne; [exact Hw |].
  intros Heq. rewrite Heq, Hw in Hdoc. discriminate Hdoc.
Qed.

(** A save of the document tracked under another key. *)
Lemma keeps_save (h : string) (doc : TxDoc) : h <> k -> keeps k d (save env h doc).
Proof.
  intros Hne w Hw. unfold save. cbn.
  destruct (storeFault env _); [exact Hw |].
  destruct (store w !! h); [| exact Hw].
  cbn. rewrite lookup_insert_ne by exact Hne. exact Hw.
Qed.

(** The guard [state: { $ne: 'completed' }]. *)
Lemma keeps_updateOne (h s : string) :
  keeps k d (TxHash_updateOne_notCompleted env h s).
Proof.
  intros w Hw. unfold TxHash_updateOne_notCompleted. cbn.
  destruct (storeFault env _); [exact Hw |].
  destruct (store w !! h) as [d' |] eqn:Hd'; [| exact Hw].
  destruct (String.eqb (state d') "completed") eqn:Hs; [exact Hw |].
  cbn. rewrite lookup_insert_ne; [exact Hw |].
  intros ->. rewrite Hw in Hd'. injection Hd' as <-.
  rewrite Hcompleted in Hs. discriminate Hs.
Qed.

Lemma keeps_admin_deposit (h : string) (n p1 p2 tokenIndex amt : Z) :
  keeps k d (admin_deposit env h n p1 p2 tokenIndex amt).
Proof. intros w Hw. unfold admin_deposit. apply keeps_remote. exact Hw. Qed.

Lemma keeps_updateTxState (h s : string) : keeps k d (updateTxState env h s).
Proof.
  unfold updateTxState. apply keeps_tryCatch.
  - apply keeps_updateOne.
  - intros e. apply keeps_consoleError.
Qed.

Ltac keeps_step :=
  lazymatch goal with
  | |- forall _, _ => intro
  | |- keeps _ _ (bind _ _) => apply keeps_bind
  | |- keeps _ _ (tryCatch _ _) => apply keeps_tryCatch
  | |- keeps _ _ (tryFinally _ _) => apply keeps_tryFinally
  | |- keeps _ _ (ret _) => apply keeps_ret
  | |- keeps _ _ (throw _) => apply keeps_throw
  | |- keeps _ _ (processExit _) => apply keeps_processExit
  | |- keeps _ _ (consoleError _) => apply keeps_consoleError
  | |- keeps _ _ (emit _) => apply keeps_emit
  | |- keeps _ _ (setProcessing _) => apply keeps_setProcessing
  | |- keeps _ _ getProcessing => apply keeps_getProcessing
  | |- keeps _ _ (clock _) => apply keeps_clock
  | |- keeps _ _ (remote _ _) => apply keeps_remote
  | |- keeps _ _ (TxHash_findOne _ _) => apply keeps_findOne
  | |- keeps _ _ (saveNew _ _) => apply keeps_saveNew
  | |- keeps _ _ (updateTxState _ _ _) => apply keeps_updateTxState
  | |- keeps _ _ (admin_deposit _ _ _ _ _ _ _) => apply keeps_admin_deposit
  | |- keeps _ _ (save _ _ _) => apply keeps_save; assumption
  | |- keeps _ _ (match ?x with _ => _ end) => destruct x
  end.

Ltac keeps_auto := repeat keeps_step.

Lemma keeps_performDeposit (h : string) (n p1 p2 tokenIndex amt : Z) :
  keeps k d (performDeposit env h n p1 p2 tokenIndex amt).
Proof.
  unfold performDeposit. keeps_auto.
Qed.

(** Processing the event of a completed document stops at the lookup. *)
Lemma processTopUpEvent_completed_untouched (event : EventLog) (w : World) :
  store w !! transactionHash event = Some d ->
  store (snd (processTopUpEvent env event w)) = store w.
Proof.
  intros Hd. unfold_service. cbn.
  repeat (first
            [ rewrite Hd
            | rewrite Hcompleted
            | match goal with
              | |- context [match ?x with _ => _ end] =>
                  lazymatch x with
                  | context [match _ with _ => _ end] => fail
                  | _ => destruct x eqn:?
                  end
              end ]; cbn);
    reflexivity.
Qed.

Lemma keeps_processTopUpEvent (event : EventLog) :
  keeps k d (processTopUpEvent env event).
Proof.
  destruct (decide (transactionHash event = k)) as [Heq | Hne].
  - intros w Hw. rewrite processTopUpEvent_completed_untouched; [exact Hw |].
    rewrite Heq. exact Hw.
  - unfold processTopUpEvent, get_nonce, admin_getNonce, admin_checkDeposit,
      nonce_is_null.
    cbv zeta. keeps_auto; apply keeps_performDeposit.
Qed.

Lemma keeps_processHistoricalLogs (logs : list EventLog) :
  keeps k d (processHistoricalLogs env logs).
Proof.
  induction logs as [| log rest IH]; cbn [processHistoricalLogs].
  - apply keeps_ret.
  - unfold findTxByHash. keeps_auto; first [apply keeps_processTopUpEvent | exact IH].
Qed.

Lemma keeps_historicalLoop (fuel : nat) (fromBlock latestBlock : Z) :
  keeps k d (historicalLoop env fuel fromBlock latestBlock).
Proof.
  revert fromBlock. induction fuel as [| fuel IH]; intros fromBlock;
    cbn [historicalLoop].
  - apply keeps_ret.
  - cbv zeta. keeps_auto; first [apply keeps_processHistoricalLogs | apply IH].
Qed.

Lemma keeps_getHistoricalTopUpEvents (config_startBlock : option Z) :
  keeps k d (getHistoricalTopUpEvents env config_startBlock).
Proof.
  unfold getHistoricalTopUpEvents. cbv zeta.
  keeps_auto; apply keeps_historicalLoop.
Qed.

(** C2: a document whose stored state is 'completed' stays as it is under
    every operation of the service: [updateTxState] (whatever the key and the
    target state), [performDeposit], [processTopUpEvent] and the historical
    sweep.  Processing its own event again stops at the lookup: nothing is
    written and nothing is sent to L2.  An update of its state, to 'completed'
    again or to anything else, writes nothing. *)
Theorem completed_is_terminal :
  (forall h s, keeps k d (updateTxState env h s))
  /\ (forall h n p1 p2 tokenIndex amt,
        keeps k d (performDeposit env h n p1 p2 tokenIndex amt))
  /\ (forall event, keeps k d (processTopUpEvent env event))
  /\ (forall config_startBlock,
        keeps k d (getHistoricalTopUpEvents env config_startBlock))
  /\ (forall event w,
        transactionHash event = k ->
        store w !! k = Some d ->
        store (snd (processTopUpEvent env event w)) = store w
        /\ forall args tokens tokenindex,
             decoded event = Some args ->
             allTokens env (trace w ++ [EvAllTokens]) = Resolved tokens ->
             getTokenIndex (arg_l1token args) tokens = Some tokenindex ->
             storeFault env (trace w ++ [EvAllTokens; EvFindOne k]) = None ->
             processTopUpEvent env event w
             = (Ret tt,
                mkWorld (store w) (isProcessingDeposit w)
                  (trace w ++ [EvAllTokens; EvFindOne k])))
  /\ (forall s w,
        store w !! k = Some d ->
        store (snd (updateTxState env k s w)) = store w).
Proof.
  split; [exact keeps_updateTxState |].
  split; [exact keeps_performDeposit |].
  split; [exact keeps_processTopUpEvent |].
  split; [exact keeps_getHistoricalTopUpEvents |].
  split.
  - intros event w Hk Hd. split.
    + apply processTopUpEvent_completed_untouched. rewrite Hk. exact Hd.
    + intros args tokens tokenindex Hdec Htok Hidx Hfind. subst k.
      unfold_service. cbn.
      rewrite Hdec. cbn. rewrite Htok. cbn. rewrite Hidx. cbn.
      flatten_history. rewrite Hfind, Hd. cbn. rewrite Hcompleted. reflexivity.
  - intros s w Hd. apply (updateTxState_completed env k s d w Hd Hcompleted).
Qed.

End Terminal.

Lemma completed_is_terminal_witness :
  processTopUpEvent (steadyEnv ["T"] (Some 6) None true 0)
    (sampleEvent (2 * 10 ^ 18)) (sampleWorld "completed" (Some 5))
  = (Ret tt,
     mkWorld {[ "0xabc" := sampleDoc "completed" (Some 5) ]} false
       [EvAllTokens; EvFindOne "0xabc"])
  /\ store (snd (updateTxState (steadyEnv ["T"] (Some 6) None true 0) "0xabc" "failed"
                   (sampleWorld "completed" (Some 5))))
     = {[ "0xabc" := sampleDoc "completed" (Some 5) ]}.
Proof.
  pose proof (completed_is_terminal (steadyEnv ["T"] (Some 6) None true 0)
                "0xabc" (sampleDoc "completed" (Some 5)) eq_refl)
    as (_ & _ & _ & _ & Hsame & Hupdate).
  split.
  - exact (proj2 (Hsame (sampleEvent (2 * 10 ^ 18)) (sampleWorld "completed" (Some 5))
                    eq_refl eq_refl)
             (mkTopUpArgs "T" "U" 1 2 (2 * 10 ^ 18)) ["T"] 0
             eq_refl eq_refl eq_refl eq_refl).
  - exact (Hupdate "failed" (sampleWorld "completed" (Some 5)) eq_refl).
Defined.

(** ** Fatal conditions *)

Ltac eqb_facts :=
  repeat match goal with
         | H : (_ || _) = true |- _ => apply orb_true_iff in H; destruct H
         | H : (_ || _) = false |- _ => apply orb_false_iff in H; destruct H
         | H : _ <$> _ = None |- _ => apply fmap_None in H
         | H : String.eqb _ _ = true |- _ => apply String.eqb_eq in H
         | H : String.eqb _ _ = false |- _ => apply String.eqb_neq in H
         end.

Section Fatal.

Variable env : Env.

(** [performDeposit] ends the process only on a reentrant call or on a
    document found completed. *)
Lemma performDeposit_exit_cause
    (h : string) (n p1 p2 tokenIndex amt : Z) (w : World) (c : Z) :
  fst (performDeposit env h n p1 p2 tokenIndex amt w) = Exit c ->
  c = 1
  /\ (isProcessingDeposit w = true
      \/ (storeFault env (trace w ++ [EvFindOne h]) = None
          /\ is_completed (store w !! h) = true)).
Proof.
  intros Hexit. revert Hexit. unfold_service. cbn.
  case_split; intros Hexit; try discriminate Hexit;
    injection Hexit as <-; split; try reflexivity;
    first [left; reflexivity | right; split; reflexivity].
Qed.

Ltac refute_updateTxState :=
  match goal with
  | H : updateTxState ?e ?h ?s ?w = (?o, _) |- _ =>
      lazymatch o with
      | Ret _ => fail
      | _ => destruct (updateTxState_returns e h s w) as (? & Hret & _);
             rewrite Hret in H; discriminate H
      end
  end.

Ltac outer_split :=
  repeat (first
            [ rewrite lookup_insert_eq
            | match goal with
              | |- context [match ?x with _ => _ end] =>
                  lazymatch x with
                  | context [match _ with _ => _ end] => fail
                  | _ => destruct x eqn:?
                  end
              end ];
          cbn -[performDeposit updateTxState]).

(** [processTopUpEvent] ends the process only for a document in an
    unexpected state, a submission path that is already busy, or a nonce
    source that answers [null]; in the last case the request and the message
    are the last two events of the run. *)
Lemma processTopUpEvent_exit_cause (event : EventLog) (w : World) (c : Z) :
  fst (processTopUpEvent env event w) = Exit c ->
  c = 1
  /\ ((exists d, store w !! transactionHash event = Some d
                 /\ unexpected_state d)
      \/ isProcessingDeposit w = true
      \/ (exists history,
            (exists pre, history = trace w ++ pre)
            /\ getNonce env (history ++ [EvGetNonce]) = Resolved None
            /\ trace (snd (processTopUpEvent env event w))
               = (history ++ [EvGetNonce])
                 ++ [EvConsoleError "nonce is null, this shall not happen"])).
Proof.
  intros Hexit. revert Hexit.
  unfold processTopUpEvent, get_nonce, TxHash_findOne, save, saveNew,
    admin_getNonce, admin_checkDeposit, nonce_is_null, remote, clock,
    consoleError, emit, tryCatch, bind, ret, throw, processExit, log_event,
    with_store.
  cbn -[performDeposit updateTxState].
  outer_split; intros Hexit; try discriminate Hexit; try refute_updateTxState.
  all: injection Hexit as <-.
  all: first
         [ solve [ split; [reflexivity |]; right; right;
                   eexists; (split; [| split; [eassumption | reflexivity]]);
                   eexists; rewrite <- ?app_assoc; reflexivity ]
         | solve [ split; [reflexivity |]; left;
                   eexists; split; [reflexivity |];
                   eqb_facts; unfold unexpected_state; auto ]
         | match goal with
           | H : performDeposit _ _ _ _ _ _ _ _ = (Exit _, _) |- _ =>
               pose proof (performDeposit_exit_cause _ _ _ _ _ _ _ _ (f_equal fst H))
                 as [-> [Hbusy | [_ Hdone]]];
               [ split; [reflexivity |]; right; left; exact Hbusy
               | exfalso; unfold is_completed in Hdone; cbn in Hdone;
                 rewrite lookup_insert_eq in Hdone; cbn in Hdone; congruence ]
           end ].
Qed.



End Fatal.


(** The exit on a missing nonce is not reached: on a document that is
    'failed' without a nonce the read of [tx.nonce] throws, the error is
    logged and rethrown, and the process goes on. *)
Example unset_nonce_run :
  processTopUpEvent (steadyEnv ["T"] (Some 6) None true 0)
    (sampleEvent (2 * 10 ^ 18)) (sampleWorld "failed" None)
  = (Throw "TypeError: Cannot convert undefined to a BigInt",
     mkWorld {[ "0xabc" := sampleDoc "failed" None ]} false
       [EvAllTokens; EvFindOne "0xabc";
        EvConsoleError
          "Error handling in-progress/failed transaction: TypeError: Cannot convert undefined to a BigInt"]).
Proof. vm_compute. reflexivity. Qed.


(** ** Durability before submission *)

(** C3, the defect: a document that is 'failed' with its nonce set, whose
    verification finds nothing, is resubmitted to L2 while the stored
    document still says 'failed': the retry path stores the new nonce and the
    retry count, and never the state 'in-progress'. *)
Theorem retry_submits_while_failed :
  filter is_deposit
    (trace (snd (processTopUpEvent (steadyEnv ["T"] (Some 6) None true 0)
                   (sampleEvent (2 * 10 ^ 18)) (sampleWorld "failed" (Some 5)))))
  = [EvDeposit 6 1 2 0 2
       (Some (mkTxDoc "0xabc" "failed" 0 "T" "U" (Some 6) 1 2 2 1 (Some 0)))].
Proof. vm_compute. reflexivity. Qed.

(** A pending document, for contrast, is marked 'in-progress' before its
    submission. *)
Example pending_submission_in_progress :
  filter is_deposit
    (trace (snd (processTopUpEvent (steadyEnv ["T"] (Some 6) None true 0)
                   (sampleEvent (2 * 10 ^ 18)) (sampleWorld "pending" None))))
  = [EvDeposit 6 1 2 0 2
       (Some (mkTxDoc "0xabc" "in-progress" 0 "T" "U" (Some 6) 1 2 2 0 None))].
Proof. vm_compute. reflexivity. Qed.

(** The first submission, for contrast, is issued with 'in-progress' and the
    nonce stored. *)
Example first_submission_in_progress :
  filter is_deposit
    (trace (snd (processTopUpEvent (steadyEnv ["T"] (Some 6) None true 0)
                   (sampleEvent (2 * 10 ^ 18)) emptyWorld)))
  = [EvDeposit 6 1 2 0 2
       (Some (mkTxDoc "0xabc" "in-progress" 0 "T" "U" (Some 6) 1 2 2 0 None))].
Proof. vm_compute. reflexivity. Qed.

(** ** The ranges the historical sweep scans *)

Section Queries.

Variable env : Env.
Variable ranges : list (Z * Z).

Lemma only_queries_ret {A} (a : A) : only_queries ranges (ret a).
Proof. intros w f t Hin. left. exact Hin. Qed.

Lemma only_queries_throw {A} (e : string) : only_queries ranges (@throw A e).
Proof. intros w f t Hin. left. exact Hin. Qed.

Lemma only_queries_processExit {A} (c : Z) : only_queries ranges (@processExit A c).
Proof. intros w f t Hin. left. exact Hin. Qed.

Lemma only_queries_bind {A B} (m : M A) (k : A -> M B) :
  only_queries ranges m -> (forall a, only_queries ranges (k a)) ->
  only_queries ranges (bind m k).
Proof.
  intros Hm Hk w f t. unfold bind.
  specialize (Hm w f t). destruct (m w) as [[a | e | c] w']; cbn in *.
  - intros Hin. destruct (Hk a w' f t Hin) as [Hbefore | Hrange]; auto.
  - exact Hm.
  - exact Hm.
Qed.

Lemma only_queries_tryCatch {A} (body : M A) (handler : string -> M A) :
  only_queries ranges body -> (forall e, only_queries ranges (handler e)) ->
  only_queries ranges (tryCatch body handler).
Proof.
  intros Hb Hh w f t. unfold tryCatch.
  specialize (Hb w f t). destruct (body w) as [[a | e | c] w']; cbn in *.
  - exact Hb.
  - intros Hin. destruct (Hh e w' f t Hin) as [Hbefore | Hrange]; auto.
  - exact Hb.
Qed.

Lemma only_queries_tryFinally {A} (body : M A) (fin : M unit) :
  only_queries ranges body -> only_queries ranges fin ->
  only_queries ranges (tryFinally body fin).
Proof.
  intros Hb Hf w f t. unfold tryFinally.
  specialize (Hb w f t). destruct (body w) as [[a | e | c] w']; cbn in *.
  - specialize (Hf w' f t). destruct (fin w') as [[[] | e | c] w'']; cbn in *;
      intros Hin; destruct (Hf Hin) as [Hbefore | Hrange]; auto.
  - specialize (Hf w' f t). destruct (fin w') as [[[] | e' | c] w'']; cbn in *;
      intros Hin; destruct (Hf Hin) as [Hbefore | Hrange]; auto.
  - exact Hb.
Qed.

(** A step that adds one event, not a log query, to the history. *)
Ltac one_event :=
  intros w f t; cbn; case_split; cbn;
  rewrite ?elem_of_app, ?list_elem_of_singleton;
  (intros [Hin | Hin]; [left; exact Hin | discriminate Hin]).

Lemma only_queries_emit (ev : Event) :
  is_getLogs ev = false -> only_queries ranges (emit ev).
Proof.
  intros Hev w f t. cbn. rewrite elem_of_app, list_elem_of_singleton.
  intros [Hin | Hin]; [left; exact Hin |]. subst ev. discriminate Hev.
Qed.

Lemma only_queries_consoleError (msg : string) : only_queries ranges (consoleError msg).
Proof. apply only_queries_emit. reflexivity. Qed.

Lemma only_queries_remote {A} (ev : Event) (answer : list Event -> Resp A) :
  is_getLogs ev = false -> only_queries ranges (remote ev answer).
Proof.
  intros Hev w f t. unfold remote. cbn.
  destruct (answer _); cbn; rewrite elem_of_app, list_elem_of_singleton;
    (intros [Hin | Hin]; [left; exact Hin |]); subst ev; discriminate Hev.
Qed.

Lemma only_queries_getLogs (fromBlock toBlock : Z) :
  (fromBlock, toBlock) ∈ ranges ->
  only_queries ranges (remote (EvGetLogs fromBlock toBlock) (getLogs env)).
Proof.
  intros Hrange w f t. unfold remote. cbn.
  destruct (getLogs env _); cbn; rewrite elem_of_app, list_elem_of_singleton;
    (intros [Hin | Hin]; [left; exact Hin |]); injection Hin as -> ->;
    right; exact Hrange.
Qed.

Lemma only_queries_clock : only_queries ranges (clock env).
Proof. intros w f t Hin. left. exact Hin. Qed.

Lemma only_queries_setProcessing (b : bool) : only_queries ranges (setProcessing b).
Proof. intros w f t Hin. left. exact Hin. Qed.

Lemma only_queries_getProcessing : only_queries ranges getProcessing.
Proof. intros w f t Hin. left. exact Hin. Qed.

Lemma only_queries_findOne (h : string) : only_queries ranges (TxHash_findOne env h).
Proof. unfold TxHash_findOne, log_event. one_event. Qed.

Lemma only_queries_saveNew (doc : TxDoc) : only_queries ranges (saveNew env doc).
Proof. unfold saveNew, log_event, with_store. one_event. Qed.

Lemma only_queries_save (h : string) (doc : TxDoc) : only_queries ranges (save env h doc).
Proof. unfold save, log_event, with_store. one_event. Qed.

Lemma only_queries_updateOne (h s : string) :
  only_queries ranges (TxHash_updateOne_notCompleted env h s).
Proof. unfold TxHash_updateOne_notCompleted, log_event, with_store. one_event. Qed.

Lemma only_queries_admin_deposit (h : string) (n p1 p2 tokenIndex amt : Z) :
  only_queries ranges (admin_deposit env h n p1 p2 tokenIndex amt).
Proof.
  intros w. unfold admin_deposit. apply only_queries_remote. reflexivity.
Qed.

Ltac queries_step :=
  lazymatch goal with
  | |- forall _, _ => intro
  | |- only_queries _ (bind _ _) => apply only_queries_bind
  | |- only_queries _ (tryCatch _ _) => apply only_queries_tryCatch
  | |- only_queries _ (tryFinally _ _) => apply only_queries_tryFinally
  | |- only_queries _ (ret _) => apply only_queries_ret
  | |- only_queries _ (throw _) => apply only_queries_throw
  | |- only_queries _ (processExit _) => apply only_queries_processExit
  | |- only_queries _ (consoleError _) => apply only_queries_consoleError
  | |- only_queries _ (setProcessing _) => apply only_queries_setProcessing
  | |- only_queries _ getProcessing => apply only_queries_getProcessing
  | |- only_queries _ (clock _) => apply only_queries_clock
  | |- only_queries _ (remote _ _) => apply only_queries_remote; reflexivity
  | |- only_queries _ (TxHash_findOne _ _) => apply only_queries_findOne
  | |- only_queries _ (saveNew _ _) => apply only_queries_saveNew
  | |- only_queries _ (save _ _ _) => apply only_queries_save
  | |- only_queries _ (TxHash_updateOne_notCompleted _ _ _) =>
      apply only_queries_updateOne
  | |- only_queries _ (admin_deposit _ _ _ _ _ _ _) =>
      apply only_queries_admin_deposit
  | |- only_queries _ (match ?x with _ => _ end) => destruct x
  end.

Ltac queries_auto := repeat queries_step.

Lemma only_queries_processTopUpEvent (event : EventLog) :
  only_queries ranges (processTopUpEvent env event).
Proof.
  unfold processTopUpEvent, get_nonce, performDeposit, updateTxState,
    admin_getNonce, admin_checkDeposit, nonce_is_null.
  cbv zeta. queries_auto.
Qed.

Lemma only_queries_processHistoricalLogs (logs : list EventLog) :
  only_queries ranges (processHistoricalLogs env logs).
Proof.
  induction logs as [| log rest IH]; cbn [processHistoricalLogs].
  - apply only_queries_ret.
  - unfold findTxByHash.
    queries_auto; first [apply only_queries_processTopUpEvent | exact IH].
Qed.

End Queries.

Section SweepRanges.

Variable env : Env.

Lemma only_queries_weaken {A} (ranges ranges' : list (Z * Z)) (m : M A) :
  (forall r, r ∈ ranges -> r ∈ ranges') ->
  only_queries ranges m -> only_queries ranges' m.
Proof.
  intros Hsub Hm w f t Hin. destruct (Hm w f t Hin) as [Hbefore | Hrange].
  - left. exact Hbefore.
  - right. apply Hsub. exact Hrange.
Qed.

(** The loop asks for the logs of the ranges of its header and of no other. *)
Lemma only_queries_historicalLoop (fuel : nat) (fromBlock latestBlock : Z) :
  only_queries (historicalRanges fuel fromBlock latestBlock)
    (historicalLoop env fuel fromBlock latestBlock).
Proof.
  revert fromBlock. induction fuel as [| fuel IH]; intros fromBlock;
    cbn [historicalLoop historicalRanges].
  - apply only_queries_ret.
  - destruct (fromBlock <? latestBlock); [| apply only_queries_ret].
    cbv zeta. apply only_queries_bind.
    + apply only_queries_tryCatch.
      * apply only_queries_bind.
        -- apply only_queries_getLogs. apply list_elem_of_here.
        -- intros logs. apply only_queries_processHistoricalLogs.
      * intros e. apply only_queries_consoleError.
    + intros _. apply only_queries_weaken with (2 := IH (fromBlock + batchSize)).
      intros r Hr. apply list_elem_of_further. exact Hr.
Qed.

(** Every range starts at or after the start block, is not empty, ends at
    or before the head and covers at most [batchSize] blocks. *)
Lemma historicalRanges_bounds (fuel : nat) (fromBlock latestBlock f t : Z) :
  (f, t) ∈ historicalRanges fuel fromBlock latestBlock ->
  fromBlock <= f /\ f <= t <= latestBlock /\ t - f + 1 <= batchSize.
Proof.
  revert fromBlock. induction fuel as [| fuel IH]; intros fromBlock;
    cbn [historicalRanges].
  - intros Hin. inversion Hin.
  - destruct (Z.ltb_spec fromBlock latestBlock) as [Hlt | Hge].
    + intros Hin. apply elem_of_cons in Hin. destruct Hin as [Heq | Hin].
      * injection Heq as -> ->. unfold batchSize. lia.
      * specialize (IH _ Hin). unfold batchSize in *. lia.
    + intros Hin. inversion Hin.
Qed.

(** When the head lies a whole number of batches after the start block, every
    range ends before the head. *)
Lemma historicalRanges_miss_head (fuel : nat) (fromBlock latestBlock q f t : Z) :
  latestBlock = fromBlock + q * batchSize ->
  (f, t) ∈ historicalRanges fuel fromBlock latestBlock ->
  t < latestBlock.
Proof.
  revert fromBlock q. induction fuel as [| fuel IH]; intros fromBlock q Hq;
    cbn [historicalRanges].
  - intros Hin. inversion Hin.
  - destruct (Z.ltb_spec fromBlock latestBlock) as [Hlt | Hge].
    + intros Hin. apply elem_of_cons in Hin. destruct Hin as [Heq | Hin].
      * injection Heq as -> ->. unfold batchSize in *. lia.
      * apply (IH (fromBlock + batchSize) (q - 1)); [| exact Hin].
        unfold batchSize in *. lia.
    + intros Hin. inversion Hin.
Qed.

(** The sweep as a whole: with the head a whole number of batches after the
    block it starts at (a configured start block at or before the head, or
    the default window), no log query the sweep adds reaches the head. *)
Lemma historical_sweep_misses_head
    (config_startBlock : option Z) (head q : Z) (w : World) (f t : Z) :
  getBlockNumber env (trace w ++ [EvGetBlockNumber]) = Resolved head ->
  head = match config_startBlock with
         | Some configured => configured
         | None => Z.max 0 (head - totalBlocksToScan)
         end + q * batchSize ->
  EvGetLogs f t ∈ trace (snd (getHistoricalTopUpEvents env config_startBlock w)) ->
  EvGetLogs f t ∈ trace w \/ t < head.
Proof.
  intros Hhead Hq.
  unfold getHistoricalTopUpEvents, tryCatch, bind, remote. cbn.
  rewrite Hhead.
  assert (Hloop : forall start,
             head = start + q * batchSize ->
             EvGetLogs f t
               ∈ trace (snd (historicalLoop env (historicalIterations start head)
                               start head (log_event EvGetBlockNumber w))) ->
             EvGetLogs f t ∈ trace w \/ t < head).
  { intros start Hstart Hin.
    destruct (only_queries_historicalLoop _ _ _ _ _ _ Hin) as [Hbefore | Hrange].
    - cbn in Hbefore. apply elem_of_app in Hbefore.
      destruct Hbefore as [Hbefore | Hnew]; [left; exact Hbefore |].
      apply list_elem_of_singleton in Hnew. discriminate Hnew.
    - right. exact (historicalRanges_miss_head _ _ _ _ _ _ Hstart Hrange). }
  destruct config_startBlock as [configured |].
  - destruct (Z.gtb_spec configured head) as [Hgt | Hle].
    + cbn. rewrite elem_of_app, list_elem_of_singleton.
      intros [Hin | Hin]; [left; exact Hin | discriminate Hin].
    + specialize (Hloop configured Hq).
      destruct (historicalLoop env _ configured head _) as [o w'].
      destruct o as [[] | e | c]; cbn in *; try exact Hloop.
      rewrite elem_of_app, list_elem_of_singleton.
      intros [Hin | Hin]; [exact (Hloop Hin) | discriminate Hin].
  - specialize (Hloop _ Hq).
    destruct (historicalLoop env _ _ head _) as [o w'].
    destruct o as [[] | e | c]; cbn in *; try exact Hloop.
    rewrite elem_of_app, list_elem_of_singleton.
    intros [Hin | Hin]; [exact (Hloop Hin) | discriminate Hin].
Qed.

End SweepRanges.

(** * Further properties of the deposit service *)

(** ** What an operation can touch *)

Section Footprint.

Variable env : Env.
Variable R : World -> World -> Prop.
Variable allowed : string -> Prop.

Hypothesis R_refl : forall w, R w w.
Hypothesis R_trans : forall w1 w2 w3, R w1 w2 -> R w2 w3 -> R w1 w3.
Hypothesis R_log : forall w ev, R w (log_event ev w).
Hypothesis R_flag : forall w b, R w (mkWorld (store w) b (trace w)).
Hypothesis R_write :
  forall w k doc, allowed k -> R w (with_store (<[k := doc]> (store w)) w).

Lemma within_ret {A} (a : A) : acts_within R (ret a).
Proof. intros w. apply R_refl. Qed.

Lemma within_throw {A} (e : string) : acts_within R (@throw A e).
Proof. intros w. apply R_refl. Qed.

Lemma within_processExit {A} (c : Z) : acts_within R (@processExit A c).
Proof. intros w. apply R_refl. Qed.

Lemma within_emit (ev : Event) : acts_within R (emit ev).
Proof. intros w. apply R_log. Qed.

Lemma within_consoleError (msg : string) : acts_within R (consoleError msg).
Proof. intros w. apply R_log. Qed.

Lemma within_setProcessing (b : bool) : acts_within R (setProcessing b).
Proof. intros w. apply R_flag. Qed.

Lemma within_getProcessing : acts_within R getProcessing.
Proof. intros w. apply R_refl. Qed.

Lemma within_clock : acts_within R (clock env).
Proof. intros w. apply R_refl. Qed.

Lemma within_remote {A} (ev : Event) (answer : list Event -> Resp A) :
  acts_within R (remote ev answer).
Proof. intros w. unfold remote. destruct (answer _); apply R_log. Qed.

Lemma within_bind {A B} (m : M A) (k : A -> M B) :
  acts_within R m -> (forall a, acts_within R (k a)) -> acts_within R (bind m k).
Proof.
  intros Hm Hk w. unfold bind. specialize (Hm w).
  destruct (m w) as [[a | e | c] w']; cbn in *; try exact Hm.
  apply R_trans with w'; [exact Hm | apply Hk].
Qed.

Lemma within_tryCatch {A} (body : M A) (handler : string -> M A) :
  acts_within R body -> (forall e, acts_within R (handler e)) ->
  acts_within R (tryCatch body handler).
Proof.
  intros Hb Hh w. unfold tryCatch. specialize (Hb w).
  destruct (body w) as [[a | e | c] w']; cbn in *; try exact Hb.
  apply R_trans with w'; [exact Hb | apply Hh].
Qed.

Lemma within_tryFinally {A} (body : M A) (fin : M unit) :
  acts_within R body -> acts_within R fin -> acts_within R (tryFinally body fin).
Proof.
  intros Hb Hf w. unfold tryFinally. specialize (Hb w).
  destruct (body w) as [[a | e | c] w']; cbn in *; try exact Hb.
  - specialize (Hf w'). destruct (fin w') as [[[] | e | c] w'']; cbn in *;
      apply R_trans with w'; assumption.
  - specialize (Hf w'). destruct (fin w') as [[[] | e' | c] w'']; cbn in *;
      apply R_trans with w'; assumption.
Qed.

Lemma within_findOne (h : string) : acts_within R (TxHash_findOne env h).
Proof. intros w. unfold TxHash_findOne. cbn. destruct (storeFault env _); apply R_log. Qed.

Lemma within_saveNew (doc : TxDoc) :
  allowed (txHash doc) -> acts_within R (saveNew env doc).
Proof.
  intros Hk w. unfold saveNew. cbn.
  destruct (storeFault env _); [apply R_log |].
  destruct (store w !! txHash doc); [apply R_log |].
  apply R_trans with (log_event (EvInsert doc) w); [apply R_log |].
  apply (R_write (log_event (EvInsert doc) w) (txHash doc) doc Hk).
Qed.

Lemma within_save (h : string) (doc : TxDoc) :
  allowed h -> acts_within R (save env h doc).
Proof.
  intros Hk w. unfold save. cbn.
  destruct (storeFault env _); [apply R_log |].
  destruct (store w !! h); [| apply R_log].
  apply R_trans with (log_event (EvSave doc) w); [apply R_log |].
  apply (R_write (log_event (EvSave doc) w) h doc Hk).
Qed.

Lemma within_updateOne (h s : string) :
  allowed h -> acts_within R (TxHash_updateOne_notCompleted env h s).
Proof.
  intros Hk w. unfold TxHash_updateOne_notCompleted. cbn.
  destruct (storeFault env _); [apply R_log |].
  destruct (store w !! h) as [d |]; [| apply R_log].
  destruct (String.eqb (state d) "completed"); [apply R_log |].
  apply R_trans with (log_event (EvUpdateOne h s) w); [apply R_log |].
  apply (R_write (log_event (EvUpdateOne h s) w) h (set_state s d) Hk).
Qed.

Lemma within_updateTxState (h s : string) :
  allowed h -> acts_within R (updateTxState env h s).
Proof.
  intros Hk. unfold updateTxState. apply within_tryCatch.
  - apply within_updateOne. exact Hk.
  - intros e. apply within_consoleError.
Qed.

Lemma within_admin_deposit (h : string) (n p1 p2 tokenIndex amt : Z) :
  acts_within R (admin_deposit env h n p1 p2 tokenIndex amt).
Proof. intros w. unfold admin_deposit. apply within_remote. Qed.

Ltac within_step :=
  lazymatch goal with
  | |- forall _, _ => intro
  | |- acts_within _ (bind _ _) => apply within_bind
  | |- acts_within _ (tryCatch _ _) => apply within_tryCatch
  | |- acts_within _ (tryFinally _ _) => apply within_tryFinally
  | |- acts_within _ (ret _) => apply within_ret
  | |- acts_within _ (throw _) => apply within_throw
  | |- acts_within _ (processExit _) => apply within_processExit
  | |- acts_within _ (consoleError _) => apply within_consoleError
  | |- acts_within _ (emit _) => apply within_emit
  | |- acts_within _ (setProcessing _) => apply within_setProcessing
  | |- acts_within _ getProcessing => apply within_getProcessing
  | |- acts_within _ (clock _) => apply within_clock
  | |- acts_within _ (remote _ _) => apply within_remote
  | |- acts_within _ (TxHash_findOne _ _) => apply within_findOne
  | |- acts_within _ (saveNew _ _) => apply within_saveNew; assumption
  | |- acts_within _ (save _ _ _) => apply within_save; assumption
  | |- acts_within _ (updateTxState _ _ _) => apply within_updateTxState; assumption
  | |- acts_within _ (admin_deposit _ _ _ _ _ _ _) => apply within_admin_deposit
  | |- acts_within _ (match ?x with _ => _ end) => destruct x
  end.

Ltac within_auto := repeat within_step.

Lemma within_performDeposit (h : string) (n p1 p2 tokenIndex amt : Z) :
  allowed h -> acts_within R (performDeposit env h n p1 p2 tokenIndex amt).
Proof. intros Hk. unfold performDeposit. within_auto. Qed.

Lemma within_processTopUpEvent (event : EventLog) :
  allowed (transactionHash event) -> acts_within R (processTopUpEvent env event).
Proof.
  intros Hk.
  unfold processTopUpEvent, get_nonce, admin_getNonce, admin_checkDeposit,
      nonce_is_null.
  cbv zeta. within_auto; apply within_performDeposit; exact Hk.
Qed.

Lemma within_processHistoricalLogs (logs : list EventLog) :
  (forall k, allowed k) -> acts_within R (processHistoricalLogs env logs).
Proof.
  intros Hall. induction logs as [| log rest IH]; cbn [processHistoricalLogs].
  - apply within_ret.
  - unfold findTxByHash.
    within_auto; first [apply within_processTopUpEvent; apply Hall | exact IH].
Qed.

Lemma within_historicalLoop (fuel : nat) (fromBlock latestBlock : Z) :
  (forall k, allowed k) ->
  acts_within R (historicalLoop env fuel fromBlock latestBlock).
Proof.
  intros Hall. revert fromBlock. induction fuel as [| fuel IH]; intros fromBlock;
    cbn [historicalLoop].
  - apply within_ret.
  - cbv zeta.
    within_auto; first [apply within_processHistoricalLogs; exact Hall | apply IH].
Qed.

Lemma within_getHistoricalTopUpEvents (config_startBlock : option Z) :
  (forall k, allowed k) ->
  acts_within R (getHistoricalTopUpEvents env config_startBlock).
Proof.
  intros Hall. unfold getHistoricalTopUpEvents. cbv zeta.
  within_auto; apply within_historicalLoop; exact Hall.
Qed.

End Footprint.

Section Isolation.

Variable env : Env.

Lemma others_untouched_laws (k : string) :
  (forall w, others_untouched k w w)
  /\ (forall w1 w2 w3,
        others_untouched k w1 w2 -> others_untouched k w2 w3 ->
        others_untouched k w1 w3)
  /\ (forall w ev, others_untouched k w (log_event ev w))
  /\ (forall w b, others_untouched k w (mkWorld (store w) b (trace w)))
  /\ (forall w k' doc, k' = k ->
        others_untouched k w (with_store (<[k' := doc]> (store w)) w)).
Proof.
  unfold others_untouched. repeat split.
  - intros w1 w2 w3 H12 H23 k' Hne. rewrite H23, H12 by exact Hne. reflexivity.
  - intros w k' doc -> k'' Hne. cbn. apply lookup_insert_ne. congruence.
Qed.

Lemma none_deleted_laws :
  (forall w, none_deleted w w)
  /\ (forall w1 w2 w3, none_deleted w1 w2 -> none_deleted w2 w3 -> none_deleted w1 w3)
  /\ (forall w ev, none_deleted w (log_event ev w))
  /\ (forall w b, none_deleted w (mkWorld (store w) b (trace w)))
  /\ (forall w k' doc, True ->
        none_deleted w (with_store (<[k' := doc]> (store w)) w)).
Proof.
  unfold none_deleted. repeat split; auto.
  intros w k' doc _ k Hk. cbn.
  destruct (decide (k' = k)) as [-> | Hne].
  - rewrite lookup_insert_eq. eauto.
  - rewrite lookup_insert_ne by exact Hne. exact Hk.
Qed.

Lemma history_extended_laws :
  (forall w, history_extended w w)
  /\ (forall w1 w2 w3,
        history_extended w1 w2 -> history_extended w2 w3 -> history_extended w1 w3)
  /\ (forall w ev, history_extended w (log_event ev w))
  /\ (forall w b, history_extended w (mkWorld (store w) b (trace w)))
  /\ (forall w k' doc, True ->
        history_extended w (with_store (<[k' := doc]> (store w)) w)).
Proof.
  unfold history_extended. repeat split.
  - intros w. exists []. symmetry. apply app_nil_r.
  - intros w1 w2 w3 [e12 H12] [e23 H23]. exists (e12 ++ e23).
    rewrite H23, H12, app_assoc. reflexivity.
  - intros w ev. exists [ev]. reflexivity.
  - intros w b. exists []. symmetry. apply app_nil_r.
  - intros w k' doc _. exists []. symmetry. apply app_nil_r.
Qed.

(** X1: processing the event of one transaction, and submitting its
    deposit, reads and writes the document of that transaction only: every
    document tracked under another hash is afterwards exactly what it was,
    whatever the remote parties answer. *)
Theorem other_documents_untouched :
  (forall event w,
     others_untouched (transactionHash event) w
       (snd (processTopUpEvent env event w)))
  /\ (forall h n p1 p2 tokenIndex amt w,
        others_untouched h w (snd (performDeposit env h n p1 p2 tokenIndex amt w)))
  /\ (forall h s w, others_untouched h w (snd (updateTxState env h s w))).
Proof.
  split; [| split].
  - intros event w.
    destruct (others_untouched_laws (transactionHash event))
      as (Hr & Ht & Hl & Hf & Hw).
    apply (within_processTopUpEvent env _ (fun k' => k' = transactionHash event)
             Hr Ht Hl Hf Hw event eq_refl).
  - intros h n p1 p2 tokenIndex amt w.
    destruct (others_untouched_laws h) as (Hr & Ht & Hl & Hf & Hw).
    apply (within_performDeposit env _ (fun k' => k' = h) Hr Ht Hl Hf Hw
             h n p1 p2 tokenIndex amt eq_refl).
  - intros h s w.
    destruct (others_untouched_laws h) as (Hr & Ht & Hl & Hf & Hw).
    apply (within_updateTxState env _ (fun k' => k' = h) Ht Hl Hw h s eq_refl).
Qed.

(** X2: no operation of the service removes a tracked document: a hash
    that has a document before an event is processed, a deposit is
    submitted or the historical sweep runs still has one afterwards. *)
Theorem documents_never_deleted :
  (forall event w, none_deleted w (snd (processTopUpEvent env event w)))
  /\ (forall h n p1 p2 tokenIndex amt w,
        none_deleted w (snd (performDeposit env h n p1 p2 tokenIndex amt w)))
  /\ (forall config_startBlock w,
        none_deleted w (snd (getHistoricalTopUpEvents env config_startBlock w))).
Proof.
  destruct none_deleted_laws as (Hr & Ht & Hl & Hf & Hw).
  split; [| split].
  - intros event w.
    apply (within_processTopUpEvent env _ (fun _ => True) Hr Ht Hl Hf Hw event I).
  - intros h n p1 p2 tokenIndex amt w.
    apply (within_performDeposit env _ (fun _ => True) Hr Ht Hl Hf Hw
             h n p1 p2 tokenIndex amt I).
  - intros config_startBlock w.
    apply (within_getHistoricalTopUpEvents env _ (fun _ => True) Hr Ht Hl Hf Hw
             config_startBlock (fun _ => I)).
Qed.

(** The history is only ever added to. *)
Lemma history_only_grows :
  (forall event w, history_extended w (snd (processTopUpEvent env event w)))
  /\ (forall logs w, history_extended w (snd (processHistoricalLogs env logs w)))
  /\ (forall fuel fromBlock latestBlock w,
        history_extended w (snd (historicalLoop env fuel fromBlock latestBlock w))).
Proof.
  destruct history_extended_laws as (Hr & Ht & Hl & Hf & Hw).
  split; [| split].
  - intros event w.
    apply (within_processTopUpEvent env _ (fun _ => True) Hr Ht Hl Hf Hw event I).
  - intros logs w.
    apply (within_processHistoricalLogs env _ (fun _ => True) Hr Ht Hl Hf Hw
             logs (fun _ => I)).
  - intros fuel fromBlock latestBlock w.
    apply (within_historicalLoop env _ (fun _ => True) Hr Ht Hl Hf Hw
             fuel fromBlock latestBlock (fun _ => I)).
Qed.

End Isolation.

(** ** The submission path *)

Section Submission.

Variable env : Env.

Lemma count_deposits_app (t1 t2 : list Event) :
  count_deposits (t1 ++ t2) = (count_deposits t1 + count_deposits t2)%nat.
Proof. induction t1 as [| ev t1 IH]; cbn; [reflexivity | rewrite IH; lia]. Qed.

Lemma updateTxState_effect (h s : string) (w : World) :
  exists w', updateTxState env h s w = (Ret tt, w')
             /\ isProcessingDeposit w' = isProcessingDeposit w
             /\ count_deposits (trace w') = count_deposits (trace w).
Proof.
  unfold_service. cbn.
  case_split; eexists; repeat split; cbn;
    rewrite ?count_deposits_app; cbn; lia.
Qed.

Lemma performDeposit_flag (h : string) (n p1 p2 tokenIndex amt : Z) (w : World) :
  survives (fst (performDeposit env h n p1 p2 tokenIndex amt w)) ->
  isProcessingDeposit (snd (performDeposit env h n p1 p2 tokenIndex amt w)) = false.
Proof.
  unfold_service. cbn. case_split; cbn; intros Hs; try reflexivity; contradiction.
Qed.

Lemma performDeposit_count (h : string) (n p1 p2 tokenIndex amt : Z) (w : World) :
  (count_deposits (trace (snd (performDeposit env h n p1 p2 tokenIndex amt w)))
   <= count_deposits (trace w) + 1)%nat.
Proof.
  unfold_service. cbn. case_split; cbn; rewrite ?count_deposits_app; cbn; lia.
Qed.

Ltac unfold_outer :=
  unfold processTopUpEvent, get_nonce, TxHash_findOne, save, saveNew,
    admin_getNonce, admin_checkDeposit, nonce_is_null, remote, clock,
    consoleError, emit, tryCatch, bind, ret, throw, processExit, log_event,
    with_store;
  cbn -[performDeposit updateTxState].

Ltac split_outer :=
  repeat (first
            [ rewrite lookup_insert_eq
            | match goal with
              | |- context [match ?x with _ => _ end] =>
                  lazymatch x with
                  | context [match _ with _ => _ end] => fail
                  | _ => destruct x eqn:?
                  end
              end ];
          cbn -[performDeposit updateTxState]).

(** What the calls to [updateTxState] and [performDeposit] met on a path
    did to the flag and to the number of submissions. *)
Ltac callee_facts :=
  repeat match goal with
         | H : updateTxState ?e ?h ?s ?wx = (_, _) |- _ =>
             let w' := fresh "w'" in
             let E := fresh "E" in
             let Hf := fresh "Hflag" in
             let Hc := fresh "Hcount" in
             destruct (updateTxState_effect h s wx) as (w' & E & Hf & Hc);
             rewrite E in H; clear E; simplify_eq
         | H : performDeposit ?e ?h ?n ?p1 ?p2 ?i ?a ?wx = (_, _) |- _ =>
             let Hf := fresh "Hflag" in
             let Hc := fresh "Hcount" in
             pose proof (performDeposit_flag h n p1 p2 i a wx) as Hf;
             pose proof (performDeposit_count h n p1 p2 i a wx) as Hc;
             rewrite H in Hf, Hc; clear H
         end.

Lemma processTopUpEvent_count (event : EventLog) (w : World) :
  (count_deposits (trace (snd (processTopUpEvent env event w)))
   <= count_deposits (trace w) + 1)%nat.
Proof.
  unfold_outer. split_outer; callee_facts; cbn in *;
    rewrite ?count_deposits_app in *; cbn in *; lia.
Qed.

Lemma processTopUpEvent_flag (event : EventLog) (w : World) :
  isProcessingDeposit w = false ->
  survives (fst (processTopUpEvent env event w)) ->
  isProcessingDeposit (snd (processTopUpEvent env event w)) = false.
Proof.
  intros Hidle. unfold_outer.
  split_outer; callee_facts; cbn in *; intros Hs;
    try contradiction;
    repeat match goal with
           | H : True -> _ |- _ => specialize (H I)
           end;
    congruence.
Qed.

End Submission.

Section SubmissionOutcomes.

Variable env : Env.

(** X3: the reentrancy flag is released on every way out of
    [performDeposit] other than the end of the process, and an event processed
    from an idle submission path leaves the path idle again unless the process
    ended. *)
Theorem submission_flag_released :
  (forall h n p1 p2 tokenIndex amt w,
     survives (fst (performDeposit env h n p1 p2 tokenIndex amt w)) ->
     isProcessingDeposit (snd (performDeposit env h n p1 p2 tokenIndex amt w))
     = false)
  /\ (forall event w,
        isProcessingDeposit w = false ->
        survives (fst (processTopUpEvent env event w)) ->
        isProcessingDeposit (snd (processTopUpEvent env event w)) = false).
Proof.
  split.
  - exact (performDeposit_flag env).
  - exact (processTopUpEvent_flag env).
Qed.

(** X4: one delivery of an event submits at most one deposit to L2, and
    so does one call of [performDeposit], whatever the store and the remote
    parties answer. *)
Theorem at_most_one_deposit_per_event :
  (forall event w,
     (count_deposits (trace (snd (processTopUpEvent env event w)))
      <= count_deposits (trace w) + 1)%nat)
  /\ (forall h n p1 p2 tokenIndex amt w,
        (count_deposits (trace (snd (performDeposit env h n p1 p2 tokenIndex amt w)))
         <= count_deposits (trace w) + 1)%nat).
Proof.
  split.
  - exact (processTopUpEvent_count env).
  - exact (performDeposit_count env).
Qed.

Section Outcomes.

Variable h : string.
Variables n p1 p2 tokenIndex amt : Z.
Variable d : TxDoc.
Variable w : World.

Hypothesis Hstore : forall history, storeFault env history = None.
Hypothesis Hidle : isProcessingDeposit w = false.
Hypothesis Hd : store w !! h = Some d.
Hypothesis Hopen : state d <> "completed".

Local Abbreviation submitted :=
  (trace w ++ [EvFindOne h; EvDeposit n p1 p2 tokenIndex amt (Some d)]).

Ltac enter_deposit :=
  apply String.eqb_neq in Hopen;
  unfold_service; cbn;
  rewrite Hidle; cbn;
  rewrite Hstore, Hd; cbn; rewrite Hopen; cbn;
  flatten_history; rewrite ?Hd.

Ltac deposit_steps :=
  do 6 (cbn; rewrite ?Hstore, ?lookup_insert_eq, ?Hd, ?Hopen; flatten_history).

Lemma performDeposit_accepted :
  deposit env submitted = Resolved true ->
  performDeposit env h n p1 p2 tokenIndex amt w
  = (Ret true,
     mkWorld (<[h := set_state "completed" d]> (store w)) false
       (submitted ++ [EvUpdateOne h "completed"])).
Proof.
  intros Hdep. enter_deposit. rewrite Hdep. deposit_steps. reflexivity.
Qed.

Lemma performDeposit_refused :
  deposit env submitted = Resolved false ->
  performDeposit env h n p1 p2 tokenIndex amt w
  = (Throw ("Deposit failed for transaction " ++ h),
     mkWorld (<[h := set_state "failed" d]> (store w)) false
       (submitted
        ++ [EvUpdateOne h "failed";
            EvConsoleError ("Error during deposit: "
                            ++ ("Deposit failed for transaction " ++ h));
            EvFindOne h; EvUpdateOne h "failed"])).
Proof.
  intros Hdep. enter_deposit. rewrite Hdep. deposit_steps.
  rewrite insert_insert_eq. reflexivity.
Qed.

Lemma performDeposit_rejected (e : string) :
  deposit env submitted = Rejected e ->
  performDeposit env h n p1 p2 tokenIndex amt w
  = (Throw e,
     mkWorld (<[h := set_state "failed" d]> (store w)) false
       (submitted
        ++ [EvConsoleError ("Error during deposit: " ++ e);
            EvFindOne h; EvUpdateOne h "failed"])).
Proof.
  intros Hdep. enter_deposit. rewrite Hdep. deposit_steps. reflexivity.
Qed.

(** X5: with the store answering, the submission path idle and the
    document not yet completed, [performDeposit] ends in one of three ways.
    An accepted deposit returns [true] and leaves the document 'completed'.
    A deposit that resolves to a falsy result, or that rejects, leaves the
    document 'failed' and throws (the rejection itself, or "Deposit failed
    for transaction <hash>").  In all three the flag is released and exactly
    one deposit was submitted. *)
Theorem performDeposit_outcomes :
  (deposit env submitted = Resolved true ->
   performDeposit env h n p1 p2 tokenIndex amt w
   = (Ret true,
      mkWorld (<[h := set_state "completed" d]> (store w)) false
        (submitted ++ [EvUpdateOne h "completed"])))
  /\ (deposit env submitted = Resolved false ->
      performDeposit env h n p1 p2 tokenIndex amt w
      = (Throw ("Deposit failed for transaction " ++ h),
         mkWorld (<[h := set_state "failed" d]> (store w)) false
           (submitted
            ++ [EvUpdateOne h "failed";
                EvConsoleError ("Error during deposit: "
                                ++ ("Deposit failed for transaction " ++ h));
                EvFindOne h; EvUpdateOne h "failed"])))
  /\ (forall e,
        deposit env submitted = Rejected e ->
        performDeposit env h n p1 p2 tokenIndex amt w
        = (Throw e,
           mkWorld (<[h := set_state "failed" d]> (store w)) false
             (submitted
              ++ [EvConsoleError ("Error during deposit: " ++ e);
                  EvFindOne h; EvUpdateOne h "failed"]))).
Proof.
  split; [exact performDeposit_accepted |].
  split; [exact performDeposit_refused | exact performDeposit_rejected].
Qed.

End Outcomes.

End SubmissionOutcomes.

(** ** Paths of processTopUpEvent *)

Section Unattributable.

Variable env : Env.
Variable event : EventLog.
Variable w : World.

(** X6: an event that cannot be attributed is dropped before the store
    is consulted.  If its log does not decode, the error is logged and "Failed
    to decode event" is thrown; if the token list cannot be fetched, that
    rejection is thrown; if the token is not in the list, the call returns.
    In each case no document is read or written and nothing is sent to L2. *)
Theorem unattributable_event_dropped :
  (decoded event = None ->
   processTopUpEvent env event w
   = (Throw "Failed to decode event",
      log_event (EvConsoleError "Failed to decode event") w))
  /\ (forall args e,
        decoded event = Some args ->
        allTokens env (trace w ++ [EvAllTokens]) = Rejected e ->
        processTopUpEvent env event w = (Throw e, log_event EvAllTokens w))
  /\ (forall args tokens,
        decoded event = Some args ->
        allTokens env (trace w ++ [EvAllTokens]) = Resolved tokens ->
        getTokenIndex (arg_l1token args) tokens = None ->
        processTopUpEvent env event w = (Ret tt, log_event EvAllTokens w)).
Proof.
  split; [| split].
  - intros Hdec. unfold_service. cbn. rewrite Hdec. reflexivity.
  - intros args e Hdec Htok. unfold_service. cbn. rewrite Hdec. cbn.
    rewrite Htok. reflexivity.
  - intros args tokens Hdec Htok Hidx. unfold_service. cbn. rewrite Hdec. cbn.
    rewrite Htok. cbn. rewrite Hidx. reflexivity.
Qed.

End Unattributable.

Lemma unattributable_event_dropped_witness :
  processTopUpEvent (steadyEnv ["S"] (Some 7) None true 0)
    (sampleEvent (2 * 10 ^ 18)) (sampleWorld "failed" (Some 5))
  = (Ret tt, mkWorld {[ "0xabc" := sampleDoc "failed" (Some 5) ]} false [EvAllTokens])
  /\ processTopUpEvent (steadyEnv ["T"] (Some 7) None true 0)
       (mkEventLog "0xabc" 10 None) emptyWorld
     = (Throw "Failed to decode event",
        mkWorld ∅ false [EvConsoleError "Failed to decode event"]).
Proof.
  split.
  - exact (proj2 (proj2 (unattributable_event_dropped
                           (steadyEnv ["S"] (Some 7) None true 0)
                           (sampleEvent (2 * 10 ^ 18))
                           (sampleWorld "failed" (Some 5))))
             (mkTopUpArgs "T" "U" 1 2 (2 * 10 ^ 18)) ["S"] eq_refl eq_refl eq_refl).
  - exact (proj1 (unattributable_event_dropped
                    (steadyEnv ["T"] (Some 7) None true 0)
                    (mkEventLog "0xabc" 10 None) emptyWorld) eq_refl).
Defined.

Section KnownEvent.

Variable env : Env.
Variable event : EventLog.
Variable args : TopUpArgs.
Variable tokens : list string.
Variable tokenindex : Z.
Variable w : World.

Hypothesis Hdecoded : decoded event = Some args.
Hypothesis Htokens : allTokens env (trace w ++ [EvAllTokens]) = Resolved tokens.
Hypothesis Hindex : getTokenIndex (arg_l1token args) tokens = Some tokenindex.
Hypothesis Hstore : forall history, storeFault env history = None.
Hypothesis Hidle : isProcessingDeposit w = false.

Local Abbreviation h := (transactionHash event).
Local Abbreviation p1 := (arg_pid_1 args).
Local Abbreviation p2 := (arg_pid_2 args).
Local Abbreviation amt := (amountInEtherOf (arg_amount args)).
Local Abbreviation looked := (trace w ++ [EvAllTokens; EvFindOne (transactionHash event)]).

Ltac enter_known :=
  unfold_service; cbn;
  rewrite Hdecoded; cbn;
  rewrite Htokens; cbn;
  rewrite Hindex; cbn;
  flatten_history; rewrite Hstore; cbn.

Ltac known_steps :=
  do 12 (cbn; rewrite ?Hstore, ?lookup_insert_eq, ?Hidle; flatten_history).

Section PendingDocument.

Variable tx : TxDoc.
Variable n : Z.

Hypothesis Hpending : store w !! h = Some tx.
Hypothesis Hstate : state tx = "pending".
Hypothesis Hnonce : getNonce env (looked ++ [EvGetNonce]) = Resolved (Some n).

Lemma pending_dust_completed :
  amt < 1 ->
  processTopUpEvent env event w
  = (Ret tt,
     mkWorld (<[h := set_state "completed" (set_nonce n tx)]> (store w)) false
       (looked ++ [EvGetNonce; EvSave (set_nonce n tx);
                   EvUpdateOne h "completed"])).
Proof.
  intros Hdust. flatten_history_in Hnonce.
  enter_known. rewrite Hpending. cbn. rewrite Hstate. cbn.
  flatten_history. rewrite Hnonce. cbn.
  rewrite Hstore, Hpending. cbn.
  destruct (Z.ltb_spec amt 1) as [_ | Hge]; [| lia].
  known_steps. rewrite Hstate. known_steps.
  rewrite insert_insert_eq. reflexivity.
Qed.

Lemma pending_whole_credited :
  1 <= amt ->
  let marked := set_state "in-progress" (set_nonce n tx) in
  let before := looked ++ [EvGetNonce; EvSave (set_nonce n tx); EvSave marked;
                           EvFindOne h] in
  let call := EvDeposit (asUintN 64 n) p1 p2 tokenindex amt (Some marked) in
  deposit env (before ++ [call]) = Resolved true ->
  processTopUpEvent env event w
  = (Ret tt,
     mkWorld (<[h := set_state "completed" marked]> (store w)) false
       (before ++ [call; EvUpdateOne h "completed"])).
Proof.
  intros Hamt marked before call Hdep. subst marked before call.
  flatten_history_in Hnonce. flatten_history_in Hdep.
  enter_known. rewrite Hpending. cbn. rewrite Hstate. cbn.
  flatten_history. rewrite Hnonce. cbn.
  rewrite Hstore, Hpending. cbn.
  destruct (Z.ltb_spec amt 1) as [Hlt | _]; [lia |].
  known_steps. rewrite Hdep. known_steps.
  rewrite !insert_insert_eq. reflexivity.
Qed.

(** X7: a document found 'pending' first gets a nonce, fetched and
    saved, whatever the amount.  Below one whole unit it is then marked
    'completed' and nothing is submitted; from one unit on it is saved as
    'in-progress' and only then submitted, and an accepted deposit leaves it
    'completed'. *)
Theorem pending_document_processed :
  (amt < 1 ->
   processTopUpEvent env event w
   = (Ret tt,
      mkWorld (<[h := set_state "completed" (set_nonce n tx)]> (store w)) false
        (looked ++ [EvGetNonce; EvSave (set_nonce n tx);
                    EvUpdateOne h "completed"])))
  /\ (1 <= amt ->
      let marked := set_state "in-progress" (set_nonce n tx) in
      let before := looked ++ [EvGetNonce; EvSave (set_nonce n tx); EvSave marked;
                               EvFindOne h] in
      let call := EvDeposit (asUintN 64 n) p1 p2 tokenindex amt (Some marked) in
      deposit env (before ++ [call]) = Resolved true ->
      processTopUpEvent env event w
      = (Ret tt,
         mkWorld (<[h := set_state "completed" marked]> (store w)) false
           (before ++ [call; EvUpdateOne h "completed"]))).
Proof.
  split; [exact pending_dust_completed | exact pending_whole_credited].
Qed.

End PendingDocument.

Section FirstDelivery.

Variable n : Z.
Variable e : string.

Hypothesis Huntracked : store w !! h = None.
Hypothesis Hamt : 1 <= amt.

Local Abbreviation fresh :=
  (mkTxDoc h "pending" (now env looked) (arg_l1token args) (arg_address args)
     None p1 p2 amt 0 None).
Local Abbreviation marked := (set_state "in-progress" (set_nonce n fresh)).
Local Abbreviation call :=
  (EvDeposit (asUintN 64 n) p1 p2 tokenindex amt (Some marked)).
Local Abbreviation attempted :=
  (looked ++ [EvInsert fresh; EvGetNonce; EvSave (set_nonce n fresh);
              EvSave marked; EvFindOne h; call]).

Hypothesis Hnonce :
  getNonce env (looked ++ [EvInsert fresh; EvGetNonce]) = Resolved (Some n).
Hypothesis Hdeposit : deposit env attempted = Rejected e.

Lemma first_deposit_rejected :
  processTopUpEvent env event w
  = (Throw e,
     mkWorld (<[h := set_state "failed" marked]> (store w)) false
       (attempted
        ++ [EvConsoleError ("Error during deposit: " ++ e);
            EvFindOne h; EvUpdateOne h "failed";
            EvConsoleError ("Error during deposit processing: " ++ e);
            EvUpdateOne h "failed"])).
Proof.
  flatten_history_in Hnonce. flatten_history_in Hdeposit.
  enter_known. rewrite Huntracked.
  destruct (Z.ltb_spec amt 1) as [Hlt | _]; [lia |].
  cbn. rewrite Hstore, Huntracked. cbn.
  flatten_history. rewrite Hnonce.
  known_steps. rewrite Hdeposit. known_steps.
  rewrite !insert_insert_eq. reflexivity.
Qed.

Local Abbreviation after_first := (snd (processTopUpEvent env event w)).
Local Abbreviation check :=
  (EvCheckDeposit (asUintN 64 n) p1 p2 tokenindex amt).

(** X8: a first delivery whose deposit is rejected leaves the document
    'failed', with the nonce it was submitted under, and throws the
    rejection.  When the event is delivered again and [checkDeposit] finds the
    deposit on L2 under that nonce, the document becomes 'completed' without
    another submission: over the two deliveries exactly one deposit was
    submitted. *)
Theorem rejected_deposit_then_verified :
  processTopUpEvent env event w
  = (Throw e,
     mkWorld (<[h := set_state "failed" marked]> (store w)) false
       (attempted
        ++ [EvConsoleError ("Error during deposit: " ++ e);
            EvFindOne h; EvUpdateOne h "failed";
            EvConsoleError ("Error during deposit processing: " ++ e);
            EvUpdateOne h "failed"]))
  /\ (forall data,
        allTokens env (trace after_first ++ [EvAllTokens]) = Resolved tokens ->
        checkDeposit env (trace after_first ++ [EvAllTokens; EvFindOne h; check])
          = Resolved (Some data) ->
        processTopUpEvent env event after_first
        = (Ret tt,
           mkWorld (<[h := set_state "completed" marked]> (store w)) false
             (trace after_first
              ++ [EvAllTokens; EvFindOne h; check; EvUpdateOne h "completed"]))
        /\ count_deposits (trace (snd (processTopUpEvent env event after_first)))
           = (count_deposits (trace w) + 1)%nat).
Proof.
  split; [exact first_deposit_rejected |].
  rewrite first_deposit_rejected. cbn [snd].
  intros data Htok2 Hcheck.
  match goal with
  | |- processTopUpEvent env event ?w1 = _ /\ _ =>
      pose proof (verified_marks_completed env event args tokens tokenindex w1
                    Hdecoded Htok2 Hindex (Hstore _)
                    (set_state "failed" marked) n
                    (lookup_insert_eq _ _ _) (or_intror eq_refl) eq_refl
                    data Hcheck (Hstore _)) as Hrun
  end.
  cbn in Hrun. rewrite insert_insert_eq in Hrun.
  split.
  - rewrite Hrun. cbn. flatten_history. reflexivity.
  - rewrite Hrun. cbn. rewrite !count_deposits_app. cbn. lia.
Qed.

End FirstDelivery.

End KnownEvent.

Lemma submission_flag_released_witness :
  isProcessingDeposit
    (snd (processTopUpEvent (depositEnv ["T"] (Some 6) None (Rejected "timeout"))
            (sampleEvent (2 * 10 ^ 18)) emptyWorld)) = false.
Proof.
  apply (proj2 (submission_flag_released
                  (depositEnv ["T"] (Some 6) None (Rejected "timeout")))).
  - reflexivity.
  - vm_compute. exact I.
Defined.

Lemma performDeposit_outcomes_witness :
  performDeposit (depositEnv ["T"] (Some 6) None (Resolved false)) "0xabc" 5 1 2 0 2
    (sampleWorld "in-progress" (Some 5))
  = (Throw "Deposit failed for transaction 0xabc",
     mkWorld {[ "0xabc" := sampleDoc "failed" (Some 5) ]} false
       [EvFindOne "0xabc";
        EvDeposit 5 1 2 0 2 (Some (sampleDoc "in-progress" (Some 5)));
        EvUpdateOne "0xabc" "failed";
        EvConsoleError "Error during deposit: Deposit failed for transaction 0xabc";
        EvFindOne "0xabc"; EvUpdateOne "0xabc" "failed"]).
Proof.
  pose proof (performDeposit_outcomes
                (depositEnv ["T"] (Some 6) None (Resolved false)) "0xabc" 5 1 2 0 2
                (sampleDoc "in-progress" (Some 5))
                (sampleWorld "in-progress" (Some 5))
                (fun _ => eq_refl) eq_refl eq_refl
                ltac:(intros Hs; discriminate Hs))
    as (_ & Hrefused & _).
  exact (Hrefused eq_refl).
Defined.

Lemma pending_document_processed_witness :
  processTopUpEvent (steadyEnv ["T"] (Some 6) None true 0)
    (sampleEvent (10 ^ 17)) (sampleWorld "pending" None)
  = (Ret tt,
     mkWorld {[ "0xabc" := sampleDoc "completed" (Some 6) ]} false
       [EvAllTokens; EvFindOne "0xabc"; EvGetNonce;
        EvSave (sampleDoc "pending" (Some 6));
        EvUpdateOne "0xabc" "completed"]).
Proof.
  pose proof (pending_document_processed (steadyEnv ["T"] (Some 6) None true 0)
                (sampleEvent (10 ^ 17)) (mkTopUpArgs "T" "U" 1 2 (10 ^ 17))
                ["T"] 0 (sampleWorld "pending" None)
                eq_refl eq_refl eq_refl (fun _ => eq_refl) eq_refl
                (sampleDoc "pending" None) 6 eq_refl eq_refl eq_refl)
    as (Hdust & _).
  exact (Hdust ltac:(vm_compute; reflexivity)).
Defined.

Lemma rejected_deposit_then_verified_witness :
  count_deposits
    (trace (snd (processTopUpEvent
                   (depositEnv ["T"] (Some 6) (Some "credited") (Rejected "timeout"))
                   (sampleEvent (2 * 10 ^ 18))
                   (snd (processTopUpEvent
                           (depositEnv ["T"] (Some 6) (Some "credited")
                              (Rejected "timeout"))
                           (sampleEvent (2 * 10 ^ 18)) emptyWorld)))))
  = 1%nat.
Proof.
  pose proof (rejected_deposit_then_verified
                (depositEnv ["T"] (Some 6) (Some "credited") (Rejected "timeout"))
                (sampleEvent (2 * 10 ^ 18)) (mkTopUpArgs "T" "U" 1 2 (2 * 10 ^ 18))
                ["T"] 0 emptyWorld
                eq_refl eq_refl eq_refl (fun _ => eq_refl) eq_refl
                6 "timeout" eq_refl ltac:(vm_compute; discriminate)
                eq_refl eq_refl)
    as (_ & Hsecond).
  exact (proj2 (Hsecond "credited" eq_refl eq_refl)).
Defined.

(** ** The token index *)

Section TokenIndex.

Lemma getTokenIndex_from_found (i : Z) (l1tok : string) (tokens : list string) (j : Z) :
  getTokenIndex_from i l1tok tokens = Some j ->
  exists pos : nat,
    j = i + Z.of_nat pos
    /\ tokens !! pos = Some l1tok
    /\ forall pos', (pos' < pos)%nat -> tokens !! pos' <> Some l1tok.
Proof.
  revert i. induction tokens as [| token_uid rest IH]; intros i; cbn.
  - intros Hnone. discriminate Hnone.
  - destruct (String.eqb_spec l1tok token_uid) as [-> | Hne].
    + intros [= <-]. exists 0%nat. repeat split; [lia |].
      intros pos' Hlt. lia.
    + intros Hrest. destruct (IH _ Hrest) as (pos & -> & Hpos & Hfirst).
      exists (S pos). repeat split; [lia | exact Hpos |].
      intros [| pos'] Hlt; cbn.
      * congruence.
      * apply Hfirst. lia.
Qed.

Lemma getTokenIndex_from_first (i : Z) (l1tok : string) (tokens : list string) (pos : nat) :
  tokens !! pos = Some l1tok ->
  (forall pos', (pos' < pos)%nat -> tokens !! pos' <> Some l1tok) ->
  getTokenIndex_from i l1tok tokens = Some (i + Z.of_nat pos).
Proof.
  revert i pos. induction tokens as [| token_uid rest IH]; intros i pos Hpos Hfirst.
  - destruct pos; discriminate Hpos.
  - cbn. destruct (String.eqb_spec l1tok token_uid) as [-> | Hne].
    + destruct pos as [| pos]; [f_equal; lia |].
      exfalso. apply (Hfirst 0%nat); [lia | reflexivity].
    + destruct pos as [| pos]; cbn in Hpos; [congruence |].
      rewrite (IH (i + 1) pos Hpos).
      * f_equal. lia.
      * intros pos' Hlt. apply (Hfirst (S pos')). lia.
Qed.

Lemma getTokenIndex_from_absent (i : Z) (l1tok : string) (tokens : list string) :
  getTokenIndex_from i l1tok tokens = None <-> l1tok ∉ tokens.
Proof.
  revert i. induction tokens as [| token_uid rest IH]; intros i; cbn.
  - split; [intros _ Hin; inversion Hin | reflexivity].
  - rewrite not_elem_of_cons.
    destruct (String.eqb_spec l1tok token_uid) as [-> | Hne].
    + split; [intros Hs; discriminate Hs | intros [Hne _]; congruence].
    + rewrite IH. tauto.
Qed.

(** X9: [getTokenIndex] returns the position of the first entry of the
    token list equal to the event's token (so the lower index when the token
    is listed twice), counted from 0, and [null] exactly when the token is
    not in the list. *)
Theorem getTokenIndex_first_match (l1tok : string) (tokens : list string) :
  (forall j,
     getTokenIndex l1tok tokens = Some j <->
     exists pos : nat,
       j = Z.of_nat pos
       /\ tokens !! pos = Some l1tok
       /\ forall pos', (pos' < pos)%nat -> tokens !! pos' <> Some l1tok)
  /\ (getTokenIndex l1tok tokens = None <-> l1tok ∉ tokens).
Proof.
  unfold getTokenIndex. split.
  - intros j. split.
    + intros Hfound.
      destruct (getTokenIndex_from_found _ _ _ _ Hfound) as (pos & -> & Hpos & Hfirst).
      exists pos. repeat split; assumption.
    + intros (pos & -> & Hpos & Hfirst).
      rewrite (getTokenIndex_from_first 0 _ _ pos Hpos Hfirst). reflexivity.
  - apply getTokenIndex_from_absent.
Qed.

End TokenIndex.

(** ** The historical sweep: failures and skips *)

Section SweepFailures.

Variable env : Env.

Lemma never_throws_bind {A B} (m : M A) (k : A -> M B) :
  never_throws m -> (forall a, never_throws (k a)) -> never_throws (bind m k).
Proof.
  intros Hm Hk w e. unfold bind. specialize (Hm w).
  destruct (m w) as [[a | e' | c] w']; cbn in *.
  - apply Hk.
  - exfalso. exact (Hm e' eq_refl).
  - discriminate.
Qed.

Lemma never_throws_logged {A} (body : M A) (handler : string -> M A) :
  (forall e, never_throws (handler e)) -> never_throws (tryCatch body handler).
Proof.
  intros Hh w e. unfold tryCatch.
  destruct (body w) as [[a | e' | c] w']; cbn; try discriminate.
  apply Hh.
Qed.

Lemma never_throws_consoleError (msg : string) : never_throws (consoleError msg).
Proof. intros w e. discriminate. Qed.

Lemma never_throws_ret {A} (a : A) : never_throws (ret a).
Proof. intros w e. discriminate. Qed.

Lemma processHistoricalLogs_never_throws (logs : list EventLog) :
  never_throws (processHistoricalLogs env logs).
Proof.
  induction logs as [| log rest IH]; cbn [processHistoricalLogs].
  - apply never_throws_ret.
  - apply never_throws_bind; [| intros _; exact IH].
    apply never_throws_logged. intros e. apply never_throws_consoleError.
Qed.

Lemma historicalLoop_never_throws (fuel : nat) (fromBlock latestBlock : Z) :
  never_throws (historicalLoop env fuel fromBlock latestBlock).
Proof.
  revert fromBlock. induction fuel as [| fuel IH]; intros fromBlock;
    cbn [historicalLoop].
  - apply never_throws_ret.
  - destruct (fromBlock <? latestBlock); [| apply never_throws_ret].
    cbv zeta. apply never_throws_bind; [| intros _; apply IH].
    apply never_throws_logged. intros e. apply never_throws_consoleError.
Qed.

Lemma getHistoricalTopUpEvents_never_throws (config_startBlock : option Z) :
  never_throws (getHistoricalTopUpEvents env config_startBlock).
Proof.
  unfold getHistoricalTopUpEvents. apply never_throws_logged.
  intros e. apply never_throws_consoleError.
Qed.

Lemma sweep_event_failure_continues
    (log : EventLog) (rest : list EventLog) (w w' : World) (e : string) :
  storeFault env (trace w ++ [EvFindOne (transactionHash log)]) = None ->
  needs_processing (store w !! transactionHash log) = true ->
  processTopUpEvent env log (log_event (EvFindOne (transactionHash log)) w)
    = (Throw e, w') ->
  processHistoricalLogs env (log :: rest) w
  = processHistoricalLogs env rest
      (log_event (EvConsoleError ("Error processing individual event "
                                  ++ transactionHash log ++ ": " ++ e)) w').
Proof.
  intros Hfind Hneeds Hrun. cbn [processHistoricalLogs].
  unfold findTxByHash, TxHash_findOne, tryCatch, bind.
  cbn -[processTopUpEvent processHistoricalLogs].
  rewrite Hfind, Hneeds, Hrun. reflexivity.
Qed.

Lemma sweep_batch_failure_continues
    (fuel : nat) (fromBlock latestBlock : Z) (w : World) (e : string) :
  fromBlock < latestBlock ->
  getLogs env (trace w ++ [EvGetLogs fromBlock
                             (Z.min (fromBlock + batchSize - 1) latestBlock)])
    = Rejected e ->
  historicalLoop env (S fuel) fromBlock latestBlock w
  = historicalLoop env fuel (fromBlock + batchSize) latestBlock
      (mkWorld (store w) (isProcessingDeposit w)
         (trace w ++ [EvGetLogs fromBlock
                        (Z.min (fromBlock + batchSize - 1) latestBlock);
                      EvConsoleError
                        ("Error processing batch " ++ numberToString fromBlock
                         ++ "-"
                         ++ numberToString
                              (Z.min (fromBlock + batchSize - 1) latestBlock)
                         ++ ": " ++ e)])).
Proof.
  intros Hlt Hlogs. cbn [historicalLoop].
  destruct (Z.ltb_spec fromBlock latestBlock) as [_ | Hge]; [| lia].
  unfold tryCatch, bind, remote.
  cbn -[historicalLoop processHistoricalLogs].
  rewrite Hlogs. cbn -[historicalLoop]. unfold log_event. cbn -[historicalLoop].
  flatten_history. reflexivity.
Qed.

(** X10: the historical sweep never throws.  A provider that cannot tell
    the head, a batch whose logs cannot be fetched and an event whose
    processing throws are each logged, and the sweep goes on with the next
    batch or the next event; only the end of the process stops it. *)
Theorem historical_sweep_never_throws :
  (forall config_startBlock,
     never_throws (getHistoricalTopUpEvents env config_startBlock))
  /\ (forall config_startBlock w e,
        getBlockNumber env (trace w ++ [EvGetBlockNumber]) = Rejected e ->
        getHistoricalTopUpEvents env config_startBlock w
        = (Ret tt,
           mkWorld (store w) (isProcessingDeposit w)
             (trace w ++ [EvGetBlockNumber;
                          EvConsoleError
                            ("Error retrieving historical TopUp events: " ++ e)])))
  /\ (forall fuel fromBlock latestBlock w e,
        fromBlock < latestBlock ->
        getLogs env (trace w ++ [EvGetLogs fromBlock
                                   (Z.min (fromBlock + batchSize - 1) latestBlock)])
          = Rejected e ->
        historicalLoop env (S fuel) fromBlock latestBlock w
        = historicalLoop env fuel (fromBlock + batchSize) latestBlock
            (mkWorld (store w) (isProcessingDeposit w)
               (trace w ++ [EvGetLogs fromBlock
                              (Z.min (fromBlock + batchSize - 1) latestBlock);
                            EvConsoleError
                              ("Error processing batch "
                               ++ numberToString fromBlock ++ "-"
                               ++ numberToString
                                    (Z.min (fromBlock + batchSize - 1) latestBlock)
                               ++ ": " ++ e)])))
  /\ (forall log rest w w' e,
        storeFault env (trace w ++ [EvFindOne (transactionHash log)]) = None ->
        needs_processing (store w !! transactionHash log) = true ->
        processTopUpEvent env log (log_event (EvFindOne (transactionHash log)) w)
          = (Throw e, w') ->
        processHistoricalLogs env (log :: rest) w
        = processHistoricalLogs env rest
            (log_event (EvConsoleError ("Error processing individual event "
                                        ++ transactionHash log ++ ": " ++ e)) w')).
Proof.
  split; [exact getHistoricalTopUpEvents_never_throws |].
  split.
  - intros config_startBlock w e Hhead.
    unfold getHistoricalTopUpEvents, tryCatch, bind, remote. cbn.
    rewrite Hhead. unfold consoleError, emit, log_event. cbn.
    flatten_history. reflexivity.
  - split; [exact sweep_batch_failure_continues | exact sweep_event_failure_continues].
Qed.

(** A sweep whose log queries are all rejected: each batch is logged with
    its block range and the sweep returns. *)
Example sweep_batch_error_lines :
  getHistoricalTopUpEvents (logsFailEnv 30000) (Some 0) emptyWorld
  = (Ret tt,
     mkWorld ∅ false
       [EvGetBlockNumber;
        EvGetLogs 0 24999;
        EvConsoleError "Error processing batch 0-24999: rate limited";
        EvGetLogs 25000 30000;
        EvConsoleError "Error processing batch 25000-30000: rate limited"]).
Proof. vm_compute. reflexivity. Qed.

(** X11: the sweep hands an event to [processTopUpEvent] only when its
    transaction has no document or one that is 'pending', 'in-progress' or
    'failed'.  A document in any other state, 'completed' or not one of the
    four, is skipped after the lookup: the token list is not fetched, nothing
    is written, and the next event is taken. *)
Theorem sweep_skips_settled_documents
    (log : EventLog) (rest : list EventLog) (d : TxDoc) (w : World) :
  storeFault env (trace w ++ [EvFindOne (transactionHash log)]) = None ->
  store w !! transactionHash log = Some d ->
  state d = "completed" \/ unexpected_state d ->
  processHistoricalLogs env (log :: rest) w
  = processHistoricalLogs env rest (log_event (EvFindOne (transactionHash log)) w).
Proof.
  intros Hfind Hd Hstate. cbn [processHistoricalLogs].
  unfold findTxByHash, TxHash_findOne, tryCatch, bind.
  cbn -[processTopUpEvent processHistoricalLogs].
  rewrite Hfind, Hd.
  assert (Hskip : needs_processing (Some d) = false).
  { cbn. destruct Hstate as [-> | (Hp & Hi & _ & Hf)]; [reflexivity |].
    apply String.eqb_neq in Hp, Hi, Hf. rewrite Hp, Hi, Hf. reflexivity. }
  rewrite Hskip. reflexivity.
Qed.

(** X12: a configured start block beyond the head makes the sweep return
    right after it has read the head: no log is queried and nothing is
    processed. *)
Theorem historical_sweep_skipped_past_head (configured head : Z) (w : World) :
  getBlockNumber env (trace w ++ [EvGetBlockNumber]) = Resolved head ->
  head < configured ->
  getHistoricalTopUpEvents env (Some configured) w
  = (Ret tt, log_event EvGetBlockNumber w).
Proof.
  intros Hhead Hgt.
  unfold getHistoricalTopUpEvents, tryCatch, bind, remote. cbn.
  rewrite Hhead.
  destruct (Z.gtb_spec configured head) as [_ | Hle]; [reflexivity | lia].
Qed.

End SweepFailures.

(** ** The historical sweep: what it scans *)

Section SweepCoverage.

Variable env : Env.

(** With the fuel the sweep gives its loop, every block from the start block
    to the one before the head lies in one of the ranges. *)
Lemma historicalRanges_cover (fuel : nat) (fromBlock latestBlock b : Z) :
  (historicalIterations fromBlock latestBlock <= fuel)%nat ->
  fromBlock <= b < latestBlock ->
  exists f t, (f, t) ∈ historicalRanges fuel fromBlock latestBlock /\ f <= b <= t.
Proof.
  revert fromBlock. induction fuel as [| fuel IH]; intros fromBlock Hfuel Hb.
  - rewrite historicalIterations_step in Hfuel by lia. lia.
  - cbn [historicalRanges].
    destruct (Z.ltb_spec fromBlock latestBlock) as [Hlt | Hge]; [| lia].
    destruct (Z.le_gt_cases b (fromBlock + batchSize - 1)) as [Hin | Hout].
    + exists fromBlock, (Z.min (fromBlock + batchSize - 1) latestBlock).
      split; [apply list_elem_of_here | lia].
    + rewrite historicalIterations_step in Hfuel by lia.
      destruct (IH (fromBlock + batchSize)) as (f & t & Hrange & Hft); [lia | lia |].
      exists f, t. split; [apply list_elem_of_further; exact Hrange | exact Hft].
Qed.

Lemma bind_run {A B} (m : M A) (k : A -> M B) (w : World) :
  bind m k w
  = match m w with
    | (Ret a, w') => k a w'
    | (Throw e, w') => (Throw e, w')
    | (Exit c, w') => (Exit c, w')
    end.
Proof. reflexivity. Qed.

Lemma history_extended_elem (w w' : World) (ev : Event) :
  history_extended w w' -> ev ∈ trace w -> ev ∈ trace w'.
Proof. intros [evs ->] Hin. apply elem_of_app. left. exact Hin. Qed.

(** A batch leaves its log query in the history, however it ends. *)
Lemma batch_query_logged (fromBlock toBlock : Z) (w : World) :
  EvGetLogs fromBlock toBlock
    ∈ trace (snd (tryCatch
                    (logs <- remote (EvGetLogs fromBlock toBlock) (getLogs env) ;;
                     processHistoricalLogs env logs)
                    (fun error =>
                       consoleError ("Error processing batch "
                                     ++ numberToString fromBlock ++ "-"
                                     ++ numberToString toBlock ++ ": " ++ error))
                    w)).
Proof.
  unfold tryCatch, bind, remote. cbn.
  assert (Hhere : EvGetLogs fromBlock toBlock
                    ∈ trace (log_event (EvGetLogs fromBlock toBlock) w)).
  { cbn. apply elem_of_app. right. apply list_elem_of_here. }
  destruct (getLogs env _) as [logs | e]; cbn.
  - pose proof (proj1 (proj2 (history_only_grows env)) logs
                  (log_event (EvGetLogs fromBlock toBlock) w)) as Hgrow.
    pose proof (history_extended_elem _ _ _ Hgrow Hhere) as Hafter.
    destruct (processHistoricalLogs env logs _) as [[[] | e | c] w']; cbn in *;
      try exact Hafter.
    apply elem_of_app. left. exact Hafter.
  - apply elem_of_app. left. exact Hhere.
Qed.

(** A loop that returns has queried every range of its header. *)
Lemma historicalLoop_queries_all (fuel : nat) (fromBlock latestBlock : Z) (w : World) :
  survives (fst (historicalLoop env fuel fromBlock latestBlock w)) ->
  forall f t,
    (f, t) ∈ historicalRanges fuel fromBlock latestBlock ->
    EvGetLogs f t ∈ trace (snd (historicalLoop env fuel fromBlock latestBlock w)).
Proof.
  revert fromBlock w. induction fuel as [| fuel IH]; intros fromBlock w;
    cbn [historicalLoop historicalRanges].
  - intros _ f t Hin. inversion Hin.
  - destruct (fromBlock <? latestBlock); [| intros _ f t Hin; inversion Hin].
    cbv zeta.
    pose proof (batch_query_logged fromBlock
                  (Z.min (fromBlock + batchSize - 1) latestBlock) w) as Hfirst.
    rewrite bind_run.
    destruct (tryCatch _ _ w) as [[[] | e | c] w'] eqn:Hbatch; cbn in Hfirst.
    + intros Hs f t Hin. apply elem_of_cons in Hin. destruct Hin as [Heq | Hin].
      * injection Heq as -> ->.
        apply (history_extended_elem w'); [| exact Hfirst].
        apply (proj2 (proj2 (history_only_grows env))).
      * apply IH; assumption.
    + intros Hs. exfalso.
      eapply (never_throws_logged _ (fun error =>
                consoleError ("Error processing batch "
                              ++ numberToString fromBlock ++ "-"
                              ++ numberToString
                                   (Z.min (fromBlock + batchSize - 1) latestBlock)
                              ++ ": " ++ error))).
      * intros e'. apply never_throws_consoleError.
      * rewrite Hbatch. reflexivity.
    + cbn. intros Hs. contradiction.
Qed.

(** X13: when the historical sweep returns, with a start block at or
    before the head, it has asked for the logs of every block from the start
    block to the one before the head; and every query it adds to the history
    lies between the start block and the head and covers at most 25000
    blocks.  The start block is the configured one, or the head minus 200000
    (0 if that is negative). *)
Theorem historical_sweep_scans_window
    (config_startBlock : option Z) (head : Z) (w : World) :
  getBlockNumber env (trace w ++ [EvGetBlockNumber]) = Resolved head ->
  let startBlock := match config_startBlock with
                    | Some configured => configured
                    | None => Z.max 0 (head - totalBlocksToScan)
                    end in
  startBlock <= head ->
  let after := snd (getHistoricalTopUpEvents env config_startBlock w) in
  (forall f t,
     EvGetLogs f t ∈ trace after ->
     EvGetLogs f t ∈ trace w
     \/ (startBlock <= f /\ f <= t <= head /\ t - f + 1 <= batchSize))
  /\ (survives (fst (getHistoricalTopUpEvents env config_startBlock w)) ->
      forall b, startBlock <= b < head ->
                exists f t, EvGetLogs f t ∈ trace after /\ f <= b <= t).
Proof.
  intros Hhead startBlock Hstart after. subst after.
  assert (Hrun : getHistoricalTopUpEvents env config_startBlock w
                 = tryCatch
                     (historicalLoop env (historicalIterations startBlock head)
                        startBlock head)
                     (fun error =>
                        consoleError
                          ("Error retrieving historical TopUp events: " ++ error))
                     (log_event EvGetBlockNumber w)).
  { unfold getHistoricalTopUpEvents, tryCatch, bind, remote. cbn.
    rewrite Hhead. subst startBlock.
    destruct config_startBlock as [configured |]; [| reflexivity].
    destruct (Z.gtb_spec configured head) as [Hgt | _]; [lia | reflexivity]. }
  rewrite Hrun. unfold tryCatch.
  pose proof (historicalLoop_never_throws env (historicalIterations startBlock head)
                startBlock head (log_event EvGetBlockNumber w)) as Hnever.
  pose proof (only_queries_historicalLoop env (historicalIterations startBlock head)
                startBlock head (log_event EvGetBlockNumber w)) as Honly.
  pose proof (historicalLoop_queries_all (historicalIterations startBlock head)
                startBlock head (log_event EvGetBlockNumber w)) as Hall.
  destruct (historicalLoop env _ startBlock head _) as [[[] | e | c] w'];
    cbn in *; try (exfalso; exact (Hnever e eq_refl)).
  - split.
    + intros f t Hin. destruct (Honly f t Hin) as [Hbefore | Hrange].
      * apply elem_of_app in Hbefore. destruct Hbefore as [Hbefore | Hnew];
          [left; exact Hbefore |].
        apply list_elem_of_singleton in Hnew. discriminate Hnew.
      * right. exact (historicalRanges_bounds _ _ _ _ _ Hrange).
    + intros _ b Hb.
      destruct (historicalRanges_cover (historicalIterations startBlock head)
                  startBlock head b (le_n _) Hb) as (f & t & Hrange & Hft).
      exists f, t. split; [apply Hall; [exact I | exact Hrange] | exact Hft].
  - split.
    + intros f t Hin. destruct (Honly f t Hin) as [Hbefore | Hrange].
      * apply elem_of_app in Hbefore. destruct Hbefore as [Hbefore | Hnew];
          [left; exact Hbefore |].
        apply list_elem_of_singleton in Hnew. discriminate Hnew.
      * right. exact (historicalRanges_bounds _ _ _ _ _ Hrange).
    + intros Hs. contradiction.
Qed.

End SweepCoverage.

Lemma sweep_skips_settled_documents_witness :
  processHistoricalLogs (steadyEnv ["T"] (Some 7) None true 100)
    [sampleEvent 1] (sampleWorld "completed" (Some 3))
  = processHistoricalLogs (steadyEnv ["T"] (Some 7) None true 100) []
      (log_event (EvFindOne "0xabc") (sampleWorld "completed" (Some 3))).
Proof.
  apply (sweep_skips_settled_documents (steadyEnv ["T"] (Some 7) None true 100)
           (sampleEvent 1) [] (sampleDoc "completed" (Some 3))
           (sampleWorld "completed" (Some 3))).
  - reflexivity.
  - reflexivity.
  - left. reflexivity.
Defined.

Lemma historical_sweep_skipped_past_head_witness :
  getHistoricalTopUpEvents (steadyEnv ["T"] (Some 7) None true 100) (Some 101)
    emptyWorld
  = (Ret tt, log_event EvGetBlockNumber emptyWorld).
Proof.
  apply (historical_sweep_skipped_past_head
           (steadyEnv ["T"] (Some 7) None true 100) 101 100 emptyWorld).
  - reflexivity.
  - lia.
Defined.

Lemma historical_sweep_scans_window_witness :
  (forall f t,
     EvGetLogs f t
       ∈ trace (snd (getHistoricalTopUpEvents
                       (steadyEnv ["T"] (Some 7) None true 30000) None
                       emptyWorld)) ->
     EvGetLogs f t ∈ trace emptyWorld
     \/ (0 <= f /\ f <= t <= 30000 /\ t - f + 1 <= batchSize))
  /\ (survives (fst (getHistoricalTopUpEvents
                       (steadyEnv ["T"] (Some 7) None true 30000) None
                       emptyWorld)) ->
      forall b, 0 <= b < 30000 ->
                exists f t,
                  EvGetLogs f t
                    ∈ trace (snd (getHistoricalTopUpEvents
                                    (steadyEnv ["T"] (Some 7) None true 30000)
                                    None emptyWorld))
                  /\ f <= b <= t).
Proof.
  apply (historical_sweep_scans_window
           (steadyEnv ["T"] (Some 7) None true 30000) None 30000 emptyWorld).
  - reflexivity.
  - vm_compute. discriminate.
Defined.

(** ** What each operation talks to *)

Section Emits.

Variable env : Env.
Variable P : Event -> bool.

Lemma emits_ret {A} (a : A) : emits_only P (ret a).
Proof. intros w. exists []. split; [symmetry; apply app_nil_r | reflexivity]. Qed.

Lemma emits_throw {A} (e : string) : emits_only P (@throw A e).
Proof. intros w. exists []. split; [symmetry; apply app_nil_r | reflexivity]. Qed.

Lemma emits_processExit {A} (c : Z) : emits_only P (@processExit A c).
Proof. intros w. exists []. split; [symmetry; apply app_nil_r | reflexivity]. Qed.

Lemma emits_setProcessing (b : bool) : emits_only P (setProcessing b).
Proof. intros w. exists []. split; [symmetry; apply app_nil_r | reflexivity]. Qed.

Lemma emits_getProcessing : emits_only P getProcessing.
Proof. intros w. exists []. split; [symmetry; apply app_nil_r | reflexivity]. Qed.

Lemma emits_clock : emits_only P (clock env).
Proof. intros w. exists []. split; [symmetry; apply app_nil_r | reflexivity]. Qed.

Lemma emits_one (ev : Event) (w : World) :
  P ev = true ->
  exists evs, trace (log_event ev w) = trace w ++ evs /\ forallb P evs = true.
Proof. intros Hev. exists [ev]. split; [reflexivity | cbn; rewrite Hev; reflexivity]. Qed.

Lemma emits_emit (ev : Event) : P ev = true -> emits_only P (emit ev).
Proof. intros Hev w. apply emits_one. exact Hev. Qed.

Lemma emits_consoleError (msg : string) :
  P (EvConsoleError msg) = true -> emits_only P (consoleError msg).
Proof. apply emits_emit. Qed.

Lemma emits_remote {A} (ev : Event) (answer : list Event -> Resp A) :
  P ev = true -> emits_only P (remote ev answer).
Proof.
  intros Hev w. unfold remote. destruct (answer _); apply emits_one; exact Hev.
Qed.

Lemma emits_findOne (h : string) :
  P (EvFindOne h) = true -> emits_only P (TxHash_findOne env h).
Proof.
  intros Hev w. unfold TxHash_findOne.
  destruct (storeFault env _); apply emits_one; exact Hev.
Qed.

Lemma emits_saveNew (doc : TxDoc) :
  P (EvInsert doc) = true -> emits_only P (saveNew env doc).
Proof.
  intros Hev w. unfold saveNew.
  destruct (storeFault env _); [apply emits_one; exact Hev |].
  destruct (store w !! txHash doc); apply (emits_one _ w Hev).
Qed.

Lemma emits_save (h : string) (doc : TxDoc) :
  P (EvSave doc) = true -> emits_only P (save env h doc).
Proof.
  intros Hev w. unfold save.
  destruct (storeFault env _); [apply emits_one; exact Hev |].
  destruct (store w !! h); apply (emits_one _ w Hev).
Qed.

Lemma emits_updateOne (h s : string) :
  P (EvUpdateOne h s) = true -> emits_only P (TxHash_updateOne_notCompleted env h s).
Proof.
  intros Hev w. unfold TxHash_updateOne_notCompleted.
  destruct (storeFault env _); [apply emits_one; exact Hev |].
  destruct (store w !! h) as [d |]; [| apply (emits_one _ w Hev)].
  destruct (String.eqb (state d) "completed"); apply (emits_one _ w Hev).
Qed.

Lemma emits_admin_deposit (h : string) (n p1 p2 tokenIndex amt : Z) :
  (forall persisted, P (EvDeposit n p1 p2 tokenIndex amt persisted) = true) ->
  emits_only P (admin_deposit env h n p1 p2 tokenIndex amt).
Proof. intros Hev w. unfold admin_deposit. apply emits_remote. apply Hev. Qed.

Lemma emits_chain (w w' w'' : World) :
  (exists evs, trace w' = trace w ++ evs /\ forallb P evs = true) ->
  (exists evs, trace w'' = trace w' ++ evs /\ forallb P evs = true) ->
  exists evs, trace w'' = trace w ++ evs /\ forallb P evs = true.
Proof.
  intros (evs1 & E1 & H1) (evs2 & E2 & H2). exists (evs1 ++ evs2). split.
  - rewrite E2, E1, app_assoc. reflexivity.
  - rewrite forallb_app, H1, H2. reflexivity.
Qed.

Lemma emits_bind {A B} (m : M A) (k : A -> M B) :
  emits_only P m -> (forall a, emits_only P (k a)) -> emits_only P (bind m k).
Proof.
  intros Hm Hk w. unfold bind. specialize (Hm w).
  destruct (m w) as [[a | e | c] w']; cbn in *; try exact Hm.
  apply emits_chain with w'; [exact Hm | apply Hk].
Qed.

Lemma emits_tryCatch {A} (body : M A) (handler : string -> M A) :
  emits_only P body -> (forall e, emits_only P (handler e)) ->
  emits_only P (tryCatch body handler).
Proof.
  intros Hb Hh w. unfold tryCatch. specialize (Hb w).
  destruct (body w) as [[a | e | c] w']; cbn in *; try exact Hb.
  apply emits_chain with w'; [exact Hb | apply Hh].
Qed.

Lemma emits_tryFinally {A} (body : M A) (fin : M unit) :
  emits_only P body -> emits_only P fin -> emits_only P (tryFinally body fin).
Proof.
  intros Hb Hf w. unfold tryFinally. specialize (Hb w).
  destruct (body w) as [[a | e | c] w']; cbn in *; try exact Hb;
    (apply emits_chain with w'; [exact Hb |]);
    specialize (Hf w'); destruct (fin w') as [[[] | e' | c'] w'']; exact Hf.
Qed.

End Emits.

Ltac emits_step :=
  lazymatch goal with
  | |- forall _, _ => intro
  | |- emits_only _ (bind _ _) => apply emits_bind
  | |- emits_only _ (tryCatch _ _) => apply emits_tryCatch
  | |- emits_only _ (tryFinally _ _) => apply emits_tryFinally
  | |- emits_only _ (ret _) => apply emits_ret
  | |- emits_only _ (throw _) => apply emits_throw
  | |- emits_only _ (processExit _) => apply emits_processExit
  | |- emits_only _ (consoleError _) => apply emits_consoleError; reflexivity
  | |- emits_only _ (setProcessing _) => apply emits_setProcessing
  | |- emits_only _ getProcessing => apply emits_getProcessing
  | |- emits_only _ (clock _) => apply emits_clock
  | |- emits_only _ (remote _ _) => apply emits_remote; reflexivity
  | |- emits_only _ (TxHash_findOne _ _) => apply emits_findOne; reflexivity
  | |- emits_only _ (saveNew _ _) => apply emits_saveNew; reflexivity
  | |- emits_only _ (save _ _ _) => apply emits_save; reflexivity
  | |- emits_only _ (TxHash_updateOne_notCompleted _ _ _) =>
      apply emits_updateOne; reflexivity
  | |- emits_only _ (admin_deposit _ _ _ _ _ _ _) =>
      apply emits_admin_deposit; reflexivity
  | |- emits_only _ (match ?x with _ => _ end) => destruct x
  end.

Ltac emits_auto := repeat emits_step.

Section Contacts.

Variable env : Env.

Lemma updateTxState_steps (h s : string) :
  emits_only is_update_step (updateTxState env h s).
Proof. unfold updateTxState. emits_auto. Qed.

Lemma performDeposit_steps (h : string) (n p1 p2 tokenIndex amt : Z) :
  emits_only is_submission_step (performDeposit env h n p1 p2 tokenIndex amt).
Proof. unfold performDeposit, updateTxState. emits_auto. Qed.

Lemma processTopUpEvent_no_block_query (event : EventLog) :
  emits_only (fun ev => negb (is_block_query ev)) (processTopUpEvent env event).
Proof.
  unfold processTopUpEvent, get_nonce, performDeposit, updateTxState,
    admin_getNonce, admin_checkDeposit, nonce_is_null.
  cbv zeta. emits_auto.
Qed.

(** X14: what each operation talks to.  Processing an event never asks
    for the head of the chain and never queries logs.  A submission looks
    the document up, submits the deposit, updates the state and logs errors;
    it fetches no nonce, runs no [checkDeposit], reads no token list and
    saves no document.  [updateTxState] issues its update and, at most,
    logs. *)
Theorem service_contacts :
  (forall event,
     emits_only (fun ev => negb (is_block_query ev)) (processTopUpEvent env event))
  /\ (forall h n p1 p2 tokenIndex amt,
        emits_only is_submission_step
          (performDeposit env h n p1 p2 tokenIndex amt))
  /\ (forall h s, emits_only is_update_step (updateTxState env h s)).
Proof.
  split; [exact processTopUpEvent_no_block_query |].
  split; [exact performDeposit_steps | exact updateTxState_steps].
Qed.

End Contacts.

(** ** Polling *)

Section PollRanges.

(** Every range starts at or after the first block, is not empty, ends at or
    before the head and covers at most [maxBatchSize] blocks. *)
Lemma pollRanges_bounds (fuel : nat) (fromBlock currentBlock f t : Z) :
  (f, t) ∈ pollRanges fuel fromBlock currentBlock ->
  fromBlock <= f /\ f <= t <= currentBlock /\ t - f + 1 <= maxBatchSize.
Proof.
  revert fromBlock. induction fuel as [| fuel IH]; intros fromBlock;
    cbn [pollRanges].
  - intros Hin. inversion Hin.
  - destruct (Z.leb_spec fromBlock currentBlock) as [Hle | Hgt].
    + intros Hin. apply elem_of_cons in Hin. destruct Hin as [Heq | Hin].
      * injection Heq as -> ->. unfold maxBatchSize. lia.
      * specialize (IH _ Hin). unfold maxBatchSize in *. lia.
    + intros Hin. inversion Hin.
Qed.

Lemma pollIterations_step (fromBlock currentBlock : Z) :
  fromBlock <= currentBlock ->
  pollIterations fromBlock currentBlock
  = S (pollIterations (fromBlock + maxBatchSize) currentBlock).
Proof.
  intros Hle. unfold pollIterations, maxBatchSize.
  replace (currentBlock - fromBlock + 25000)
    with ((currentBlock - (fromBlock + 25000) + 25000) + 1 * 25000) by lia.
  rewrite Z.div_add by lia.
  assert (Hq : 0 <= (currentBlock - (fromBlock + 25000) + 25000) / 25000).
  { apply Z.div_pos; lia. }
  rewrite <- Z2Nat.inj_succ by lia. f_equal; lia.
Qed.

(** With the fuel [poll] gives its loop, every block from the first to the
    head lies in one of the ranges. *)
Lemma pollRanges_cover (fuel : nat) (fromBlock currentBlock b : Z) :
  (pollIterations fromBlock currentBlock <= fuel)%nat ->
  fromBlock <= b <= currentBlock ->
  exists f t, (f, t) ∈ pollRanges fuel fromBlock currentBlock /\ f <= b <= t.
Proof.
  revert fromBlock. induction fuel as [| fuel IH]; intros fromBlock Hfuel Hb.
  - rewrite pollIterations_step in Hfuel by lia. lia.
  - cbn [pollRanges].
    destruct (Z.leb_spec fromBlock currentBlock) as [Hle | Hgt]; [| lia].
    destruct (Z.le_gt_cases b (fromBlock + maxBatchSize - 1)) as [Hin | Hout].
    + exists fromBlock, (Z.min (fromBlock + maxBatchSize - 1) currentBlock).
      split; [apply list_elem_of_here | lia].
    + rewrite pollIterations_step in Hfuel by lia.
      destruct (IH (fromBlock + maxBatchSize)) as (f & t & Hrange & Hft);
        [lia | lia |].
      exists f, t. split; [apply list_elem_of_further; exact Hrange | exact Hft].
Qed.

End PollRanges.

Section PollRound.

Variable env : Env.

(** The batch loop stops at the first query that fails; when it returns it
    has asked for exactly the ranges of its header, in order, and touched
    nothing else. *)
Lemma pollLogs_returns (fuel : nat) (fromBlock currentBlock : Z)
    (acc logs : list EventLog) (w w' : World) :
  pollLogs env fuel fromBlock currentBlock acc w = (Ret logs, w') ->
  w' = mkWorld (store w) (isProcessingDeposit w)
         (trace w ++ map query_of (pollRanges fuel fromBlock currentBlock)).
Proof.
  revert fromBlock acc w. induction fuel as [| fuel IH]; intros fromBlock acc w;
    cbn [pollLogs pollRanges].
  - intros [= _ <-]. rewrite app_nil_r. destruct w; reflexivity.
  - destruct (fromBlock <=? currentBlock).
    + cbv zeta. rewrite bind_run. unfold remote.
      destruct (getLogs env _) as [batch | e]; [| discriminate].
      intros Hrun. rewrite (IH _ _ _ Hrun). cbn.
      rewrite <- app_assoc. reflexivity.
    + intros [= _ <-]. rewrite app_nil_r. destruct w; reflexivity.
Qed.

Lemma pollLogs_survives (fuel : nat) (fromBlock currentBlock : Z)
    (acc : list EventLog) (w : World) :
  survives (fst (pollLogs env fuel fromBlock currentBlock acc w)).
Proof.
  revert fromBlock acc w. induction fuel as [| fuel IH]; intros fromBlock acc w;
    cbn [pollLogs].
  - exact I.
  - destruct (fromBlock <=? currentBlock); [| exact I].
    cbv zeta. rewrite bind_run. unfold remote.
    destruct (getLogs env _) as [batch | e]; [apply IH | exact I].
Qed.

Lemma only_queries_pollLogs (fuel : nat) (fromBlock currentBlock : Z)
    (acc : list EventLog) :
  only_queries (pollRanges fuel fromBlock currentBlock)
    (pollLogs env fuel fromBlock currentBlock acc).
Proof.
  revert fromBlock acc. induction fuel as [| fuel IH]; intros fromBlock acc;
    cbn [pollLogs pollRanges].
  - apply only_queries_ret.
  - destruct (fromBlock <=? currentBlock); [| apply only_queries_ret].
    cbv zeta. apply only_queries_bind.
    + apply only_queries_getLogs. apply list_elem_of_here.
    + intros batch.
      apply only_queries_weaken with (2 := IH (fromBlock + maxBatchSize) _).
      intros r Hr. apply list_elem_of_further. exact Hr.
Qed.

Lemma only_queries_processPolledLogs (logs : list EventLog) :
  only_queries [] (processPolledLogs env logs).
Proof.
  induction logs as [| log rest IH]; cbn [processPolledLogs].
  - apply only_queries_ret.
  - apply only_queries_bind; [apply only_queries_processTopUpEvent |].
    intros _. exact IH.
Qed.

Lemma processPolledLogs_history (logs : list EventLog) (w : World) :
  history_extended w (snd (processPolledLogs env logs w)).
Proof.
  revert w. induction logs as [| log rest IH]; intros w; cbn [processPolledLogs].
  - exists []. symmetry. apply app_nil_r.
  - rewrite bind_run.
    pose proof (proj1 (history_only_grows env) log w) as Hfirst.
    destruct (processTopUpEvent env log w) as [[[] | e | c] w1]; cbn in *;
      try exact Hfirst.
    destruct Hfirst as [evs1 E1]. destruct (IH w1) as [evs2 E2].
    exists (evs1 ++ evs2). rewrite E2, E1, app_assoc. reflexivity.
Qed.

End PollRound.

Section PollCursor.

Variable env : Env.

Lemma emits_weaken {A} (P P' : Event -> bool) (m : M A) :
  (forall ev, P ev = true -> P' ev = true) -> emits_only P m -> emits_only P' m.
Proof.
  intros Himp Hm w. destruct (Hm w) as (evs & E & Hevs). exists evs.
  split; [exact E |]. rewrite forallb_forall in *.
  intros ev Hin. apply Himp, Hevs, Hin.
Qed.

Lemma emits_history {A} (P : Event -> bool) (m : M A) (w : World) :
  emits_only P m -> history_extended w (snd (m w)).
Proof. intros Hm. destruct (Hm w) as (evs & E & _). exists evs. exact E. Qed.

Lemma emits_pollLogs (P : Event -> bool) (fuel : nat) (fromBlock currentBlock : Z)
    (acc : list EventLog) :
  (forall f t, P (EvGetLogs f t) = true) ->
  emits_only P (pollLogs env fuel fromBlock currentBlock acc).
Proof.
  intros HP. revert fromBlock acc.
  induction fuel as [| fuel IH]; intros fromBlock acc; cbn [pollLogs].
  - apply emits_ret.
  - destruct (fromBlock <=? currentBlock); [| apply emits_ret].
    cbv zeta. apply emits_bind; [apply emits_remote, HP |].
    intros batch. apply IH.
Qed.

Lemma emits_processPolledLogs (P : Event -> bool) (logs : list EventLog) :
  (forall ev, is_block_query ev = false -> P ev = true) ->
  emits_only P (processPolledLogs env logs).
Proof.
  intros HP. induction logs as [| log rest IH]; cbn [processPolledLogs].
  - apply emits_ret.
  - apply emits_bind; [| intros _; exact IH].
    apply emits_weaken with (2 := processTopUpEvent_no_block_query env log).
    intros ev Hev. apply HP. destruct (is_block_query ev); [discriminate | reflexivity].
Qed.

Lemma emits_pollAttempt (P : Event -> bool) (last : Z) :
  (forall ev, is_head_read ev = false -> P ev = true) ->
  P EvGetBlockNumber = true ->
  emits_only P (pollAttempt env last).
Proof.
  intros HP Hhead. unfold pollAttempt.
  apply emits_bind; [apply emits_remote, Hhead |].
  intros head. destruct (head >? last); [| apply emits_ret].
  apply emits_bind; [apply emits_pollLogs; intros f t; apply HP; reflexivity |].
  intros logs. apply emits_bind; [| intros _; apply emits_ret].
  apply emits_processPolledLogs. intros ev Hev. apply HP.
  destruct ev; try reflexivity; discriminate Hev.
Qed.

(** An attempt that returns leaves the cursor where it was or at the head it
    read, and has then asked for the logs of every block in between. *)
Lemma pollAttempt_returns (last c : Z) (w w' : World) :
  pollAttempt env last w = (Ret c, w') ->
  last <= c
  /\ exists evs,
       trace w' = trace w ++ evs
       /\ forall b, last < b <= c ->
                    exists f t, EvGetLogs f t ∈ evs /\ f <= b <= t.
Proof.
  unfold pollAttempt. rewrite bind_run. unfold remote at 1.
  destruct (getBlockNumber env _) as [head | e]; [| discriminate].
  destruct (Z.gtb_spec head last) as [Hgt | Hle].
  - rewrite bind_run.
    destruct (pollLogs env _ _ _ _ _) as [[logs | e | c1] w1] eqn:Hlogs;
      try discriminate.
    apply pollLogs_returns in Hlogs. rewrite bind_run.
    pose proof (processPolledLogs_history env logs w1) as [evs2 E2].
    destruct (processPolledLogs env logs w1) as [[[] | e | c1] w2];
      try discriminate.
    intros [= <- <-]. split; [lia |].
    exists ([EvGetBlockNumber]
            ++ map query_of (pollRanges (pollIterations (last + 1) head)
                               (last + 1) head)
            ++ evs2).
    split.
    + cbn in E2. rewrite E2, Hlogs. cbn. rewrite <- !app_assoc. reflexivity.
    + intros b Hb.
      destruct (pollRanges_cover (pollIterations (last + 1) head) (last + 1) head b
                  (le_n _)) as (f & t & Hrange & Hft); [lia |].
      exists f, t. split; [| exact Hft].
      apply elem_of_app. right. apply elem_of_app. left.
      apply list_elem_of_fmap. exists (f, t). split; [reflexivity | exact Hrange].
  - intros [= <- <-]. split; [lia |].
    exists [EvGetBlockNumber]. split; [reflexivity |]. intros b Hb. lia.
Qed.

(** How the retry loop goes on after an attempt. *)
Lemma pollRetries_success (retries : nat) (last head : Z) (w w1 : World) :
  pollAttempt env last w = (Ret head, w1) ->
  pollRetries env (S retries) last w = (Ret head, w1).
Proof.
  intros Hattempt. cbn [pollRetries]. rewrite bind_run. unfold tryCatch.
  rewrite bind_run, Hattempt. reflexivity.
Qed.

Lemma pollRetries_exit (retries : nat) (last c : Z) (w w1 : World) :
  pollAttempt env last w = (Exit c, w1) ->
  pollRetries env (S retries) last w = (Exit c, w1).
Proof.
  intros Hattempt. cbn [pollRetries]. rewrite bind_run. unfold tryCatch.
  rewrite bind_run, Hattempt. reflexivity.
Qed.

Lemma pollRetries_again (retries : nat) (last : Z) (e : string) (w w1 : World) :
  pollAttempt env last w = (Throw e, w1) ->
  pollRetries env (S (S retries)) last w
  = pollRetries env (S retries) last
      (log_event (EvConsoleError ("[Poll] Error during polling: " ++ e)) w1).
Proof.
  intros Hattempt. cbn [pollRetries]. rewrite bind_run. unfold tryCatch at 1.
  rewrite bind_run, Hattempt. reflexivity.
Qed.

Lemma pollRetries_give_up (last : Z) (e : string) (w w1 : World) :
  pollAttempt env last w = (Throw e, w1) ->
  pollRetries env 1 last w
  = (Ret last,
     mkWorld (store w1) (isProcessingDeposit w1)
       (trace w1 ++ [EvConsoleError ("[Poll] Error during polling: " ++ e);
                     EvConsoleError "[Poll] Failed after all retry attempts"])).
Proof.
  intros Hattempt. cbn [pollRetries]. rewrite bind_run. unfold tryCatch at 1.
  rewrite bind_run, Hattempt. cbn. unfold log_event. cbn.
  rewrite <- app_assoc. reflexivity.
Qed.

Lemma pollRetries_returns (retries : nat) (last c : Z) (w w' : World) :
  pollRetries env retries last w = (Ret c, w') ->
  last <= c
  /\ exists evs,
       trace w' = trace w ++ evs
       /\ forall b, last < b <= c ->
                    exists f t, EvGetLogs f t ∈ evs /\ f <= b <= t.
Proof.
  revert w. induction retries as [| retries IH]; intros w.
  - intros [= <- <-]. split; [lia |].
    exists []. split; [symmetry; apply app_nil_r |]. intros b Hb. lia.
  - pose proof (emits_history (fun _ => true) _ w
                  (emits_pollAttempt _ last (fun _ _ => eq_refl) eq_refl))
      as [evs1 E1].
    destruct (pollAttempt env last w) as [[head | e | c1] w1] eqn:Hattempt;
      cbn in E1.
    + rewrite (pollRetries_success _ _ _ _ _ Hattempt). intros [= <- <-].
      exact (pollAttempt_returns _ _ _ _ Hattempt).
    + destruct retries as [| retries].
      * rewrite (pollRetries_give_up _ _ _ _ Hattempt). intros [= <- <-].
        split; [lia |]. eexists. split; [| intros b Hb; lia].
        cbn. rewrite E1, <- app_assoc. reflexivity.
      * rewrite (pollRetries_again _ _ _ _ _ Hattempt). intros Hrun.
        destruct (IH _ Hrun) as (Hle & evs2 & E2 & Hcover).
        split; [exact Hle |].
        exists (evs1 ++ [EvConsoleError ("[Poll] Error during polling: " ++ e)]
                ++ evs2).
        split.
        -- rewrite E2. cbn. rewrite E1, <- !app_assoc. reflexivity.
        -- intros b Hb. destruct (Hcover b Hb) as (f & t & Hin & Hft).
           exists f, t. split; [| exact Hft].
           apply elem_of_app. right. apply elem_of_app. right. exact Hin.
    + rewrite (pollRetries_exit _ _ _ _ _ Hattempt). discriminate.
Qed.

(** X15: a polling round that returns never moves [lastProcessedBlock]
    back and leaves [isProcessing] as it found it.  When it moves the cursor
    forward, the round has asked, after the history it started from, for the
    logs of every block after the old cursor up to and including the new
    one. *)
Theorem poll_cursor_advance (st st' : PollState) (w w' : World) :
  poll env st w = (Ret st', w') ->
  lastProcessedBlock st <= lastProcessedBlock st'
  /\ isProcessing st' = isProcessing st
  /\ exists evs,
       trace w' = trace w ++ evs
       /\ forall b,
            lastProcessedBlock st < b <= lastProcessedBlock st' ->
            exists f t, EvGetLogs f t ∈ evs /\ f <= b <= t.
Proof.
  unfold poll. destruct (isProcessing st) eqn:Hbusy.
  - intros [= <- <-]. split; [lia |]. split; [exact Hbusy |].
    exists []. split; [symmetry; apply app_nil_r |]. intros b Hb. lia.
  - rewrite bind_run.
    destruct (pollRetries env 3 (lastProcessedBlock st) w)
      as [[head | e | c] w1] eqn:Hrun; try discriminate.
    intros [= <- <-]. cbn. split; [| split; [reflexivity |]];
      apply (pollRetries_returns _ _ _ _ _ Hrun).
Qed.

End PollCursor.

Section PollFailures.

Variable env : Env.

Lemma count_head_reads_app (t1 t2 : list Event) :
  count_head_reads (t1 ++ t2) = (count_head_reads t1 + count_head_reads t2)%nat.
Proof. induction t1 as [| ev t1 IH]; cbn; [reflexivity | rewrite IH; lia]. Qed.

Lemma head_reads_of_emits {A} (m : M A) :
  emits_only (fun ev => negb (is_head_read ev)) m -> head_reads_at_most 0 m.
Proof.
  intros Hm w. destruct (Hm w) as (evs & -> & Hevs).
  rewrite count_head_reads_app.
  assert (Hnone : count_head_reads evs = 0%nat).
  { induction evs as [| ev evs IH]; [reflexivity |].
    cbn in Hevs. apply andb_prop in Hevs. destruct Hevs as [Hev Hevs].
    cbn. rewrite (IH Hevs). destruct (is_head_read ev); [discriminate | reflexivity]. }
  lia.
Qed.

Lemma head_reads_weaken {A} (n n' : nat) (m : M A) :
  (n <= n')%nat -> head_reads_at_most n m -> head_reads_at_most n' m.
Proof. intros Hle Hm w. specialize (Hm w). lia. Qed.

Lemma head_reads_bind {A B} (a b : nat) (m : M A) (k : A -> M B) :
  head_reads_at_most a m -> (forall x, head_reads_at_most b (k x)) ->
  head_reads_at_most (a + b) (bind m k).
Proof.
  intros Hm Hk w. rewrite bind_run. specialize (Hm w).
  destruct (m w) as [[x | e | c] w1]; cbn in *; try lia.
  specialize (Hk x w1). lia.
Qed.

Lemma head_reads_tryCatch {A} (a b : nat) (body : M A) (handler : string -> M A) :
  head_reads_at_most a body -> (forall e, head_reads_at_most b (handler e)) ->
  head_reads_at_most (a + b) (tryCatch body handler).
Proof.
  intros Hb Hh w. unfold tryCatch. specialize (Hb w).
  destruct (body w) as [[x | e | c] w1]; cbn in *; try lia.
  specialize (Hh e w1). lia.
Qed.

Lemma head_reads_pollAttempt (last : Z) :
  head_reads_at_most 1 (pollAttempt env last).
Proof.
  unfold pollAttempt. apply (head_reads_bind 1 0).
  - intros w. unfold remote. destruct (getBlockNumber env _); cbn;
      rewrite count_head_reads_app; cbn; lia.
  - intros head. apply head_reads_of_emits.
    destruct (head >? last); [| apply emits_ret].
    apply emits_bind; [apply emits_pollLogs; reflexivity |].
    intros logs. apply emits_bind; [| intros _; apply emits_ret].
    apply emits_processPolledLogs.
    intros ev Hev. destruct ev; try reflexivity; discriminate Hev.
Qed.

Lemma head_reads_pollRetries (retries : nat) (last : Z) :
  head_reads_at_most retries (pollRetries env retries last).
Proof.
  induction retries as [| retries IH]; cbn [pollRetries].
  - apply head_reads_of_emits, emits_ret.
  - change (S retries) with (1 + retries)%nat. apply head_reads_bind.
    + apply (head_reads_tryCatch 1 0).
      * change 1%nat with (1 + 0)%nat. apply head_reads_bind;
          [apply head_reads_pollAttempt |].
        intros head. apply head_reads_of_emits, emits_ret.
      * intros e. apply head_reads_of_emits.
        destruct (Nat.eqb retries 0); emits_auto.
    + intros [head |]; [| exact IH].
      apply head_reads_weaken with 0%nat; [lia |].
      apply head_reads_of_emits, emits_ret.
Qed.

Lemma pollRetries_never_throws (retries : nat) (last : Z) :
  never_throws (pollRetries env retries last).
Proof.
  induction retries as [| retries IH]; cbn [pollRetries].
  - apply never_throws_ret.
  - apply never_throws_bind.
    + apply never_throws_logged. intros e.
      apply never_throws_bind; [apply never_throws_consoleError |].
      intros _. apply never_throws_bind; [| intros _; apply never_throws_ret].
      destruct (Nat.eqb retries 0);
        [apply never_throws_consoleError | apply never_throws_ret].
    + intros [head |]; [apply never_throws_ret | exact IH].
Qed.

Lemma poll_never_throws (st : PollState) : never_throws (poll env st).
Proof.
  unfold poll. destruct (isProcessing st); [apply never_throws_ret |].
  apply never_throws_bind; [apply pollRetries_never_throws |].
  intros head. apply never_throws_ret.
Qed.

(** X16: a polling round never throws and reads the head at most three
    times.  When three attempts in a row throw, each error is logged, the
    round gives up with "Failed after all retry attempts" and returns with
    the cursor where it was. *)
Theorem poll_round_contained :
  (forall st, never_throws (poll env st))
  /\ (forall st, head_reads_at_most 3 (poll env st))
  /\ (forall last e1 e2 e3 w w1 w2 w3,
        pollAttempt env last w = (Throw e1, w1) ->
        pollAttempt env last
          (log_event (EvConsoleError ("[Poll] Error during polling: " ++ e1)) w1)
        = (Throw e2, w2) ->
        pollAttempt env last
          (log_event (EvConsoleError ("[Poll] Error during polling: " ++ e2)) w2)
        = (Throw e3, w3) ->
        poll env (mkPollState last false) w
        = (Ret (mkPollState last false),
           mkWorld (store w3) (isProcessingDeposit w3)
             (trace w3
              ++ [EvConsoleError ("[Poll] Error during polling: " ++ e3);
                  EvConsoleError "[Poll] Failed after all retry attempts"]))).
Proof.
  split; [exact poll_never_throws |]. split.
  - intros st. unfold poll.
    destruct (isProcessing st).
    { apply head_reads_weaken with 0%nat; [lia |].
      apply head_reads_of_emits, emits_ret. }
    change 3%nat with (3 + 0)%nat. apply head_reads_bind;
      [apply head_reads_pollRetries |].
    intros head. apply head_reads_of_emits, emits_ret.
  - intros last e1 e2 e3 w w1 w2 w3 H1 H2 H3. unfold poll. cbn [isProcessing].
    rewrite bind_run. cbn [lastProcessedBlock].
    rewrite (pollRetries_again env _ _ _ _ _ H1).
    rewrite (pollRetries_again env _ _ _ _ _ H2).
    rewrite (pollRetries_give_up env _ _ _ _ H3). reflexivity.
Qed.

End PollFailures.

Section PollQueries.

Variable env : Env.

Lemma queries_within_of_only {A} (Q : Z -> Z -> Prop) (ranges : list (Z * Z))
    (m : M A) :
  (forall f t, (f, t) ∈ ranges -> Q f t) ->
  only_queries ranges m -> queries_within Q m.
Proof.
  intros HQ Hm w f t Hin. destruct (Hm w f t Hin) as [Hbefore | Hrange].
  - left. exact Hbefore.
  - right. apply HQ. exact Hrange.
Qed.

Lemma queries_within_bind {A B} (Q : Z -> Z -> Prop) (m : M A) (k : A -> M B) :
  queries_within Q m -> (forall a, queries_within Q (k a)) ->
  queries_within Q (bind m k).
Proof.
  intros Hm Hk w f t. rewrite bind_run.
  specialize (Hm w f t). destruct (m w) as [[a | e | c] w']; cbn in *.
  - intros Hin. destruct (Hk a w' f t Hin) as [Hbefore | HQ]; auto.
  - exact Hm.
  - exact Hm.
Qed.

Lemma queries_within_tryCatch {A} (Q : Z -> Z -> Prop) (body : M A)
    (handler : string -> M A) :
  queries_within Q body -> (forall e, queries_within Q (handler e)) ->
  queries_within Q (tryCatch body handler).
Proof.
  intros Hb Hh w f t. unfold tryCatch.
  specialize (Hb w f t). destruct (body w) as [[a | e | c] w']; cbn in *.
  - exact Hb.
  - intros Hin. destruct (Hh e w' f t Hin) as [Hbefore | HQ]; auto.
  - exact Hb.
Qed.

Lemma queries_within_quiet {A} (Q : Z -> Z -> Prop) (m : M A) :
  only_queries [] m -> queries_within Q m.
Proof.
  apply queries_within_of_only. intros f t Hin. inversion Hin.
Qed.

Lemma queries_within_weaken {A} (Q Q' : Z -> Z -> Prop) (m : M A) :
  (forall f t, Q f t -> Q' f t) -> queries_within Q m -> queries_within Q' m.
Proof.
  intros Himp Hm w f t Hin. destruct (Hm w f t Hin) as [Hbefore | HQ]; auto.
Qed.

Local Abbreviation after_cursor last :=
  (fun f t : Z => last < f <= t /\ t - f + 1 <= maxBatchSize).

Lemma pollAttempt_queries (last : Z) :
  queries_within (after_cursor last) (pollAttempt env last).
Proof.
  unfold pollAttempt. apply queries_within_bind.
  - apply queries_within_quiet. apply only_queries_remote. reflexivity.
  - intros head. destruct (head >? last);
      [| apply queries_within_quiet, only_queries_ret].
    apply queries_within_bind.
    + apply queries_within_of_only with (2 := only_queries_pollLogs env _ _ _ _).
      intros f t Hrange. apply pollRanges_bounds in Hrange. lia.
    + intros logs. apply queries_within_quiet.
      apply only_queries_bind; [apply only_queries_processPolledLogs |].
      intros _. apply only_queries_ret.
Qed.

Lemma pollRetries_queries (retries : nat) (last : Z) :
  queries_within (after_cursor last) (pollRetries env retries last).
Proof.
  induction retries as [| retries IH]; cbn [pollRetries].
  - apply queries_within_quiet, only_queries_ret.
  - apply queries_within_bind.
    + apply queries_within_tryCatch.
      * apply queries_within_bind; [apply pollAttempt_queries |].
        intros head. apply queries_within_quiet, only_queries_ret.
      * intros e. apply queries_within_quiet.
        apply only_queries_bind; [apply only_queries_consoleError |].
        intros _. apply only_queries_bind; [| intros _; apply only_queries_ret].
        destruct (Nat.eqb retries 0);
          [apply only_queries_consoleError | apply only_queries_ret].
    + intros [head |]; [apply queries_within_quiet, only_queries_ret | exact IH].
Qed.

Lemma poll_queries (st : PollState) :
  queries_within (after_cursor (lastProcessedBlock st)) (poll env st).
Proof.
  unfold poll. destruct (isProcessing st);
    [apply queries_within_quiet, only_queries_ret |].
  apply queries_within_bind; [apply pollRetries_queries |].
  intros head. apply queries_within_quiet, only_queries_ret.
Qed.

Lemma poll_cursor_grows (st st' : PollState) (w w' : World) :
  poll env st w = (Ret st', w') -> lastProcessedBlock st <= lastProcessedBlock st'.
Proof.
  unfold poll. destruct (isProcessing st).
  - intros [= <- <-]. lia.
  - rewrite bind_run.
    destruct (pollRetries env 3 (lastProcessedBlock st) w)
      as [[head | e | c] w1] eqn:Hrun; try discriminate.
    intros [= <- <-]. cbn. apply (pollRetries_returns env _ _ _ _ _ Hrun).
Qed.

Lemma pollRounds_queries (rounds : nat) (st : PollState) :
  queries_within (after_cursor (lastProcessedBlock st)) (pollRounds env rounds st).
Proof.
  revert st. induction rounds as [| rounds IH]; intros st; cbn [pollRounds].
  - apply queries_within_quiet, only_queries_ret.
  - intros w f t. rewrite bind_run.
    pose proof (poll_queries st w f t) as Hfirst.
    destruct (poll env st w) as [[st' | e | c] w'] eqn:Hpoll; cbn in *;
      try exact Hfirst.
    intros Hin. destruct (IH st' w' f t Hin) as [Hbefore | HQ].
    + exact (Hfirst Hbefore).
    + right. pose proof (poll_cursor_grows _ _ _ _ Hpoll). lia.
Qed.

(** X17: every log query of the polling rounds starts after the cursor
    the first of them began with, is not empty and spans at most 25000
    blocks. *)
Theorem polling_queries_after_cursor (rounds : nat) (st : PollState) :
  queries_within
    (fun f t => lastProcessedBlock st < f <= t /\ t - f + 1 <= maxBatchSize)
    (pollRounds env rounds st).
Proof. exact (pollRounds_queries rounds st). Qed.

Lemma remote_resolved {A} (ev : Event) (answer : list Event -> Resp A) (a : A)
    (w : World) :
  answer (trace w ++ [ev]) = Resolved a ->
  remote ev answer w = (Ret a, log_event ev w).
Proof. intros Hanswer. unfold remote. cbn. rewrite Hanswer. reflexivity. Qed.

Lemma sweep_queries_up_to_head (config_startBlock : option Z) (head : Z)
    (w : World) (f t : Z) :
  getBlockNumber env (trace w ++ [EvGetBlockNumber]) = Resolved head ->
  EvGetLogs f t ∈ trace (snd (getHistoricalTopUpEvents env config_startBlock w)) ->
  EvGetLogs f t ∈ trace w \/ t <= head.
Proof.
  intros Hhead.
  unfold getHistoricalTopUpEvents, tryCatch. rewrite bind_run.
  rewrite (remote_resolved _ _ _ _ Hhead).
  assert (Hloop : forall start,
             EvGetLogs f t
               ∈ trace (snd (historicalLoop env (historicalIterations start head)
                               start head (log_event EvGetBlockNumber w))) ->
             EvGetLogs f t ∈ trace w \/ t <= head).
  { intros start Hin.
    destruct (only_queries_historicalLoop _ _ _ _ _ _ _ Hin) as [Hbefore | Hrange].
    - cbn in Hbefore. apply elem_of_app in Hbefore.
      destruct Hbefore as [Hbefore | Hnew]; [left; exact Hbefore |].
      apply list_elem_of_singleton in Hnew. discriminate Hnew.
    - right. apply historicalRanges_bounds in Hrange. lia. }
  assert (Hnone : EvGetLogs f t ∈ trace (log_event EvGetBlockNumber w) ->
                  EvGetLogs f t ∈ trace w \/ t <= head).
  { cbn. rewrite elem_of_app, list_elem_of_singleton.
    intros [Hin | Hin]; [left; exact Hin | discriminate Hin]. }
  assert (Hafter : forall (o : Outcome unit) w',
             (EvGetLogs f t ∈ trace w' -> EvGetLogs f t ∈ trace w \/ t <= head) ->
             EvGetLogs f t
               ∈ trace (snd (match o with
                             | Throw e =>
                                 consoleError
                                   ("Error retrieving historical TopUp events: "
                                    ++ e) w'
                             | _ => (o, w')
                             end)) ->
             EvGetLogs f t ∈ trace w \/ t <= head).
  { intros o w' Hw'. destruct o as [[] | e | c]; cbn; try exact Hw'.
    rewrite elem_of_app, list_elem_of_singleton.
    intros [Hin | Hin]; [exact (Hw' Hin) | discriminate Hin]. }
  destruct config_startBlock as [configured |].
  - destruct (configured >? head); [exact Hnone |].
    specialize (Hloop configured).
    destruct (historicalLoop env _ configured head _) as [o w'].
    destruct o as [[] | e | c]; cbn in *; try exact Hloop.
    rewrite elem_of_app, list_elem_of_singleton.
    intros [Hin | Hin]; [exact (Hloop Hin) | discriminate Hin].
  - specialize (Hloop (Z.max 0 (head - totalBlocksToScan))).
    destruct (historicalLoop env _ _ head _) as [o w'].
    destruct o as [[] | e | c]; cbn in *; try exact Hloop.
    rewrite elem_of_app, list_elem_of_singleton.
    intros [Hin | Hin]; [exact (Hloop Hin) | discriminate Hin].
Qed.

(** X18: [serve] resumes polling from the block number it reads after
    the historical sweep.  Each log query of the sweep and of the polling
    rounds after it ends at or before the head the sweep read, or starts
    after the block polling resumed from: no query covers a block mined in
    between. *)
Theorem blocks_mined_during_sweep_not_scanned
    (config_startBlock : option Z) (rounds : nat) (head resumed : Z) (w : World)
    (f t : Z) :
  getBlockNumber env (trace w ++ [EvGetBlockNumber]) = Resolved head ->
  getBlockNumber env
    (trace (snd (getHistoricalTopUpEvents env config_startBlock w))
     ++ [EvGetBlockNumber]) = Resolved resumed ->
  EvGetLogs f t ∈ trace (snd (serveFromSweep env config_startBlock rounds w)) ->
  EvGetLogs f t ∈ trace w \/ t <= head \/ resumed < f.
Proof.
  intros Hhead Hresumed.
  unfold serveFromSweep. rewrite bind_run.
  pose proof (sweep_queries_up_to_head config_startBlock head w f t Hhead) as Hsweep.
  destruct (getHistoricalTopUpEvents env config_startBlock w)
    as [[[] | e | c] w1]; cbn in Hsweep, Hresumed |- *;
    try (intros Hin; destruct (Hsweep Hin); auto).
  rewrite bind_run, (remote_resolved _ _ _ _ Hresumed).
  intros Hin.
  destruct (pollRounds_queries rounds (mkPollState resumed false) _ f t Hin)
    as [Hbefore | HQ].
  - cbn in Hbefore. apply elem_of_app in Hbefore.
    destruct Hbefore as [Hbefore | Hnew].
    + destruct (Hsweep Hbefore); auto.
    + apply list_elem_of_singleton in Hnew. discriminate Hnew.
  - cbn in HQ. right. right. lia.
Qed.

End PollQueries.

Lemma poll_cursor_advance_witness :
  90 <= 100
  /\ isProcessing (mkPollState 100 false) = isProcessing (mkPollState 90 false)
  /\ exists evs,
       trace (snd (poll (steadyEnv ["T"] (Some 7) None true 100)
                     (mkPollState 90 false) emptyWorld))
       = trace emptyWorld ++ evs
       /\ forall b, 90 < b <= 100 ->
                    exists f t, EvGetLogs f t ∈ evs /\ f <= b <= t.
Proof.
  apply (poll_cursor_advance (steadyEnv ["T"] (Some 7) None true 100)
           (mkPollState 90 false) (mkPollState 100 false) emptyWorld
           (snd (poll (steadyEnv ["T"] (Some 7) None true 100)
                   (mkPollState 90 false) emptyWorld))).
  vm_compute. reflexivity.
Defined.

Lemma blocks_mined_during_sweep_not_scanned_witness :
  EvGetLogs 31 40 ∈ trace emptyWorld \/ 40 <= 10 \/ 30 < 31.
Proof.
  apply (blocks_mined_during_sweep_not_scanned (risingEnv 10) None 1 10 30
           emptyWorld 31 40).
  - reflexivity.
  - vm_compute. reflexivity.
  - vm_compute. repeat constructor.
Defined.

(** ** The documents the service keeps *)

Section TrackedDocuments.

Variable env : Env.

Lemma tracked_insert (h : string) (doc : TxDoc) (docs : gmap string TxDoc) :
  tracked docs -> known_state doc -> (post_pending doc -> nonce doc <> None) ->
  tracked (<[h := doc]> docs).
Proof.
  intros Hdocs Hstate Hnonce k d.
  destruct (decide (k = h)) as [-> | Hne].
  - rewrite lookup_insert_eq. intros [= <-]. split; assumption.
  - rewrite lookup_insert_ne by congruence. apply Hdocs.
Qed.

Lemma nonce_at_insert (h : string) (doc : TxDoc) (docs : gmap string TxDoc) :
  nonce doc <> None -> nonce_at h (<[h := doc]> docs).
Proof. intros Hnonce d. rewrite lookup_insert_eq. intros [= <-]. exact Hnonce. Qed.

Lemma nonce_at_found (h : string) (d : TxDoc) (docs : gmap string TxDoc) :
  nonce_at h docs -> docs !! h = Some d -> nonce d <> None.
Proof. intros Hat Hd. exact (Hat d Hd). Qed.

Lemma tracked_found (h : string) (d : TxDoc) (docs : gmap string TxDoc) :
  tracked docs -> docs !! h = Some d -> known_state d.
Proof. intros Hdocs Hd. exact (proj1 (Hdocs h d Hd)). Qed.

Lemma nonce_at_tracked (h : string) (d : TxDoc) (docs : gmap string TxDoc) :
  tracked docs -> docs !! h = Some d -> post_pending d -> nonce_at h docs.
Proof.
  intros Hdocs Hd Hpp d' Hd'. rewrite Hd in Hd'. injection Hd' as <-.
  exact (proj2 (Hdocs h d Hd) Hpp).
Qed.

(** Goals about an explicit store. *)
Ltac tracked_goal :=
  cbn in *;
  repeat match goal with
         | H : <[?h := _]> _ !! ?h = Some _ |- _ =>
             rewrite lookup_insert_eq in H; injection H as <-
         | H : <[?h := _]> _ !! ?h = None |- _ =>
             rewrite lookup_insert_eq in H; discriminate H
         end;
  repeat match goal with
         | |- _ /\ _ => split
         | |- tracked (<[_ := _]> _) => apply tracked_insert
         | |- nonce_at _ (<[_ := _]> _) => apply nonce_at_insert
         end;
  cbn in *;
  try assumption;
  try solve [ unfold known_state; cbn; auto 6 ];
  try solve [ intros _; cbn; congruence ];
  try solve [ cbn; congruence ];
  try solve [ intros [Hs | Hs]; cbn in Hs; congruence ];
  try solve [ intros _; eapply nonce_at_found; eassumption ];
  try solve [ eapply nonce_at_found; eassumption ];
  try solve [ eapply nonce_at_tracked;
              [eassumption | eassumption | unfold post_pending; auto] ].

Lemma updateTxState_tracked (h s : string) (w : World) :
  s = "completed" \/ s = "failed" ->
  well_tracked w -> nonce_at h (store w) ->
  well_tracked (snd (updateTxState env h s w))
  /\ nonce_at h (store (snd (updateTxState env h s w))).
Proof.
  intros Hs Hw Hh. unfold well_tracked in *. unfold_service. cbn.
  case_split; tracked_goal.
  all: destruct Hs as [-> | ->]; unfold known_state; cbn; auto 6.
Qed.

Lemma performDeposit_tracked (h : string) (n p1 p2 tokenIndex amt : Z) (w : World) :
  well_tracked w -> nonce_at h (store w) ->
  well_tracked (snd (performDeposit env h n p1 p2 tokenIndex amt w))
  /\ nonce_at h (store (snd (performDeposit env h n p1 p2 tokenIndex amt w))).
Proof.
  intros Hw Hh. unfold well_tracked in *. unfold_service. cbn.
  case_split; tracked_goal.
Qed.

Ltac run_event :=
  unfold processTopUpEvent, get_nonce, TxHash_findOne, save, saveNew,
    admin_getNonce, admin_checkDeposit, nonce_is_null, remote, clock,
    consoleError, emit, tryCatch, bind, ret, throw, processExit, log_event,
    with_store;
  cbn -[performDeposit updateTxState].

Ltac split_event :=
  repeat (first
            [ rewrite lookup_insert_eq
            | match goal with
              | |- context [match ?x with _ => _ end] =>
                  lazymatch x with
                  | context [match _ with _ => _ end] => fail
                  | _ => destruct x eqn:?
                  end
              end ];
          cbn -[performDeposit updateTxState]).

(** What the calls to [updateTxState] and [performDeposit] met on a path
    left in the store. *)
Ltac callee_tracked :=
  repeat match goal with
         | H : updateTxState _ ?h ?s ?wx = (_, _) |- _ =>
             let F := fresh "F" in
             assert (F : well_tracked (snd (updateTxState env h s wx))
                         /\ nonce_at h (store (snd (updateTxState env h s wx))))
               by (apply updateTxState_tracked; unfold well_tracked;
                   solve [auto | tracked_goal]);
             rewrite H in F; cbn in F; destruct F; clear H
         | H : performDeposit _ ?h ?n ?p1 ?p2 ?i ?a ?wx = (_, _) |- _ =>
             let F := fresh "F" in
             assert (F : well_tracked (snd (performDeposit env h n p1 p2 i a wx))
                         /\ nonce_at h
                              (store (snd (performDeposit env h n p1 p2 i a wx))))
               by (apply performDeposit_tracked; unfold well_tracked;
                   solve [tracked_goal]);
             rewrite H in F; cbn in F; destruct F; clear H
         end.

Lemma processTopUpEvent_tracked (event : EventLog) (w : World) :
  well_tracked w -> well_tracked (snd (processTopUpEvent env event w)).
Proof.
  intros Hw. unfold well_tracked in *. run_event.
  split_event; eqb_facts; callee_tracked; unfold well_tracked in *; tracked_goal.
Qed.

(** X19: the store stays well formed under event processing.  If every
    tracked document is in one of the four states of the schema, and every
    document 'in-progress' or 'failed' has a nonce, the same holds after an
    event has been processed, however the call ends. *)
Theorem tracked_documents_stay_well_formed (event : EventLog) (w : World) :
  well_tracked w -> well_tracked (snd (processTopUpEvent env event w)).
Proof. exact (processTopUpEvent_tracked event w). Qed.

Lemma history_extended_refl (w : World) : history_extended w w.
Proof. exists []. symmetry. apply app_nil_r. Qed.

Lemma history_extended_logged (ev : Event) (w : World) :
  history_extended w (log_event ev w).
Proof. exists [ev]. reflexivity. Qed.

Lemma history_extended_trans (w1 w2 w3 : World) :
  history_extended w1 w2 -> history_extended w2 w3 -> history_extended w1 w3.
Proof.
  intros [evs1 E1] [evs2 E2]. exists (evs1 ++ evs2).
  rewrite E2, E1, app_assoc. reflexivity.
Qed.

Lemma safely_ret {A} (a : A) : runs_safely env (ret a).
Proof.
  intros w Hw Hidle.
  split; [exact Hw | split; [exact Hidle | apply history_extended_refl]].
Qed.

Lemma safely_remote {A} (ev : Event) (answer : list Event -> Resp A) :
  runs_safely env (remote ev answer).
Proof.
  intros w Hw Hidle. unfold remote. cbn.
  destruct (answer _);
    (split; [exact Hw | split; [exact Hidle | apply history_extended_logged]]).
Qed.

Lemma safely_consoleError (msg : string) : runs_safely env (consoleError msg).
Proof.
  intros w Hw Hidle.
  split; [exact Hw | split; [exact Hidle | apply history_extended_logged]].
Qed.

Lemma safely_findTxByHash (h : string) : runs_safely env (findTxByHash env h).
Proof.
  intros w Hw Hidle. unfold findTxByHash, TxHash_findOne. cbn.
  destruct (storeFault env _);
    (split; [exact Hw | split; [exact Hidle | apply history_extended_logged]]).
Qed.

(** What a later step does, seen from the start of the run. *)
Lemma safely_after {A} (w w1 : World) (r : Outcome A * World) :
  history_extended w w1 ->
  match r with
  | (Exit c, w') =>
      c = 1
      /\ exists pre,
           getNonce env (trace w1 ++ pre ++ [EvGetNonce]) = Resolved None
           /\ trace w'
              = trace w1 ++ pre
                ++ [EvGetNonce;
                    EvConsoleError "nonce is null, this shall not happen"]
  | (_, w') =>
      well_tracked w' /\ isProcessingDeposit w' = false
      /\ history_extended w1 w'
  end ->
  match r with
  | (Exit c, w') =>
      c = 1
      /\ exists pre,
           getNonce env (trace w ++ pre ++ [EvGetNonce]) = Resolved None
           /\ trace w'
              = trace w ++ pre
                ++ [EvGetNonce;
                    EvConsoleError "nonce is null, this shall not happen"]
  | (_, w') =>
      well_tracked w' /\ isProcessingDeposit w' = false
      /\ history_extended w w'
  end.
Proof.
  intros [evs E] Hr. destruct r as [[a | e | c] w'].
  - destruct Hr as (Hw & Hidle & Hext). split; [exact Hw | split; [exact Hidle |]].
    apply history_extended_trans with w1; [exists evs; exact E | exact Hext].
  - destruct Hr as (Hw & Hidle & Hext). split; [exact Hw | split; [exact Hidle |]].
    apply history_extended_trans with w1; [exists evs; exact E | exact Hext].
  - destruct Hr as (Hc & pre & Hnull & Htrace). split; [exact Hc |].
    exists (evs ++ pre). rewrite E in Hnull, Htrace.
    rewrite <- !app_assoc in Hnull, Htrace. rewrite <- !app_assoc.
    split; assumption.
Qed.

Lemma safely_bind {A B} (m : M A) (k : A -> M B) :
  runs_safely env m -> (forall a, runs_safely env (k a)) ->
  runs_safely env (bind m k).
Proof.
  intros Hm Hk w Hw Hidle. rewrite bind_run. specialize (Hm w Hw Hidle).
  destruct (m w) as [[a | e | c] w1]; try exact Hm.
  destruct Hm as (Hw1 & Hidle1 & Hext).
  apply (safely_after w w1 (k a w1) Hext). exact (Hk a w1 Hw1 Hidle1).
Qed.

Lemma safely_tryCatch {A} (body : M A) (handler : string -> M A) :
  runs_safely env body -> (forall e, runs_safely env (handler e)) ->
  runs_safely env (tryCatch body handler).
Proof.
  intros Hb Hh w Hw Hidle. unfold tryCatch. specialize (Hb w Hw Hidle).
  destruct (body w) as [[a | e | c] w1]; try exact Hb.
  destruct Hb as (Hw1 & Hidle1 & Hext).
  apply (safely_after w w1 (handler e w1) Hext). exact (Hh e w1 Hw1 Hidle1).
Qed.

Lemma safely_processTopUpEvent (event : EventLog) :
  runs_safely env (processTopUpEvent env event).
Proof.
  intros w Hw Hidle.
  pose proof (processTopUpEvent_tracked event w Hw) as Hafter.
  pose proof (processTopUpEvent_flag env event w Hidle) as Hflag.
  pose proof (processTopUpEvent_exit_cause env event w) as Hcause.
  pose proof (proj1 (history_only_grows env) event w) as Hext.
  destruct (processTopUpEvent env event w) as [[[] | e | c] w1]; cbn in *.
  - split; [exact Hafter | split; [exact (Hflag I) | exact Hext]].
  - split; [exact Hafter | split; [exact (Hflag I) | exact Hext]].
  - destruct (Hcause c eq_refl)
      as [Hc [(d & Hd & Hstate) | [Hbusy | Hnull]]].
    + exfalso. destruct Hstate as (H1 & H2 & H3 & H4).
      destruct (proj1 (Hw _ _ Hd)) as [H | [H | [H | H]]]; contradiction.
    + congruence.
    + destruct Hnull as (history & [pre ->] & Hnull & Htrace).
      split; [exact Hc |]. exists pre.
      rewrite <- !app_assoc in Hnull. rewrite <- !app_assoc in Htrace.
      split; [exact Hnull | exact Htrace].
Qed.

Lemma safely_processHistoricalLogs (logs : list EventLog) :
  runs_safely env (processHistoricalLogs env logs).
Proof.
  induction logs as [| log rest IH]; cbn [processHistoricalLogs].
  - apply safely_ret.
  - apply safely_bind; [| intros _; exact IH].
    apply safely_tryCatch; [| intros e; apply safely_consoleError].
    apply safely_bind; [apply safely_findTxByHash |].
    intros tx. destruct (needs_processing tx);
      [apply safely_processTopUpEvent | apply safely_ret].
Qed.

Lemma safely_historicalLoop (fuel : nat) (fromBlock latestBlock : Z) :
  runs_safely env (historicalLoop env fuel fromBlock latestBlock).
Proof.
  revert fromBlock. induction fuel as [| fuel IH]; intros fromBlock;
    cbn [historicalLoop].
  - apply safely_ret.
  - destruct (fromBlock <? latestBlock); [| apply safely_ret].
    cbv zeta. apply safely_bind; [| intros _; apply IH].
    apply safely_tryCatch; [| intros e; apply safely_consoleError].
    apply safely_bind; [apply safely_remote |].
    intros logs. apply safely_processHistoricalLogs.
Qed.

Lemma safely_getHistoricalTopUpEvents (config_startBlock : option Z) :
  runs_safely env (getHistoricalTopUpEvents env config_startBlock).
Proof.
  unfold getHistoricalTopUpEvents.
  apply safely_tryCatch; [| intros e; apply safely_consoleError].
  apply safely_bind; [apply safely_remote |].
  intros head. destruct config_startBlock as [configured |].
  - destruct (configured >? head); [apply safely_ret | apply safely_historicalLoop].
  - apply safely_historicalLoop.
Qed.

Lemma safely_pollLogs (fuel : nat) (fromBlock currentBlock : Z)
    (acc : list EventLog) :
  runs_safely env (pollLogs env fuel fromBlock currentBlock acc).
Proof.
  revert fromBlock acc. induction fuel as [| fuel IH]; intros fromBlock acc;
    cbn [pollLogs].
  - apply safely_ret.
  - destruct (fromBlock <=? currentBlock); [| apply safely_ret].
    cbv zeta. apply safely_bind; [apply safely_remote |].
    intros batch. apply IH.
Qed.

Lemma safely_processPolledLogs (logs : list EventLog) :
  runs_safely env (processPolledLogs env logs).
Proof.
  induction logs as [| log rest IH]; cbn [processPolledLogs].
  - apply safely_ret.
  - apply safely_bind; [apply safely_processTopUpEvent | intros _; exact IH].
Qed.

Lemma safely_pollAttempt (last : Z) : runs_safely env (pollAttempt env last).
Proof.
  unfold pollAttempt. apply safely_bind; [apply safely_remote |].
  intros head. destruct (head >? last); [| apply safely_ret].
  apply safely_bind; [apply safely_pollLogs |].
  intros logs. apply safely_bind; [apply safely_processPolledLogs |].
  intros _. apply safely_ret.
Qed.

Lemma safely_pollRetries (retries : nat) (last : Z) :
  runs_safely env (pollRetries env retries last).
Proof.
  induction retries as [| retries IH]; cbn [pollRetries].
  - apply safely_ret.
  - apply safely_bind.
    + apply safely_tryCatch.
      * apply safely_bind; [apply safely_pollAttempt |].
        intros head. apply safely_ret.
      * intros e. apply safely_bind; [apply safely_consoleError |].
        intros _. apply safely_bind; [| intros _; apply safely_ret].
        destruct (Nat.eqb retries 0);
          [apply safely_consoleError | apply safely_ret].
    + intros [head |]; [apply safely_ret | exact IH].
Qed.

Lemma safely_poll (st : PollState) : runs_safely env (poll env st).
Proof.
  unfold poll. destruct (isProcessing st); [apply safely_ret |].
  apply safely_bind; [apply safely_pollRetries |].
  intros head. apply safely_ret.
Qed.

Lemma safely_pollRounds (rounds : nat) (st : PollState) :
  runs_safely env (pollRounds env rounds st).
Proof.
  revert st. induction rounds as [| rounds IH]; intros st; cbn [pollRounds].
  - apply safely_ret.
  - apply safely_bind; [apply safely_poll | intros st'; apply IH].
Qed.

Lemma safely_serveFromSweep (config_startBlock : option Z) (rounds : nat) :
  runs_safely env (serveFromSweep env config_startBlock rounds).
Proof.
  unfold serveFromSweep.
  apply safely_bind; [apply safely_getHistoricalTopUpEvents |].
  intros _. apply safely_bind; [apply safely_remote |].
  intros head. apply safely_pollRounds.
Qed.

(** X20: from a well-formed store and an idle submission path, the
    service (the historical sweep and any number of polling rounds after it)
    ends the process only through the exit on a [null] nonce: the exit code
    is 1 and the last two events of the run are a nonce request that was
    answered [null] and the message "nonce is null, this shall not happen".
    The exits on an unknown state, on a reentrant submission and on an
    already completed document are not reached.  As long as the process goes
    on, the store stays well formed and the submission path idle. *)
Theorem service_exits_only_on_null_nonce
    (config_startBlock : option Z) (rounds : nat) (w : World) :
  well_tracked w ->
  isProcessingDeposit w = false ->
  (forall c w',
     serveFromSweep env config_startBlock rounds w = (Exit c, w') ->
     c = 1
     /\ exists pre,
          getNonce env (trace w ++ pre ++ [EvGetNonce]) = Resolved None
          /\ trace w'
             = trace w ++ pre
               ++ [EvGetNonce;
                   EvConsoleError "nonce is null, this shall not happen"])
  /\ (survives (fst (serveFromSweep env config_startBlock rounds w)) ->
      well_tracked (snd (serveFromSweep env config_startBlock rounds w))
      /\ isProcessingDeposit (snd (serveFromSweep env config_startBlock rounds w))
         = false).
Proof.
  intros Hw Hidle.
  pose proof (safely_serveFromSweep config_startBlock rounds w Hw Hidle) as Hsafe.
  destruct (serveFromSweep env config_startBlock rounds w) as [[st | e | c] w1];
    cbn in *.
  - split; [intros c w' Hc; discriminate Hc |].
    intros _. destruct Hsafe as (Hw1 & Hidle1 & _). split; assumption.
  - split; [intros c w' Hc; discriminate Hc |].
    intros _. destruct Hsafe as (Hw1 & Hidle1 & _). split; assumption.
  - split; [| intros Hs; contradiction].
    intros c' w' [= <- <-]. exact Hsafe.
Qed.

End TrackedDocuments.

Lemma tracked_documents_stay_well_formed_witness :
  well_tracked
    (snd (processTopUpEvent (steadyEnv ["T"] (Some 7) None true 100)
            (sampleEvent (2 * 10 ^ 18)) (sampleWorld "failed" (Some 3)))).
Proof.
  apply (tracked_documents_stay_well_formed
           (steadyEnv ["T"] (Some 7) None true 100)
           (sampleEvent (2 * 10 ^ 18)) (sampleWorld "failed" (Some 3))).
  intros k d. unfold sampleWorld. cbn. rewrite lookup_singleton_Some.
  intros [_ <-]. split; [right; right; right; reflexivity | intros _; discriminate].
Defined.

Lemma service_exits_only_on_null_nonce_witness :
  (forall c w',
     serveFromSweep (replayEnv (Some 7)) (Some 90) 1 (sampleWorld "failed" (Some 3))
     = (Exit c, w') ->
     c = 1
     /\ exists pre,
          getNonce (replayEnv (Some 7))
            (trace (sampleWorld "failed" (Some 3)) ++ pre ++ [EvGetNonce])
          = Resolved None
          /\ trace w'
             = trace (sampleWorld "failed" (Some 3)) ++ pre
               ++ [EvGetNonce;
                   EvConsoleError "nonce is null, this shall not happen"])
  /\ (survives (fst (serveFromSweep (replayEnv (Some 7)) (Some 90) 1
                       (sampleWorld "failed" (Some 3)))) ->
      well_tracked (snd (serveFromSweep (replayEnv (Some 7)) (Some 90) 1
                           (sampleWorld "failed" (Some 3))))
      /\ isProcessingDeposit
           (snd (serveFromSweep (replayEnv (Some 7)) (Some 90) 1
                   (sampleWorld "failed" (Some 3))))
         = false).
Proof.
  apply (service_exits_only_on_null_nonce (replayEnv (Some 7)) (Some 90) 1
           (sampleWorld "failed" (Some 3))).
  - intros k d. unfold sampleWorld. cbn. rewrite lookup_singleton_Some.
    intros [_ <-]. split; [right; right; right; reflexivity | intros _; discriminate].
  - reflexivity.
Defined.

(** The run of the witness: the sweep finds the event of the 'failed'
    document, verifies, resubmits under the fresh nonce 7 and completes it;
    the polling round finds no new block. *)
Example service_run_resubmits :
  serveFromSweep (replayEnv (Some 7)) (Some 90) 1 (sampleWorld "failed" (Some 3))
  = (Ret (mkPollState 100 false),
     mkWorld
       {[ "0xabc" := mkTxDoc "0xabc" "completed" 0 "T" "U" (Some 7) 1 2 2 1 (Some 0) ]}
       false
       [EvGetBlockNumber; EvGetLogs 90 100; EvFindOne "0xabc"; EvAllTokens;
        EvFindOne "0xabc"; EvCheckDeposit 3 1 2 0 2; EvGetNonce;
        EvSave (mkTxDoc "0xabc" "failed" 0 "T" "U" (Some 7) 1 2 2 1 (Some 0));
        EvFindOne "0xabc";
        EvDeposit 7 1 2 0 2
          (Some (mkTxDoc "0xabc" "failed" 0 "T" "U" (Some 7) 1 2 2 1 (Some 0)));
        EvUpdateOne "0xabc" "completed"; EvGetBlockNumber; EvGetBlockNumber]).
Proof. vm_compute. reflexivity. Qed.

(** With a nonce source that answers [null] the same run ends the process,
    the request and the message last in its history. *)
Example service_run_null_nonce :
  serveFromSweep (replayEnv None) (Some 90) 1 (sampleWorld "failed" (Some 3))
  = (Exit 1,
     mkWorld {[ "0xabc" := sampleDoc "failed" (Some 3) ]} false
       [EvGetBlockNumber; EvGetLogs 90 100; EvFindOne "0xabc"; EvAllTokens;
        EvFindOne "0xabc"; EvCheckDeposit 3 1 2 0 2; EvGetNonce;
        EvConsoleError "nonce is null, this shall not happen"]).
Proof. vm_compute. reflexivity. Qed.


(** ** Reading the encodings back *)

Section ReadBack.

Lemma limbs256_split (a b c d : Z) :
  0 <= a < 2 ^ 64 -> 0 <= b < 2 ^ 64 -> 0 <= c < 2 ^ 64 -> 0 <= d < 2 ^ 64 ->
  Z.shiftr (limbs256 a b c d) 192 = a
  /\ Z.land (Z.shiftr (limbs256 a b c d) 128) (Z.ones 64) = b
  /\ Z.land (Z.shiftr (limbs256 a b c d) 64) (Z.ones 64) = c
  /\ Z.land (limbs256 a b c d) (Z.ones 64) = d.
Proof.
  intros Ha Hb Hc Hd. unfold limbs256.
  rewrite !Z.land_ones, !Z.shiftr_div_pow2, !Z.shiftl_mul_pow2 by lia.
  repeat split.
  - symmetry. apply Z.div_unique with (b * 2 ^ 128 + c * 2 ^ 64 + d); lia.
  - replace ((a * 2 ^ 192 + b * 2 ^ 128 + c * 2 ^ 64 + d) / 2 ^ 128)
      with (a * 2 ^ 64 + b).
    + symmetry. apply Z.mod_unique with a; lia.
    + apply Z.div_unique with (c * 2 ^ 64 + d); lia.
  - replace ((a * 2 ^ 192 + b * 2 ^ 128 + c * 2 ^ 64 + d) / 2 ^ 64)
      with (a * 2 ^ 128 + b * 2 ^ 64 + c).
    + symmetry. apply Z.mod_unique with (a * 2 ^ 64 + b); lia.
    + apply Z.div_unique with d; lia.
  - symmetry. apply Z.mod_unique with (a * 2 ^ 128 + b * 2 ^ 64 + c); lia.
Qed.

(** X21: the three extractors read the limbs 0-3, 4-7 and 8-11 of the
    instance array.  On decimal numerals of values below 2^64 each returns
    0x followed by exactly 64 hexadecimal digits; read back, the digits give
    the packed value, and the four limbs are recovered from it by shifting
    and masking. *)
Theorem extracted_value_reads_back
    (attributes : ProofArgs) (vals : list Z)
    (extract : ProofArgs -> Outcome string) (i : nat) (a b c d : Z) :
  limb_strings (instArr attributes) vals ->
  (extract, i) ∈ [(extractMerkleRoot, 0%nat); (extractNewMerkleRoot, 4%nat);
                  (extractShaHash, 8%nat)] ->
  vals !! i = Some a -> vals !! (i + 1)%nat = Some b ->
  vals !! (i + 2)%nat = Some c -> vals !! (i + 3)%nat = Some d ->
  exists digits v,
    extract attributes = Ret ("0x" ++ digits)%string
    /\ String.length digits = 64%nat
    /\ hex_value_from 0 digits = Some v
    /\ v = limbs256 a b c d
    /\ Z.shiftr v 192 = a
    /\ Z.land (Z.shiftr v 128) (Z.ones 64) = b
    /\ Z.land (Z.shiftr v 64) (Z.ones 64) = c
    /\ Z.land v (Z.ones 64) = d.
Proof.
  intros Harr Hextract Ha Hb Hc Hd.
  pose proof (Forall2_length _ _ _ Harr) as Hlen.
  pose proof (lookup_lt_Some _ _ _ Hd) as Hi.
  destruct (Forall2_lookup_r _ _ _ _ _ Harr Ha) as (sa & _ & _ & Ra).
  destruct (Forall2_lookup_r _ _ _ _ _ Harr Hb) as (sb & _ & _ & Rb).
  destruct (Forall2_lookup_r _ _ _ _ _ Harr Hc) as (sc & _ & _ & Rc).
  destruct (Forall2_lookup_r _ _ _ _ _ Harr Hd) as (sd & _ & _ & Rd).
  exists (hex_fixed 64 (limbs256 a b c d)), (limbs256 a b c d).
  split; [| split; [apply hex_fixed_length | split; [| split; [reflexivity |]]]].
  - change ("0x" ++ hex_fixed 64 (limbs256 a b c d))%string
      with (hex256 (limbs256 a b c d)).
    rewrite <- (pack_limbs_ok _ _ i a b c d Harr Ha Hb Hc Hd).
    repeat (apply elem_of_cons in Hextract;
            destruct Hextract as [[= -> ->] | Hextract]);
      [| | | inversion Hextract].
    + unfold extractMerkleRoot.
      destruct (Z.ltb_spec (Z.of_nat (length (instArr attributes))) 4);
        [lia | reflexivity].
    + unfold extractNewMerkleRoot.
      destruct (Z.ltb_spec (Z.of_nat (length (instArr attributes))) 8);
        [lia | reflexivity].
    + unfold extractShaHash.
      destruct (Z.ltb_spec (Z.of_nat (length (instArr attributes))) 12);
        [lia | reflexivity].
  - apply hex_fixed_value.
    pose proof (limbs256_range a b c d Ra Rb Rc Rd) as Hrange.
    change (16 ^ Z.of_nat 64) with (2 ^ 256). exact Hrange.
  - apply limbs256_split; assumption.
Qed.

(** X22: the command word reads back.  For a nonce below 2^48, an opcode
    below 2^8 and fewer than 255 parameters, the first word of the buffer
    holds the nonce from bit 16 up, the number of words (parameters plus
    one) in bits 8-15 and the opcode in bits 0-7, and one word follows for
    each parameter.  A nonce of 48 bits or more does not fit: adding a
    multiple of 2^48 to the nonce leaves the buffer unchanged. *)
Theorem createCommand_reads_back :
  (forall nonce command params,
     0 <= nonce < 2 ^ 48 ->
     0 <= command < 2 ^ 8 ->
     Z.of_nat (length params) + 1 < 2 ^ 8 ->
     exists word rest,
       createCommand nonce command params = word :: rest
       /\ Z.shiftr word 16 = nonce
       /\ Z.land (Z.shiftr word 8) (Z.ones 8) = Z.of_nat (length params) + 1
       /\ Z.land word (Z.ones 8) = command
       /\ length rest = length params)
  /\ (forall nonce command params k,
        createCommand (nonce + k * 2 ^ 48) command params
        = createCommand nonce command params).
Proof.
  split.
  - intros nonce command params Hn Hc Hl.
    set (len := Z.of_nat (length params)) in *.
    assert (Hlen0 : 0 <= len) by (subst len; lia).
    exists (nonce * 2 ^ 16 + (len + 1) * 2 ^ 8 + command),
           (map (asUintN 64) params).
    split; [| split; [| split; [| split]]].
    + unfold createCommand, BigUint64Array. cbn [map]. f_equal.
      fold len. rewrite !Z.shiftl_mul_pow2 by lia.
      apply asUintN_small. lia.
    + rewrite Z.shiftr_div_pow2 by lia. symmetry.
      apply Z.div_unique with ((len + 1) * 2 ^ 8 + command); lia.
    + rewrite Z.land_ones, Z.shiftr_div_pow2 by lia.
      replace ((nonce * 2 ^ 16 + (len + 1) * 2 ^ 8 + command) / 2 ^ 8)
        with (nonce * 2 ^ 8 + (len + 1)).
      * symmetry. apply Z.mod_unique with nonce; lia.
      * apply Z.div_unique with command; lia.
    + rewrite Z.land_ones by lia. symmetry.
      apply Z.mod_unique with (nonce * 2 ^ 8 + (len + 1)); lia.
    + apply length_map.
  - intros nonce command params k.
    unfold createCommand, BigUint64Array. cbn [map]. f_equal.
    unfold asUintN. rewrite !Z.shiftl_mul_pow2 by lia.
    replace ((nonce + k * 2 ^ 48) * 2 ^ 16
             + (Z.of_nat (length params) + 1) * 2 ^ 8 + command)
      with (nonce * 2 ^ 16 + (Z.of_nat (length params) + 1) * 2 ^ 8 + command
            + k * 2 ^ 64) by lia.
    apply Z.mod_add. lia.
Qed.

End ReadBack.

Lemma extracted_value_reads_back_witness :
  exists digits v,
    extractShaHash demo_attributes = Ret ("0x" ++ digits)%string
    /\ String.length digits = 64%nat
    /\ hex_value_from 0 digits = Some v
    /\ v = limbs256 16406829232824261652 11167788843400149284
             2859295262623109964 11859553537011923029
    /\ Z.shiftr v 192 = 16406829232824261652
    /\ Z.land (Z.shiftr v 128) (Z.ones 64) = 11167788843400149284
    /\ Z.land (Z.shiftr v 64) (Z.ones 64) = 2859295262623109964
    /\ Z.land v (Z.ones 64) = 11859553537011923029.
Proof.
  apply (extracted_value_reads_back demo_attributes demo_limbs extractShaHash 8).
  - repeat (constructor; [split; [reflexivity | lia] |]). constructor.
  - apply list_elem_of_further, list_elem_of_further, list_elem_of_here.
  - reflexivity.
  - reflexivity.
  - reflexivity.
  - reflexivity.
Defined.

Lemma createCommand_reads_back_witness :
  exists word rest,
    createCommand 5 7 [1; 2; 0; 2] = word :: rest
    /\ Z.shiftr word 16 = 5
    /\ Z.land (Z.shiftr word 8) (Z.ones 8) = Z.of_nat (length [1; 2; 0; 2]) + 1
    /\ Z.land word (Z.ones 8) = 7
    /\ length rest = length [1; 2; 0; 2].
Proof.
  apply (proj1 createCommand_reads_back 5 7 [1; 2; 0; 2]); cbn; lia.
Defined.
